(** * CodePilot: a shallow embedding of the indexing and retrieval core

    The development follows the Python sources of the repository:

    - [processors/chunker.py]      ([Module Chunker])
    - [processors/ast_parser.py]   ([Module AstParser])
    - [vector_db/faiss_store.py]   ([Module IndexFlatL2], [Module FaissVectorStore])
    - [engine/retriever.py]        ([Module Retriever])

    Python [str] values are lists of characters, Python [int] values are
    [Z], Python [float] values are the IEEE 754 binary64 values of the
    standard library's [SpecFloat], a Python [dict] with string keys is a
    [gmap string pyval], and a raised exception is the [Raise] branch of
    the [result] type. *)

From Stdlib Require Import List ZArith Ascii String Lia Bool.
From Stdlib Require SpecFloat.
From Stdlib Require Import Sorted Permutation.
From stdpp Require Import gmap strings list fin_maps.
From Equations Require Import Equations.
Import ListNotations.

Local Open Scope Z_scope.
Local Open Scope list_scope.

(** ** Python values *)

(** A Python string: its characters, in order (code points below 256). *)
Abbreviation str := (list ascii).

(** String literals are written with Rocq's [string] notation. *)
Definition s2l (s : string) : str := list_ascii_of_string s.

(** [len(s)] *)
Definition len {A} (l : list A) : Z := Z.of_nat (length l).

(** The exceptions the modelled code can raise. *)
Inductive exn : Type :=
| ValueError
| TypeError
| AssertionError      (* faiss: [assert d == self.d] *)
| RuntimeError        (* faiss I/O failures *)
| OSError             (* FileNotFoundError, IOError, PermissionError *)
| JSONDecodeError     (* a subclass of ValueError, not of OSError *)
| KeyError
| SyntaxError          (* and its subclasses: IndentationError, TabError *)
| RecursionError
| ZeroDivisionError.

Inductive result (A : Type) : Type :=
| Ok (a : A)
| Raise (e : exn).
Arguments Ok {A} a.
Arguments Raise {A} e.

#[global] Instance result_ret : MRet result := fun A a => Ok a.

#[global] Instance result_bind : MBind result := fun A B k r =>
  match r with
  | Ok a => k a
  | Raise e => Raise e
  end.

(** [for x in xs: acc = body(acc, x)] in the exception monad. *)
Fixpoint for_each {A S} (body : S -> A -> result S) (xs : list A) (acc : S)
  : result S :=
  match xs with
  | [] => Ok acc
  | x :: xs' => acc' ← body acc x; for_each body xs' acc'
  end.

(** ** Python string operations *)

Definition newline : ascii := ascii_of_nat 10.
Definition space : ascii := ascii_of_nat 32.

(** [str.isspace] on one character (code points below 256). *)
Definition isspace (c : ascii) : bool :=
  let n := nat_of_ascii c in
  ((9 <=? n) && (n <=? 13) || (28 <=? n) && (n <=? 32)
   || (n =? 133) || (n =? 160))%nat.

(** [s.startswith(p)] *)
Fixpoint startswith (s p : str) {struct p} : bool :=
  match p, s with
  | [], _ => true
  | _ :: _, [] => false
  | a :: p', b :: s' => Ascii.eqb a b && startswith s' p'
  end.

(** [s.lstrip()] *)
Fixpoint lstrip (s : str) : str :=
  match s with
  | [] => []
  | c :: s' => if isspace c then lstrip s' else s
  end.

(** [sep.join(pieces)] *)
Fixpoint join (sep : str) (pieces : list str) : str :=
  match pieces with
  | [] => []
  | [p] => p
  | p :: rest => p ++ sep ++ join sep rest
  end.

Definition cons_head (c : ascii) (pieces : list str) : list str :=
  match pieces with
  | [] => [[c]]
  | p :: ps => (c :: p) :: ps
  end.

(** [s.split(sep)] for a non-empty separator: a left-to-right scan for
    non-overlapping occurrences.  [skip] counts the characters of an
    occurrence that are still to be dropped. *)
Fixpoint split_go (sep : str) (skip : nat) (s : str) : list str :=
  match s with
  | [] => [[]]
  | c :: s' =>
      match skip with
      | S k => split_go sep k s'
      | O =>
          if startswith s sep
          then [] :: split_go sep (length sep - 1) s'
          else cons_head c (split_go sep 0 s')
      end
  end.

Definition split (sep s : str) : list str := split_go sep 0 s.

(** A Python slice index, clamped as [s[i:j]] does it. *)
Definition clamp_index (n i : Z) : Z :=
  let i' := if i <? 0 then i + n else i in
  Z.max 0 (Z.min n i').

(** [s[i:j]] *)
Definition slice {A} (s : list A) (i j : Z) : list A :=
  let a := clamp_index (len s) i in
  let b := clamp_index (len s) j in
  firstn (Z.to_nat (b - a)) (skipn (Z.to_nat a) s).

(** [range(0, stop, step)]: a zero step raises [ValueError]; the length
    is CPython's [(stop - 1) // step + 1] for a positive step and a
    positive stop. *)
Definition range0 (stop step : Z) : result (list Z) :=
  if step =? 0 then Raise ValueError
  else if (step <? 0) || (stop <=? 0) then Ok []
  else Ok (map (fun j => Z.of_nat j * step)
               (seq 0 (Z.to_nat ((stop - 1) / step + 1)))).

(** [x or default] on an optional integer argument. *)
Definition int_or (x : option Z) (default : Z) : Z :=
  match x with
  | Some z => if z =? 0 then default else z
  | None => default
  end.

(** A value stored in a metadata dictionary. *)
Inductive pyval : Type :=
| VStr (s : str)
| VInt (z : Z)
| VList (l : list str)
| VPair (a b : Z)      (* a pair of integers: a tuple, or the list JSON makes of it *)
| VDict (d : list (string * Z)).

(** A metadata dictionary. *)
Abbreviation dict := (gmap string pyval).

(** A document: [{"content": ..., "metadata": ...}]. *)
Record document : Type := Document {
  content : str;
  doc_metadata : dict
}.

Module Config.
Definition CHUNK_SIZE : Z := 1000.
Definition CHUNK_OVERLAP : Z := 200.
Definition VECTOR_DIMENSION : Z := 768.
Definition TOP_K : Z := 5.
End Config.

(** ** processors/chunker.py *)

Module Chunker.

Record t : Type := Make {
  chunk_size : Z;
  chunk_overlap : Z
}.

(** [Chunker.__init__] *)
Definition __init__ (cs co : option Z) : t :=
  {| chunk_size := int_or cs Config.CHUNK_SIZE;
     chunk_overlap := int_or co Config.CHUNK_OVERLAP |}.

(** [Chunker._simple_chunk_by_size] *)
Definition _simple_chunk_by_size (self : t) (content : str) : result (list str) :=
  if len content <=? chunk_size self then Ok [content]
  else
    starts ← range0 (len content) (chunk_size self);
    Ok (map (fun i => slice content i (i + chunk_size self)) starts).

(** The local variables of the loop of [_chunk_code]. *)
Record code_state : Type := CodeState {
  chunks : list str;
  current_chunk : list str;
  current_size : Z;
  indent_level : option Z
}.

(** [chunks.append('\n'.join(current_chunk)); current_chunk = [];
    current_size = 0] *)
Definition flush (sep : str) (chunks current : list str) : list str :=
  chunks ++ [join sep current].

(** [line.startswith(' ' * (indent_level + 4) if indent_level is not None
    else False)]: [str.startswith(False)] raises [TypeError]. *)
Definition starts_indented (line : str) (indent : option Z) : result bool :=
  match indent with
  | Some n => Ok (startswith line (repeat space (Z.to_nat (n + 4))))
  | None => Raise TypeError
  end.

(** [stripped.startswith(kw) and not line.startswith(...)], with the
    short-circuit of [and]. *)
Definition shallow_keyword (kw : string) (line stripped : str)
    (indent : option Z) : result bool :=
  if startswith stripped (s2l kw)
  then deep ← starts_indented line indent; Ok (negb deep)
  else Ok false.

(** The condition of the "logical boundary" [if], with the
    short-circuit of [or]. *)
Definition is_boundary (line stripped : str) (indent : option Z) : result bool :=
  if startswith line (s2l "@") then Ok true
  else
    is_def ← shallow_keyword "def " line stripped indent;
    if is_def : bool then Ok true
    else shallow_keyword "class " line stripped indent.

(** One iteration of [for line in lines] in [_chunk_code].  The size
    test [current_size + line_size > self.chunk_size * 1.5] compares an
    int with a float exactly; it is written here over the integers. *)
Definition code_step (self : t) (st : code_state) (line : str) : result code_state :=
  let line_with_newline := line ++ [newline] in
  let line_size := len line_with_newline in
  let stripped := lstrip line in
  let indent :=
    match stripped, indent_level st with
    | _ :: _, None => Some (len line - len stripped)
    | _, lvl => lvl
    end in
  boundary ← is_boundary line stripped indent;
  let '(chunks1, current1, size1) :=
    match boundary, current_chunk st with
    | true, _ :: _ => (flush [newline] (chunks st) (current_chunk st), [], 0)
    | _, _ => (chunks st, current_chunk st, current_size st)
    end in
  let '(chunks2, current2, size2) :=
    match 3 * chunk_size self <? 2 * (size1 + line_size), current1 with
    | true, _ :: _ => (flush [newline] chunks1 current1, [], 0)
    | _, _ => (chunks1, current1, size1)
    end in
  Ok {| chunks := chunks2;
        current_chunk := current2 ++ [line];
        current_size := size2 + line_size;
        indent_level := indent |}.

(** [if current_chunk: chunks.append(sep.join(current_chunk))] *)
Definition flush_if_any (sep : str) (chunks current : list str) : list str :=
  match current with
  | [] => chunks
  | _ :: _ => flush sep chunks current
  end.

(** [metadata.get(type, default) == name], as a test on the dictionary *)
Definition type_is (md : dict) (name : string) : bool :=
  match md !! "type"%string with
  | Some (VStr s) => bool_decide (s = s2l name)
  | _ => false
  end.

(** [Chunker._chunk_code] *)
Definition _chunk_code (self : t) (content : str) (md : dict)
  : result (list str) :=
  if len content <=? chunk_size self then Ok [content]
  else if type_is md "function" && (len content <=? chunk_size self * 2)
  then Ok [content]
  else
    let lines := split [newline] content in
    st ← for_each (code_step self) lines
          {| chunks := []; current_chunk := []; current_size := 0;
             indent_level := None |};
    let chunks := flush_if_any [newline] (chunks st) (current_chunk st) in
    match chunks with
    | [] => _simple_chunk_by_size self content
    | _ :: _ => Ok chunks
    end.

(** [re.split(r'(?<=[.!?])\s+', para)]: a split point is a maximal run
    of whitespace that directly follows one of [.], [!], [?]. *)
Definition is_sentence_end (c : ascii) : bool :=
  let n := nat_of_ascii c in ((n =? 46) || (n =? 33) || (n =? 63))%nat.

Fixpoint re_split_go (after_end in_run : bool) (s : str) : list str :=
  match s with
  | [] => [[]]
  | c :: s' =>
      if isspace c then
        if in_run then re_split_go false true s'
        else if after_end then [] :: re_split_go false true s'
        else cons_head c (re_split_go false false s')
      else cons_head c (re_split_go (is_sentence_end c) false s')
  end.

Definition split_sentences (para : str) : list str :=
  re_split_go false false para.

(** The local variables of the loops of [_chunk_text]. *)
Record text_state : Type := TextState {
  t_chunks : list str;
  t_current : list str;
  t_size : Z
}.

Definition paragraph_sep : str := [newline; newline].

(** [if current_size + size > self.chunk_size and current_chunk: ...] *)
Definition close_if_full (self : t) (st : text_state) (size : Z) : text_state :=
  match chunk_size self <? t_size st + size, t_current st with
  | true, _ :: _ =>
      {| t_chunks := flush paragraph_sep (t_chunks st) (t_current st);
         t_current := []; t_size := 0 |}
  | _, _ => st
  end.

(** One iteration of [for sentence in sentences]. *)
Definition sentence_step (self : t) (st : text_state) (sentence : str)
  : result text_state :=
  let sentence_size := len sentence + 1 in
  let st1 := close_if_full self st sentence_size in
  if chunk_size self <? sentence_size then
    let chunks1 := flush_if_any paragraph_sep (t_chunks st1) (t_current st1) in
    sentence_chunks ← _simple_chunk_by_size self sentence;
    Ok {| t_chunks := chunks1 ++ sentence_chunks; t_current := []; t_size := 0 |}
  else
    Ok {| t_chunks := t_chunks st1;
          t_current := t_current st1 ++ [sentence];
          t_size := t_size st1 + sentence_size |}.

(** One iteration of [for para in paragraphs]. *)
Definition paragraph_step (self : t) (st : text_state) (para : str)
  : result text_state :=
  let para_size := len para + 2 in
  let st1 := close_if_full self st para_size in
  if chunk_size self <? para_size then
    for_each (sentence_step self) (split_sentences para) st1
  else
    Ok {| t_chunks := t_chunks st1;
          t_current := t_current st1 ++ [para];
          t_size := t_size st1 + para_size |}.

(** [Chunker._chunk_text] *)
Definition _chunk_text (self : t) (text : str) : result (list str) :=
  if len text <=? chunk_size self then Ok [text]
  else
    st ← for_each (paragraph_step self) (split paragraph_sep text)
          {| t_chunks := []; t_current := []; t_size := 0 |};
    Ok (flush_if_any paragraph_sep (t_chunks st) (t_current st)).

(** [for i, chunk in enumerate(chunks)]: each chunk gets a copy of the
    metadata with its position and the number of chunks. *)
Definition stamp (md : dict) (total : Z) (i : nat) (chunk : str) : document :=
  {| content := chunk;
     doc_metadata :=
       <["total_chunks"%string := VInt total]>
         (<["chunk_index"%string := VInt (Z.of_nat i)]> md) |}.

(** The body of [for doc in documents]. *)
Definition chunk_document (self : t) (doc : document) : result (list document) :=
  let md := doc_metadata doc in
  chunks ←
    match md !! "type"%string with
    | None => Raise KeyError
    | Some _ =>
        if type_is md "class" || type_is md "function"
        then _chunk_code self (content doc) md
        else _chunk_text self (content doc)
    end;
  Ok (imap (stamp md (len chunks)) chunks).

(** [Chunker.chunk_documents] *)
Definition chunk_documents (self : t) (documents : list document)
  : result (list document) :=
  for_each (fun acc doc => new ← chunk_document self doc; Ok (acc ++ new))
           documents [].

End Chunker.

(** ** processors/ast_parser.py *)

Module AstParser.

(** The node classes the parser distinguishes. *)
Inductive node_kind : Type :=
| Module_ | ClassDef | FunctionDef | AsyncFunctionDef | Name | OtherNode.

(** The field of the parent that holds a node. *)
Inductive field : Type := Body | Bases | OtherField.

(** The parent attribute of a node: [None] while the attribute is not set,
    [Some None] for [parent = None], [Some (Some k)] for a parent of
    class [k]. *)
Abbreviation parent_attr := (option (option node_kind)).

(** A node of Python's [ast]: what the parser reads from it.
    [end_lineno] is [None] for the nodes that have no such attribute;
    [docstring] is the value of [ast.get_docstring(node)]; [args] is
    [[arg.arg for arg in node.args.args]]; [children] is
    [ast.iter_child_nodes(node)]. *)
#[warnings="-register-all"]
Inductive node : Type := Node {
  kind : node_kind;
  in_field : field;
  name : str;
  lineno : Z;
  end_lineno : option Z;
  docstring : option str;
  args : list str;
  parent : parent_attr;
  children : list node
}.

Definition set_parent (p : parent_attr) (n : node) : node :=
  Node (kind n) (in_field n) (name n) (lineno n) (end_lineno n)
       (docstring n) (args n) p (children n).

(** [NodeVisitor.visit]: every child gets its parent and is visited in
    turn.  The method calls itself on the interpreter's stack: [depth] is
    the number of nested calls the stack still allows, and the call after
    the last one raises [RecursionError]. *)
Fixpoint visit (depth : nat) (n : node) : result node :=
  match depth with
  | O => Raise RecursionError
  | S depth' =>
      visited ←
        for_each (fun acc child =>
                    child' ← visit depth' (set_parent (Some (Some (kind n))) child);
                    Ok (acc ++ [child']))
                 (children n) [];
      Ok (Node (kind n) (in_field n) (name n) (lineno n) (end_lineno n)
               (docstring n) (args n) (parent n) visited)
  end.

Fixpoint node_size (n : node) : nat :=
  match n with
  | Node _ _ _ _ _ _ _ _ cs => S (list_sum (map node_size cs))
  end.

Definition queue_size (todo : list node) : nat := list_sum (map node_size todo).

(** [ast.walk]: [todo.popleft()], [todo.extend(iter_child_nodes(node))],
    [yield node], until the queue is empty. *)
Equations? walk_queue (todo : list node) : list node
  by wf (queue_size todo) lt :=
  walk_queue [] := [];
  walk_queue (n :: rest) := n :: walk_queue (rest ++ children n).
Proof.
  unfold queue_size. rewrite map_app, list_sum_app. simpl.
  destruct n; simpl. lia.
Qed.

Definition walk (n : node) : list node := walk_queue [n].

(** [max(...)] of a sequence: [ValueError] when it is empty. *)
Definition max_of (l : list Z) : result Z :=
  match l with
  | [] => Raise ValueError
  | x :: l' => Ok (fold_left Z.max l' x)
  end.

(** [start_line] and [end_line] of [_process_class] and
    [_process_function]. *)
Definition line_range (n : node) : result (Z * Z) :=
  let start_line := lineno n in
  end_line ←
    match end_lineno n with
    | Some _ => max_of (omap end_lineno (walk n))
    | None => Ok start_line
    end;
  Ok (start_line, end_line).

(** ['\n'.join(content.split('\n')[start_line-1:end_line])] *)
Definition source_lines (content : str) (start_line end_line : Z) : str :=
  join [newline] (slice (split [newline] content) (start_line - 1) end_line).

(** [[child.name for child in node.body if isinstance(child,
    ast.FunctionDef)]] *)
Definition methods_of (n : node) : list str :=
  map name
      (List.filter (fun c => match in_field c, kind c with
                        | Body, FunctionDef => true
                        | _, _ => false
                        end) (children n)).

(** [[base.id for base in node.bases if isinstance(base, ast.Name)]] *)
Definition bases_of (n : node) : list str :=
  map name
      (List.filter (fun c => match in_field c, kind c with
                        | Bases, Name => true
                        | _, _ => false
                        end) (children n)).

Definition or_empty (o : option str) : str :=
  match o with Some s => s | None => [] end.

(** [AstParser._process_class] *)
Definition _process_class (n : node) (file_path content : str) : result document :=
  '(start_line, end_line) ← line_range n;
  Ok {| content := source_lines content start_line end_line;
        doc_metadata :=
          <["file_path"%string := VStr file_path]>
          (<["type"%string := VStr (s2l "class")]>
          (<["name"%string := VStr (name n)]>
          (<["docstring"%string := VStr (or_empty (docstring n))]>
          (<["methods"%string := VList (methods_of n)]>
          (<["bases"%string := VList (bases_of n)]>
          (<["line_range"%string := VPair start_line end_line]> ∅)))))) |}.

(** [AstParser._process_function] *)
Definition _process_function (n : node) (file_path content : str) : result document :=
  '(start_line, end_line) ← line_range n;
  Ok {| content := source_lines content start_line end_line;
        doc_metadata :=
          <["file_path"%string := VStr file_path]>
          (<["type"%string := VStr (s2l "function")]>
          (<["name"%string := VStr (name n)]>
          (<["docstring"%string := VStr (or_empty (docstring n))]>
          (<["arguments"%string := VList (args n)]>
          (<["line_range"%string := VPair start_line end_line]> ∅))))) |}.

(** The fallback of [parse_file] on a syntax error. *)
Definition raw_text_document (file_path content : str) : document :=
  {| content := content;
     doc_metadata :=
       <["file_path"%string := VStr file_path]>
       (<["type"%string := VStr (s2l "raw_text")]> ∅) |}.

(** [hasattr(node, 'parent') and isinstance(node.parent, ast.Module)] *)
Definition at_module_level (n : node) : bool :=
  match parent n with
  | Some (Some Module_) => true
  | _ => false
  end.

(** The body of [for node in ast.walk(tree)]. *)
Definition emit (file_path content : str) (documents : list document) (n : node)
  : result (list document) :=
  match kind n with
  | ClassDef =>
      doc ← _process_class n file_path content; Ok (documents ++ [doc])
  | FunctionDef =>
      if at_module_level n
      then doc ← _process_function n file_path content; Ok (documents ++ [doc])
      else Ok documents
  | _ => Ok documents
  end.

Section ParseFile.

(** [open(file_path).read()] and [ast.parse], as the environment gives
    them, and the number of nested calls the interpreter's stack allows
    the visitor. *)
Variable read_file : str -> result str.
Variable ast_parse : str -> result node.
Variable stack_depth : nat.

(** [AstParser.parse_file] *)
Definition parse_file (file_path : str) : result (list document) :=
  content ← read_file file_path;
  match ast_parse content with
  | Raise SyntaxError => Ok [raw_text_document file_path content]
  | Raise e => Raise e
  | Ok tree =>
      tree ← visit stack_depth (set_parent (Some None) tree);
      for_each (emit file_path content) (walk tree) []
  end.

End ParseFile.

End AstParser.

(** ** Floating-point numbers

    A float is an IEEE 754 binary floating-point value, as the standard
    library specifies them ([SpecFloat]); the operations round to
    nearest, ties to even.  A Python [float] is a binary64 value.  The
    components of the arrays and the distances of faiss are binary32
    values; every binary32 value is a binary64 value, and [float(x)]
    keeps the value, so they are written as Python reads them. *)

Abbreviation float := SpecFloat.spec_float.

Module Float.

Definition prec : Z := 53.
Definition emax : Z := 1024.

(** The float nearest to [m * 2 ** e], and to an integer. *)
Definition of_scaled (m e : Z) : float :=
  SpecFloat.binary_normalize prec emax m e false.

Definition of_Z (z : Z) : float := of_scaled z 0.

Definition zero : float := SpecFloat.S754_zero false.

(** [x + y] and [x / y] of the hardware; Python adds a test to the
    division, see [Retriever.score]. *)
Definition add : float -> float -> float := SpecFloat.SFadd prec emax.

(** [x == y], [x < y], [x <= y]: all false when one side is a NaN. *)
Definition eqb : float -> float -> bool := SpecFloat.SFeqb.
Definition ltb : float -> float -> bool := SpecFloat.SFltb.
Definition leb : float -> float -> bool := SpecFloat.SFleb.

Definition is_nan (x : float) : bool :=
  match x with
  | SpecFloat.S754_nan => true
  | _ => false
  end.

End Float.

(** ** The faiss library: [IndexFlatL2]

    The exact, brute-force L2 index of faiss, as far as the vector store
    uses it. *)

Abbreviation vector := (list float).

(** A two-dimensional [numpy.ndarray]: [shape[1]] and the rows. *)
Record ndarray : Type := NdArray {
  shape1 : Z;
  rows : list vector
}.

Module IndexFlatL2.

Record t : Type := Make {
  d : Z;
  xb : list vector
}.

(** [faiss.IndexFlatL2(d)] *)
Definition create (dim : Z) : t := {| d := dim; xb := [] |}.

(** [index.ntotal] *)
Definition ntotal (ix : t) : Z := len (xb ix).

(** [index.add(x)]: [n, d = x.shape; assert d == self.d]. *)
Definition add (ix : t) (x : ndarray) : result t :=
  if shape1 x =? d ix
  then Ok {| d := d ix; xb := xb ix ++ rows x |}
  else Raise AssertionError.

(** Insertion into a list of (distance, label) pairs sorted by ascending
    distance; of two equal distances the one inserted stays in front. *)
Fixpoint insert_hit (h : float * Z) (l : list (float * Z)) : list (float * Z) :=
  match l with
  | [] => [h]
  | x :: l' =>
      if Float.leb (fst h) (fst x) then h :: l else x :: insert_hit h l'
  end.

Definition sort_hits (l : list (float * Z)) : list (float * Z) :=
  fold_right insert_hit [] l.

(** The greatest finite binary32 value, [FLT_MAX]: the distance faiss
    reports for a missing neighbour, with the label [-1]. *)
Definition FLT_MAX : float :=
  Float.of_Z 340282346638528859811704183484516925440.

(** The result heap of a query starts filled with [FLT_MAX], and a
    vector enters it only with a distance strictly below the greatest
    distance of the heap: a distance that is not below [FLT_MAX] (an
    overflow to infinity, a NaN) is never reported. *)
Definition reported (p : float * Z) : bool := Float.ltb (fst p) FLT_MAX.

Section Search.

(** The distance kernel of the faiss build, [fvec_L2sqr]: the squared
    Euclidean distance of two vectors computed in binary32, in an order
    of operations that depends on the build. *)
Variable fvec_L2sqr : vector -> vector -> float.

(** The (distance, label) pair of every stored vector. *)
Definition scored (ix : t) (q : vector) : list (float * Z) :=
  imap (fun i v => (fvec_L2sqr q v, Z.of_nat i)) (xb ix).

(** [index.search(x, k)] for a single query row: [assert d == self.d],
    [assert k > 0]; the [k] nearest stored vectors among those whose
    distance is reported, by ascending distance, padded with label [-1]
    when they are fewer than [k].  Returns [(distances[0], indices[0])]. *)
Definition search (ix : t) (q : vector) (k : Z) : result (list float * list Z) :=
  if negb (len q =? d ix) then Raise AssertionError
  else if k <=? 0 then Raise AssertionError
  else
    let found := sort_hits (List.filter reported (scored ix q)) in
    let padded := firstn (Z.to_nat k) (found ++ repeat (FLT_MAX, -1) (Z.to_nat k)) in
    Ok (map fst padded, map snd padded).

End Search.

End IndexFlatL2.

(** ** vector_db/faiss_store.py *)

Module FaissVectorStore.

(** What a write to a file does: it completes; or the file cannot be
    opened, and stays what it was; or the file is opened, hence emptied,
    and the write fails before its end. *)
Inductive write_outcome : Type :=
| Written
| NotOpened (e : exn)
| Interrupted (e : exn).

(** What writing to the disk does at the moment: [os.makedirs(...,
    exist_ok=True)], [faiss.write_index], and [open(metadata_path, 'w')]
    with the [json.dump] into it. *)
Record writes : Type := Writes {
  make_dir : result unit;
  index_write : write_outcome;
  metadata_write : write_outcome
}.

Definition all_written : writes :=
  {| make_dir := Ok tt; index_write := Written; metadata_write := Written |}.

(** The two persisted artifacts, as reading them turns out:
    [faiss.read_index(index_path)] and [json.load(open(metadata_path))];
    and what writing does. *)
Record disk : Type := Disk {
  index_file : result IndexFlatL2.t;
  metadata_file : result (list dict);
  writing : writes
}.

Record t : Type := Make {
  index : option IndexFlatL2.t;
  metadata : list dict;
  dimension : Z
}.

(** A search result: [{"metadata": ..., "distance": ...}]. *)
Record hit : Type := Hit {
  hit_metadata : dict;
  distance : float
}.

(** [FaissVectorStore.save] with the default paths: the directory is
    made, the index file is written, then the metadata file.  A file
    whose write was interrupted no longer reads. *)
Definition save (self : t) (dk : disk) : result unit * disk :=
  match index self with
  | None => (Raise ValueError, dk)
  | Some ix =>
      match make_dir (writing dk) with
      | Raise e => (Raise e, dk)
      | Ok _ =>
          match index_write (writing dk) with
          | NotOpened e => (Raise e, dk)
          | Interrupted e =>
              (Raise e, {| index_file := Raise RuntimeError;
                           metadata_file := metadata_file dk;
                           writing := writing dk |})
          | Written =>
              match metadata_write (writing dk) with
              | NotOpened e =>
                  (Raise e, {| index_file := Ok ix;
                               metadata_file := metadata_file dk;
                               writing := writing dk |})
              | Interrupted e =>
                  (Raise e, {| index_file := Ok ix;
                               metadata_file := Raise JSONDecodeError;
                               writing := writing dk |})
              | Written =>
                  (Ok tt, {| index_file := Ok ix;
                             metadata_file := Ok (metadata self);
                             writing := writing dk |})
              end
          end
      end
  end.

(** [FaissVectorStore._create_empty_index]: a failing [save] is only
    logged. *)
Definition _create_empty_index (self : t) (dk : disk) : t * disk :=
  let self' := {| index := Some (IndexFlatL2.create (dimension self));
                  metadata := metadata self;
                  dimension := dimension self |} in
  (self', snd (save self' dk)).

(** [FaissVectorStore.add_documents] *)
Definition add_documents (self : t) (dk : disk)
    (documents : list document) (embeddings : ndarray)
  : result unit * t * disk :=
  let '(self1, dk1) :=
    match index self with
    | None =>
        _create_empty_index
          {| index := index self; metadata := metadata self;
             dimension := shape1 embeddings |} dk
    | Some _ => (self, dk)
    end in
  let self2 := {| index := index self1;
                  metadata := metadata self1 ++ map doc_metadata documents;
                  dimension := dimension self1 |} in
  match index self2 with
  | None => (Raise TypeError, self2, dk1)   (* not reached: the index was created above *)
  | Some ix =>
      match IndexFlatL2.add ix embeddings with
      | Raise e => (Raise e, self2, dk1)
      | Ok ix' =>
          let self3 := {| index := Some ix'; metadata := metadata self2;
                          dimension := dimension self2 |} in
          (Ok tt, self3, snd (save self3 dk1))
      end
  end.

(** The loop of [search] over [enumerate(indices[0])]: a label outside
    [0 <= idx < len(self.metadata)] is skipped. *)
Fixpoint collect (md : list dict) (indices : list Z) (distances : list float)
  : list hit :=
  match indices, distances with
  | idx :: indices', dist :: distances' =>
      if (idx <? 0) || (len md <=? idx) then collect md indices' distances'
      else
        match md !! Z.to_nat idx with
        | Some m => {| hit_metadata := m; distance := dist |}
                      :: collect md indices' distances'
        | None => collect md indices' distances'
        end
  | _, _ => []
  end.

(** [FaissVectorStore.search] for a one-dimensional query;
    [fvec_L2sqr] is the distance kernel of faiss. *)
Definition search (fvec_L2sqr : vector -> vector -> float)
    (self : t) (query_embedding : vector) (top_k : option Z)
  : result (list hit) :=
  let top_k := match top_k with Some k => k | None => Config.TOP_K end in
  match index self with
  | None => Ok []
  | Some ix =>
      if IndexFlatL2.ntotal ix =? 0 then Ok []
      else
        '(distances, indices) ←
          IndexFlatL2.search fvec_L2sqr ix query_embedding top_k;
        Ok (collect (metadata self) indices distances)
  end.

(** [except (FileNotFoundError, IOError)] *)
Definition is_io_error (e : exn) : bool :=
  match e with OSError => true | _ => false end.

(** [FaissVectorStore.load] with the default paths: the index is read and
    assigned first, the metadata second. *)
Definition load (self : t) (dk : disk) : result bool * t :=
  match index_file dk with
  | Raise e => (if is_io_error e then Ok false else Raise e, self)
  | Ok ix =>
      let self1 := {| index := Some ix; metadata := metadata self;
                      dimension := dimension self |} in
      match metadata_file dk with
      | Raise e => (if is_io_error e then Ok false else Raise e, self1)
      | Ok md =>
          (Ok true, {| index := Some ix; metadata := md;
                       dimension := dimension self |})
      end
  end.

End FaissVectorStore.

(** ** engine/retriever.py *)

Module Retriever.

(** An enriched result. *)
Record enriched : Type := Enriched {
  e_content : pyval;
  e_metadata : dict;
  e_distance : float;
  relevance_score : float
}.

(** [metadata.get(key, default)] for a string default. *)
Definition get_or (md : dict) (key default : string) : pyval :=
  match md !! key with
  | Some v => v
  | None => VStr (s2l default)
  end.

(** [', '.join(x)]: a list of strings is joined, a string is joined
    character by character, a dictionary gives its keys, which are
    strings; an integer is not iterable and the items of a pair of
    integers are not strings: [TypeError]. *)
Definition join_value (sep : str) (v : pyval) : result str :=
  match v with
  | VList l => Ok (join sep l)
  | VStr s => Ok (join sep (map (fun c => [c]) s))
  | VDict d => Ok (join sep (map (fun entry => s2l (fst entry)) d))
  | VInt _ | VPair _ _ => Raise TypeError
  end.

Section Content.

(** [open(file_path, 'r').readlines()] for a path taken from the
    metadata, and the text an f-string gives a value. *)
Variable readlines : pyval -> result (list str).
Variable format : pyval -> str.

(** The [try] block of [_get_content_from_metadata]: every exception is
    caught, logged, and the fallbacks follow. *)
Definition content_from_lines (md : dict) (file_path : pyval) : option str :=
  match md !! "line_range"%string with
  | Some (VPair start_ end_) =>
      match readlines file_path with
      | Ok lines => Some (concat (slice lines (start_ - 1) end_))
      | Raise _ => None
      end
  | _ => None
  end.

Definition unavailable : str :=
  s2l "    # Content not available - check file ".

(** [Retriever._get_content_from_metadata] *)
Definition _get_content_from_metadata (md : dict) : result pyval :=
  match md !! "content"%string with
  | Some c => Ok c
  | None =>
      let file_path := get_or md "file_path" "unknown" in
      let content_type := get_or md "type" "unknown" in
      match content_from_lines md file_path with
      | Some text => Ok (VStr text)
      | None =>
          match content_type with
          | VStr ty =>
              if bool_decide (ty = s2l "class") then
                let name := get_or md "name" "UnknownClass" in
                Ok (VStr (s2l "class " ++ format name ++ s2l ":" ++ [newline]
                          ++ unavailable ++ format file_path ++ [newline]
                          ++ s2l "    pass"))
              else if bool_decide (ty = s2l "function") then
                let name := get_or md "name" "unknown_function" in
                args ← join_value (s2l ", ")
                        (match md !! "arguments"%string with
                         | Some v => v
                         | None => VList []
                         end);
                Ok (VStr (s2l "def " ++ format name ++ s2l "(" ++ args
                          ++ s2l "):" ++ [newline]
                          ++ unavailable ++ format file_path ++ [newline]
                          ++ s2l "    pass"))
              else
                Ok (VStr (s2l "# Content from " ++ format file_path
                          ++ s2l " (unavailable in search results)"))
          | _ =>
              Ok (VStr (s2l "# Content from " ++ format file_path
                        ++ s2l " (unavailable in search results)"))
          end
      end
  end.




(** What [list.sort] makes of a list in which a key is a NaN: the keys
    then do not compare, and the order depends on the comparisons the
    merge sort of the interpreter happens to make. *)
Variable sort_with_nan : list enriched -> list enriched.



(** [embedding_generator.generate_embeddings([query])], the row of the
    query, and the distance kernel of faiss. *)
Variable generate_embeddings : str -> vector.
Variable fvec_L2sqr : vector -> vector -> float.


End Content.

End Retriever.

(** * Vocabulary of the properties *)

(** The consecutive windows of width [n] of a list. *)
Definition windows {A} (n count : nat) (s : list A) : list (list A) :=
  map (fun j => firstn n (skipn (j * n) s)) (seq 0 count).

(** A decorator line and a definition line of Python source. *)
Definition is_decorator (line : str) : bool :=
  startswith (lstrip line) (s2l "@").

Definition is_definition (line : str) : bool :=
  startswith (lstrip line) (s2l "def ")
  || startswith (lstrip line) (s2l "class ").

(** In a chunk, a decorator line is the first line, and the line after it
    is a definition line of the same chunk. *)
Definition decorators_lead (chunk : str) : bool :=
  match split [newline] chunk with
  | [] => true
  | first :: rest =>
      (negb (is_decorator first)
       || match rest with next :: _ => is_definition next | [] => false end)
      && forallb (fun line => negb (is_decorator line)) rest
  end.

(** The nodes strictly below a node, each with the class of its parent,
    and all the nodes of a tree. *)
Fixpoint descendants (n : AstParser.node)
  : list (option AstParser.node_kind * AstParser.node) :=
  match n with
  | AstParser.Node k _ _ _ _ _ _ _ cs =>
      flat_map (fun c => (Some k, c) :: descendants c) cs
  end.

Definition nodes_of (tree : AstParser.node)
  : list (option AstParser.node_kind * AstParser.node) :=
  (None, tree) :: descendants tree.

(** A class definition anywhere, or a function definition whose parent is
    the module. *)
Definition is_unit (pn : option AstParser.node_kind * AstParser.node) : bool :=
  match AstParser.kind (snd pn), fst pn with
  | AstParser.ClassDef, _ => true
  | AstParser.FunctionDef, Some AstParser.Module_ => true
  | _, _ => false
  end.

(** The document describes the definition node: its type, name and first
    line. *)
Definition unit_of_node (n : AstParser.node) (doc : document) : Prop :=
  doc_metadata doc !! "type"%string =
    Some (VStr (s2l (match AstParser.kind n with
                     | AstParser.ClassDef => "class"
                     | _ => "function"
                     end))) /\
  doc_metadata doc !! "name"%string = Some (VStr (AstParser.name n)) /\
  exists end_line,
    doc_metadata doc !! "line_range"%string =
      Some (VPair (AstParser.lineno n) end_line).

(** A raw-text unit that covers the whole file and says so: lines 1 to
    the last line. *)
Definition spans_whole_file (text : str) (unit : document) : Prop :=
  content unit = text /\
  doc_metadata unit !! "type"%string = Some (VStr (s2l "raw_text")) /\
  doc_metadata unit !! "line_range"%string =
    Some (VPair 1 (len (split [newline] text))).

(** All the nodes of a tree, the root first. *)
Fixpoint subtree (n : AstParser.node) : list AstParser.node :=
  match n with
  | AstParser.Node _ _ _ _ _ _ _ _ cs => n :: flat_map subtree cs
  end.

(** The tree a visit that returns leaves: every child carries the class
    of its parent. *)
Fixpoint with_parents (n : AstParser.node) : AstParser.node :=
  match n with
  | AstParser.Node k f nm l e doc a p cs =>
      AstParser.Node k f nm l e doc a p
        (map (fun c => AstParser.set_parent (Some (Some k)) (with_parents c)) cs)
  end.

(** The height of a tree, counted in nodes: the number of nested calls
    its visit needs. *)
Fixpoint height (n : AstParser.node) : nat :=
  match n with
  | AstParser.Node _ _ _ _ _ _ _ _ cs => S (list_max (map height cs))
  end.

(** A node of the tree as the parser sees it once [NodeVisitor] has run:
    the parent attribute holds the class of the parent. *)
Definition annotated (pn : option AstParser.node_kind * AstParser.node)
  : AstParser.node :=
  AstParser.set_parent (Some (fst pn)) (with_parents (snd pn)).

(** The nodes for which the loop of [parse_file] appends a document. *)
Definition emits (n : AstParser.node) : bool :=
  match AstParser.kind n with
  | AstParser.ClassDef => true
  | AstParser.FunctionDef => AstParser.at_module_level n
  | _ => false
  end.

(** ** Sample inputs and relations used in the statements *)

Definition property_class : str :=
  s2l "class A:
    @property
    def f(self):
        return 1".

Definition class_metadata : dict :=
  <["type"%string := VStr (s2l "class")]> (<["name"%string := VStr (s2l "A")]> ∅).

Definition broken_source : str := s2l "def (".

(** A module with a class [A] that has a method [m], and a top-level
    function [f] that contains a nested function [g]. *)
Definition sample_text : str :=
  s2l "class A:
    def m(self):
        pass
def f(a, b):
    def g():
        pass
    return a + b".

Definition def_node (k : AstParser.node_kind) (nm : string) (first last : Z)
    (a : list str) (cs : list AstParser.node) : AstParser.node :=
  AstParser.Node k AstParser.Body (s2l nm) first (Some last) None a None cs.

Definition sample_tree : AstParser.node :=
  AstParser.Node AstParser.Module_ AstParser.OtherField [] 0 None None [] None
    [def_node AstParser.ClassDef "A" 1 3 []
       [def_node AstParser.FunctionDef "m" 2 3 [s2l "self"] []];
     def_node AstParser.FunctionDef "f" 4 7 [s2l "a"; s2l "b"]
       [def_node AstParser.FunctionDef "g" 5 6 [] []]].

(** A module with an [async def] and with a [def] under an [if]. *)
Definition guarded_text : str :=
  s2l "async def fetch():
    pass
if True:
    def fallback():
        pass".

Definition guarded_tree : AstParser.node :=
  AstParser.Node AstParser.Module_ AstParser.OtherField [] 0 None None [] None
    [def_node AstParser.AsyncFunctionDef "fetch" 1 2 [] [];
     AstParser.Node AstParser.OtherNode AstParser.Body [] 3 (Some 5) None [] None
       [def_node AstParser.FunctionDef "fallback" 4 5 [] []]].

(** The floats of a list of integers. *)
Definition floats (l : list Z) : vector := map Float.of_Z l.

Definition two_dim_store : FaissVectorStore.t :=
  {| FaissVectorStore.index := Some (IndexFlatL2.create 2);
     FaissVectorStore.metadata := [];
     FaissVectorStore.dimension := 2 |}.

Definition empty_disk : FaissVectorStore.disk :=
  {| FaissVectorStore.index_file := Ok (IndexFlatL2.create 2);
     FaissVectorStore.metadata_file := Ok [];
     FaissVectorStore.writing := FaissVectorStore.all_written |}.

Definition one_chunk : document :=
  {| content := s2l "def f(): pass"; doc_metadata := class_metadata |}.

Definition one_vector_index : IndexFlatL2.t :=
  {| IndexFlatL2.d := 2; IndexFlatL2.xb := [floats [0; 0]] |}.

(** A failed read gives [False] or re-raises, never [True]. *)
Ltac not_loaded :=
  match goal with
  | |- context [FaissVectorStore.is_io_error ?e] =>
      destruct (FaissVectorStore.is_io_error e); intros H; discriminate H
  end.

(** The order of the floats that compare: a key for each float but NaN,
    and the lexicographic order of the keys. *)
Definition float_key (x : float) : option (Z * Z * Z) :=
  match x with
  | SpecFloat.S754_nan => None
  | SpecFloat.S754_infinity true => Some (-2, 0, 0)
  | SpecFloat.S754_infinity false => Some (2, 0, 0)
  | SpecFloat.S754_zero _ => Some (0, 0, 0)
  | SpecFloat.S754_finite false m e => Some (1, e, Zpos m)
  | SpecFloat.S754_finite true m e => Some (-1, - e, Zneg m)
  end.

Definition key_le (x y : Z * Z * Z) : Prop :=
  let '(a, b, c) := x in
  let '(a', b', c') := y in
  a < a' \/ (a = a' /\ (b < b' \/ (b = b' /\ c <= c'))).

Ltac key_yes :=
  intros _; eexists _, _; split; [reflexivity|]; split; [reflexivity|];
  simpl; lia.

Ltac key_no :=
  let x := fresh in let y := fresh in
  let H1 := fresh in let H2 := fresh in let H := fresh in
  intros (x & y & H1 & H2 & H); simpl in H1, H2;
  first [ discriminate H1 | discriminate H2
        | injection H1 as <-; injection H2 as <-; simpl in H; lia ].

Definition by_distance (a b : float * Z) : Prop :=
  Float.leb (fst a) (fst b) = true.

(** The first hit is at least as near as the second. *)
Definition nearer (a b : FaissVectorStore.hit) : Prop :=
  Float.leb (FaissVectorStore.distance a) (FaissVectorStore.distance b) = true.

(** The loop of [search] on paired lists. *)
Definition collect_pairs (md : list dict) (l : list (float * Z))
  : list FaissVectorStore.hit :=
  FaissVectorStore.collect md (map snd l) (map fst l).

Definition hit_of (md : list dict) (p : float * Z) (h : FaissVectorStore.hit) : Prop :=
  FaissVectorStore.distance h = fst p /\
  md !! Z.to_nat (snd p) = Some (FaissVectorStore.hit_metadata h).

(** The reference kernel of faiss, [fvec_L2sqr_ref]: [res += (x[i] -
    y[i]) ** 2] from left to right, every operation rounded to binary32;
    [as_binary64] writes the binary32 result as Python reads it. *)
Fixpoint fvec_L2sqr_from (res : float) (x y : vector) : float :=
  match x, y with
  | a :: x', b :: y' =>
      let tmp := SpecFloat.SFsub 24 128 a b in
      fvec_L2sqr_from
        (SpecFloat.SFadd 24 128 res (SpecFloat.SFmul 24 128 tmp tmp)) x' y'
  | _, _ => res
  end.

Definition as_binary64 (x : float) : float :=
  match x with
  | SpecFloat.S754_finite s m e =>
      SpecFloat.binary_normalize 53 1024 (SpecFloat.cond_Zopp s (Zpos m)) e false
  | _ => x
  end.

Definition fvec_L2sqr_ref (x y : vector) : float :=
  as_binary64 (fvec_L2sqr_from Float.zero x y).

(** A float that is a number of finite size, and a float that is not
    below zero (or is a NaN). *)
Definition is_finite (x : float) : bool :=
  match x with
  | SpecFloat.S754_zero _ | SpecFloat.S754_finite _ _ _ => true
  | _ => false
  end.

Definition not_negative (x : float) : Prop :=
  match x with
  | SpecFloat.S754_infinity true | SpecFloat.S754_finite true _ _ => False
  | _ => True
  end.

Definition three_vector_store : FaissVectorStore.t :=
  {| FaissVectorStore.index :=
       Some {| IndexFlatL2.d := 2;
               IndexFlatL2.xb := [floats [3; 4]; floats [0; 0]; floats [1; 0]] |};
     FaissVectorStore.metadata :=
       [<["name"%string := VStr (s2l "far")]> ∅;
        <["name"%string := VStr (s2l "here")]> ∅;
        <["name"%string := VStr (s2l "near")]> ∅];
     FaissVectorStore.dimension := 2 |}.

(** A store as [load] can install it: one vector and no metadata record;
    and a store with a vector so far from the origin that its squared
    distance overflows binary32. *)
Definition store_without_metadata : FaissVectorStore.t :=
  {| FaissVectorStore.index := Some one_vector_index;
     FaissVectorStore.metadata := [];
     FaissVectorStore.dimension := 2 |}.

Definition store_with_far_vector : FaissVectorStore.t :=
  {| FaissVectorStore.index :=
       Some {| IndexFlatL2.d := 1;
               IndexFlatL2.xb := [[Float.of_Z 3]; [Float.of_scaled 1 100]] |};
     FaissVectorStore.metadata :=
       [<["name"%string := VStr (s2l "near")]> ∅;
        <["name"%string := VStr (s2l "far")]> ∅];
     FaissVectorStore.dimension := 1 |}.





(** * Further code *)

(** ** processors/ast_parser.py: [AstParser.parse_directory] *)

Module DirectoryScan.

(** [s.endswith(suffix)] *)
Definition endswith (s suffix : str) : bool := startswith (rev s) (rev suffix).

(** [os.path.sep] and [os.path.join(a, b)] on a POSIX system. *)
Definition sep : str := s2l "/".

Definition path_join (a b : str) : str :=
  if startswith b sep then b
  else if bool_decide (a = []) || endswith a sep then a ++ b
  else a ++ sep ++ b.

(** ["env" in root.split(os.path.sep) or "venv" in root.split(os.path.sep)] *)
Definition is_virtualenv (root : str) : bool :=
  existsb (fun segment => bool_decide (segment = s2l "env")) (split sep root)
  || existsb (fun segment => bool_decide (segment = s2l "venv")) (split sep root).

(** [documents], [self.files_parsed] and [skipped_dirs]. *)
Record scan : Type := Scan {
  documents : list document;
  files_parsed : Z;
  skipped_dirs : Z
}.

Section ParseDirectory.

Variable read_file : str -> result str.
Variable ast_parse : str -> result AstParser.node.
Variable stack_depth : nat.

(** The body of [for file in files]: any exception of [parse_file] is
    caught and logged. *)
Definition scan_file (root : str) (st : scan) (file : str) : scan :=
  if endswith file (s2l ".py") then
    match AstParser.parse_file read_file ast_parse stack_depth (path_join root file) with
    | Ok file_documents =>
        {| documents := documents st ++ file_documents;
           files_parsed := files_parsed st + 1;
           skipped_dirs := skipped_dirs st |}
    | Raise _ => st
    end
  else st.

(** The body of [for root, _, files in os.walk(directory_path)]. *)
Definition scan_directory (st : scan) (entry : str * list str) : scan :=
  let '(root, files) := entry in
  if is_virtualenv root then
    {| documents := documents st;
       files_parsed := files_parsed st;
       skipped_dirs := skipped_dirs st + 1 |}
  else fold_left (scan_file root) files st.

(** [AstParser.parse_directory], on the [(root, files)] pairs that
    [os.walk(directory_path)] yields; [files_parsed] is the counter of the
    parser before the call. *)
Definition parse_directory (files_parsed_before : Z)
    (walked : list (str * list str)) : scan :=
  fold_left scan_directory walked
    {| documents := []; files_parsed := files_parsed_before; skipped_dirs := 0 |}.

End ParseDirectory.

End DirectoryScan.

(** ** vector_db/faiss_store.py: [FaissVectorStore.__init__] *)

Module StoreConstruction.

(** [FaissVectorStore.__init__]: [makedirs] is the outcome of
    [os.makedirs(..., exist_ok=True)], [index_exists] and
    [metadata_exists] those of [os.path.exists] on the two paths.  The
    value of [self.load()] is not looked at. *)
Definition __init__ (dimension : Z) (makedirs : result unit)
    (index_exists metadata_exists : bool) (dk : FaissVectorStore.disk)
  : result FaissVectorStore.t * FaissVectorStore.disk :=
  let self := {| FaissVectorStore.index := None;
                 FaissVectorStore.metadata := [];
                 FaissVectorStore.dimension := dimension |} in
  match makedirs with
  | Raise e => (Raise e, dk)
  | Ok _ =>
      if index_exists && metadata_exists then
        match FaissVectorStore.load self dk with
        | (Ok _, loaded) => (Ok loaded, dk)
        | (Raise e, partly) =>
            if FaissVectorStore.is_io_error e then
              let '(fresh, dk') := FaissVectorStore._create_empty_index partly dk in
              (Ok fresh, dk')
            else (Raise e, dk)
        end
      else
        let '(fresh, dk') := FaissVectorStore._create_empty_index self dk in
        (Ok fresh, dk')
  end.

End StoreConstruction.

(** ** vector_db/embeddings.py *)

Module EmbeddingGenerator.

Definition batch_size : Z := 8.

Section Generate.

(** The tokenizer and the model on one batch (the body of the [try] of
    [_get_embeddings_batch]), and [numpy.array(rows, dtype=float32)]. *)
Variable model : list str -> result (list vector).
Variable np_array : list vector -> result ndarray.

(** [EmbeddingGenerator._get_embeddings_batch]: any exception gives one
    zero vector of the configured dimension per text. *)
Definition _get_embeddings_batch (texts : list str) : list vector :=
  match model texts with
  | Ok rows => rows
  | Raise _ =>
      repeat (repeat Float.zero (Z.to_nat Config.VECTOR_DIMENSION)) (length texts)
  end.

(** The list [embeddings] at the end of the loop of
    [generate_embeddings]. *)
Definition embedding_rows (texts : list str) : result (list vector) :=
  starts ← range0 (len texts) batch_size;
  Ok (flat_map (fun i => _get_embeddings_batch (slice texts i (i + batch_size)))
               starts).

(** [EmbeddingGenerator.generate_embeddings] *)
Definition generate_embeddings (texts : list str) : result ndarray :=
  rows ← embedding_rows texts;
  np_array rows.

End Generate.

End EmbeddingGenerator.

(** ** processors/metadata_extractor.py *)

Module MetadataExtractor.

(** The node classes the extractor looks at, with what it reads from
    them: the names of an import, the module of a from-import ([None]
    when absent), and [node.func.id] of a call whose callee has an [id]. *)
Inductive syntax_kind : Type :=
| Import (names : list str)
| ImportFrom (module : option str) (names : list str)
| Call (func_id : option str)
| If | For | While | Try
| OtherSyntax.

#[warnings="-register-all"]
Inductive syntax : Type := Syntax {
  kind : syntax_kind;
  children : list syntax
}.

Fixpoint syntax_size (n : syntax) : nat :=
  match n with
  | Syntax _ cs => S (list_sum (map syntax_size cs))
  end.

(** [ast.walk] *)
Equations? walk_queue (todo : list syntax) : list syntax
  by wf (list_sum (map syntax_size todo)) lt :=
  walk_queue [] := [];
  walk_queue (n :: rest) := n :: walk_queue (rest ++ children n).
Proof.
  rewrite map_app, list_sum_app. simpl. destruct n; simpl. lia.
Qed.

Definition walk (n : syntax) : list syntax := walk_queue [n].

(** [node.module or ""] *)
Definition module_or_empty (module : option str) : str :=
  match module with Some m => m | None => [] end.

(** The names one node adds to [imports]. *)
Definition imports_of (n : syntax) : list str :=
  match kind n with
  | Import names => names
  | ImportFrom module names =>
      map (fun name => module_or_empty module ++ s2l "." ++ name) names
  | _ => []
  end.

(** The names one node adds to [function_calls]. *)
Definition calls_of (n : syntax) : list str :=
  match kind n with
  | Call (Some id) => [id]
  | _ => []
  end.

(** [isinstance(node, (ast.If, ast.For, ast.While, ast.Try))] *)
Definition is_branch (n : syntax) : bool :=
  match kind n with
  | If | For | While | Try => true
  | _ => false
  end.

(** The dictionary built after a successful parse. *)
Definition code_metadata (tree : syntax) : dict :=
  let imports := flat_map imports_of (walk tree) in
  let function_calls := flat_map calls_of (walk tree) in
  let branches := len (List.filter is_branch (walk tree)) in
  let with_imports : dict :=
    match imports with
    | [] => ∅
    | _ :: _ => <["imports"%string := VList imports]> ∅
    end in
  let with_calls : dict :=
    match function_calls with
    | [] => with_imports
    | _ :: _ => <["function_calls"%string := VList function_calls]> with_imports
    end in
  <["complexity"%string := VDict [("branches"%string, branches)]]> with_calls.

Section Enrich.

(** [ast.parse] on the text of a unit. *)
Variable ast_parse : str -> result syntax.

(** [MetadataExtractor._extract_code_metadata]: a [SyntaxError] gives
    the empty dictionary. *)
Definition _extract_code_metadata (content : str) (md : dict) : result dict :=
  match ast_parse content with
  | Ok tree => Ok (code_metadata tree)
  | Raise SyntaxError => Ok ∅
  | Raise e => Raise e
  end.

(** The body of [for doc in documents]; [dict.update] lets the new
    entries win. *)
Definition enrich_document (doc : document) : result document :=
  let md := doc_metadata doc in
  match md !! "type"%string with
  | None => Raise KeyError
  | Some _ =>
      if Chunker.type_is md "class" || Chunker.type_is md "function" then
        enriched ← _extract_code_metadata (content doc) md;
        Ok {| content := content doc; doc_metadata := enriched ∪ md |}
      else Ok doc
  end.

(** [MetadataExtractor.enrich_metadata] *)
Definition enrich_metadata (documents : list document) : result (list document) :=
  for_each (fun acc doc => doc' ← enrich_document doc; Ok (acc ++ [doc']))
           documents [].

End Enrich.

End MetadataExtractor.

(** ** cli.py: [CodePilot.index_codebase] *)

Module CodePilot.

Section IndexCodebase.

(** The environment of the parser ([open(...).read()] and [ast.parse] as
    [parse_file] reads its result), [ast.parse] as the metadata extractor
    reads its result, and the embedding model with [numpy.array]. *)
Variable read_file : str -> result str.
Variable file_parse : str -> result AstParser.node.
Variable stack_depth : nat.
Variable unit_parse : str -> result MetadataExtractor.syntax.
Variable model : list str -> result (list vector).
Variable np_array : list vector -> result ndarray.

(** The components the method uses: the chunker, and the counter of the
    parser. *)
Variable chunker : Chunker.t.
Variable files_parsed : Z.

(** The first three stages: parse, enrich, chunk. *)
Definition chunked_documents (walked : list (str * list str))
  : result (list document) :=
  let documents :=
    DirectoryScan.documents
      (DirectoryScan.parse_directory read_file file_parse stack_depth
         files_parsed walked) in
  documents ← MetadataExtractor.enrich_metadata unit_parse documents;
  Chunker.chunk_documents chunker documents.


End IndexCodebase.

End CodePilot.

(** ** llm/ollama_client.py: [OllamaClient.check_ollama_availability] *)

Module OllamaClient.

(** [needle in hay] on strings. *)
Fixpoint contains (needle hay : str) : bool :=
  startswith hay needle ||
  match hay with
  | [] => false
  | _ :: hay' => contains needle hay'
  end.

(** The strings of [model_names], when all of them are strings: what
    [', '.join(model_names)] needs in order not to raise. *)
Fixpoint all_strings (model_names : list (option str)) : option (list str) :=
  match model_names with
  | [] => Some []
  | Some name :: rest => option_map (cons name) (all_strings rest)
  | None :: _ => None
  end.

(** [self.model_name.split(':')[0] if ':' in self.model_name else
    self.model_name] *)
Definition model_base_name (model_name : str) : str :=
  if contains (s2l ":") model_name
  then hd [] (split (s2l ":") model_name)
  else model_name.

(** [OllamaClient.check_ollama_availability]: the value of
    [self.model_name] afterwards.  [tags] is the outcome of the request
    and of reading the names from its answer, [None] standing for a name
    that is not a string; every exception is caught and logged. *)
Definition check_ollama_availability (model_name : str)
    (tags : result (list (option str))) : str :=
  match tags with
  | Raise _ => model_name
  | Ok model_names =>
      if existsb (fun name => bool_decide (name = Some model_name)) model_names
      then model_name
      else
        match all_strings model_names with
        | None => model_name
        | Some names =>
            match find (contains (model_base_name model_name)) names with
            | Some ((_ :: _) as available_model) => available_model
            | _ => model_name
            end
        end
  end.

End OllamaClient.

(** * Vocabulary of the further properties *)

(** A document that [parse_file] makes for the file at [file_path]. *)
Definition unit_from (file_path : str) (doc : document) : Prop :=
  doc_metadata doc !! "file_path"%string = Some (VStr file_path) /\
  exists ty : string,
    doc_metadata doc !! "type"%string = Some (VStr (s2l ty)) /\
    In ty ["class"; "function"; "raw_text"]%string.

(** The paths [parse_directory] hands to [parse_file]: the [.py] files of
    the directories that are not skipped, in the order of the walk. *)
Definition eligible_paths (walked : list (str * list str)) : list str :=
  flat_map (fun entry : str * list str =>
              if DirectoryScan.is_virtualenv (fst entry) then []
              else map (DirectoryScan.path_join (fst entry))
                       (List.filter (fun file =>
                          DirectoryScan.endswith file (s2l ".py")) (snd entry)))
           walked.

(** The size the loops of the chunker count for a list of pieces when
    each piece counts one separator character. *)
Definition weight (pieces : list str) : Z :=
  fold_right (fun p acc => len p + 1 + acc) 0 pieces.

(** What the loops of [_chunk_text] keep true: the closed chunks are
    bounded, the counted size covers the pieces of the open chunk and is
    at most [chunk_size], and it is zero when no piece is open. *)
Definition text_invariant (self : Chunker.t) (st : Chunker.text_state) : Prop :=
  Forall (fun c => len c <= Z.max (Chunker.chunk_size self)
                                 (2 * Chunker.chunk_size self - 2))
         (Chunker.t_chunks st) /\
  weight (Chunker.t_current st) <= Chunker.t_size st /\
  Chunker.t_size st <= Chunker.chunk_size self /\
  (Chunker.t_current st = [] -> Chunker.t_size st = 0).

(** Something has been emitted or is open. *)
Definition text_started (st : Chunker.text_state) : Prop :=
  Chunker.t_chunks st <> [] \/ Chunker.t_current st <> [].

(** The size [_chunk_text] counts for whole paragraphs. *)
Definition paragraphs_size (pieces : list str) : Z :=
  fold_right (fun p acc => len p + 2 + acc) 0 pieces.

(** A group of lines that is a single line, or whose lines with their
    newlines take at most [1.5 * chunk_size] characters. *)
Definition within_allowance (self : Chunker.t) (group : list str) : Prop :=
  (2 <= length group)%nat ->
  2 * (len (join [newline] group) + 1) <= 3 * Chunker.chunk_size self.

(** The chunks of one document, as [chunk_documents] stamps them: chunk
    [i] carries [chunk_index = i], all carry the number of chunks, and the
    other metadata keys are those of the document. *)
Definition stamped_chunks_of (doc : document) (part : list document) : Prop :=
  forall (i : nat) (chunk : document),
    part !! i = Some chunk ->
    doc_metadata chunk !! "chunk_index"%string = Some (VInt (Z.of_nat i)) /\
    doc_metadata chunk !! "total_chunks"%string = Some (VInt (len part)) /\
    forall key : string,
      key <> "chunk_index"%string -> key <> "total_chunks"%string ->
      doc_metadata chunk !! key = doc_metadata doc !! key.

(** The documents of the files that parse, file after file, and the
    number of files that parse. *)
Definition parsed_documents (read_file : str -> result str)
    (ast_parse : str -> result AstParser.node) (stack_depth : nat)
    (paths : list str) : list document :=
  flat_map (fun path => match AstParser.parse_file read_file ast_parse
                                stack_depth path with
                        | Ok docs => docs
                        | Raise _ => []
                        end) paths.

Definition parsed_count (read_file : str -> result str)
    (ast_parse : str -> result AstParser.node) (stack_depth : nat)
    (paths : list str) : Z :=
  len (List.filter (fun path => match AstParser.parse_file read_file ast_parse
                                        stack_depth path with
                                | Ok _ => true
                                | Raise _ => false
                                end) paths).

(** All the nodes of a syntax tree, the root first. *)
Fixpoint syntax_nodes (n : MetadataExtractor.syntax) : list MetadataExtractor.syntax :=
  match n with
  | MetadataExtractor.Syntax _ cs => n :: flat_map syntax_nodes cs
  end.

(** The keys the extractor may set. *)
Definition extractor_keys : list string :=
  ["imports"; "function_calls"; "complexity"]%string.

(** What enrichment leaves of a document: its content, and every
    metadata entry under a key the extractor does not set. *)
Definition enriched_from (doc doc' : document) : Prop :=
  content doc' = content doc /\
  forall key : string, ~ In key extractor_keys ->
    doc_metadata doc' !! key = doc_metadata doc !! key.

(** The branching statements of a syntax tree, counted along its
    structure: one for the root when it is an [If], [For], [While] or
    [Try], plus those of the children. *)
Fixpoint count_branches (n : MetadataExtractor.syntax) : Z :=
  match n with
  | MetadataExtractor.Syntax k cs =>
      (if MetadataExtractor.is_branch (MetadataExtractor.Syntax k cs) then 1 else 0)
      + fold_right Z.add 0 (map count_branches cs)
  end.

(** A tree with an [if] inside a [for] inside a function body. *)
Definition nested_branches : MetadataExtractor.syntax :=
  MetadataExtractor.Syntax MetadataExtractor.OtherSyntax
    [MetadataExtractor.Syntax MetadataExtractor.For
       [MetadataExtractor.Syntax MetadataExtractor.If
          [MetadataExtractor.Syntax (MetadataExtractor.Call (Some (s2l "print"))) []]]].

(** A walk over a repository with a virtual environment. *)
Definition sample_walk : list (str * list str) :=
  [(s2l "/repo", [s2l "sample.py"; s2l "notes.txt"]);
   (s2l "/repo/venv/lib", [s2l "site.py"]);
   (s2l "/repo/environment", [s2l "tool.py"])].

(** * Properties *)

(** ** Lists and slices *)

Section Windows.
Context {A : Type}.
Implicit Types (s : list A) (n count : nat).

Lemma windows_succ n count s :
  windows n (S count) s = firstn n s :: windows n count (skipn n s).
Proof.
  unfold windows. simpl. f_equal.
  rewrite <- seq_shift, map_map. apply map_ext. intros j.
  rewrite drop_drop. replace (n + j * n)%nat with (S j * n)%nat by lia.
  reflexivity.
Qed.

Lemma concat_windows n count s :
  (length s <= count * n)%nat -> concat (windows n count s) = s.
Proof.
  revert s. induction count as [|count IH]; intros s Hlen.
  - destruct s; [reflexivity | simpl in Hlen; lia].
  - rewrite windows_succ. simpl. rewrite IH.
    + apply take_drop.
    + rewrite length_drop. lia.
Qed.

Lemma windows_lookup n count s i w :
  windows n count s !! i = Some w -> w = firstn n (skipn (i * n) s).
Proof.
  unfold windows. rewrite list_lookup_fmap. intros H.
  destruct (seq 0 count !! i) as [j|] eqn:Hj; [|discriminate].
  apply lookup_seq in Hj as [-> _]. simpl in H. congruence.
Qed.

Lemma length_windows n count s : length (windows n count s) = count.
Proof. unfold windows. rewrite length_map, length_seq. reflexivity. Qed.

Lemma slice_window s (i c : Z) :
  0 <= i -> 0 <= c -> i <= len s ->
  slice s i (i + c) = firstn (Z.to_nat c) (skipn (Z.to_nat i) s).
Proof.
  intros Hi Hc Hlen. unfold slice, clamp_index, len in *.
  destruct (Z.ltb_spec i 0); [lia|].
  destruct (Z.ltb_spec (i + c) 0); [lia|].
  set (n := Z.of_nat (length s)) in *.
  replace (Z.max 0 (Z.min n i)) with i by lia.
  destruct (Z.le_gt_cases (i + c) n).
  - replace (Z.max 0 (Z.min n (i + c)) - i) with c by lia. reflexivity.
  - replace (Z.max 0 (Z.min n (i + c)) - i) with (n - i) by lia.
    rewrite !take_ge; [reflexivity | rewrite length_drop; lia ..].
Qed.
End Windows.

(** ** Fixed-size slicing *)

Lemma range0_pos (stop step : Z) :
  0 < step -> 0 < stop ->
  range0 stop step =
    Ok (map (fun j => Z.of_nat j * step)
            (seq 0 (Z.to_nat ((stop - 1) / step + 1)))).
Proof.
  intros Hstep Hstop. unfold range0.
  destruct (Z.eqb_spec step 0); [lia|].
  destruct (Z.ltb_spec step 0); [lia|].
  destruct (Z.leb_spec stop 0); [lia|]. reflexivity.
Qed.

Lemma simple_chunks_windows (self : Chunker.t) (content : str) :
  0 < Chunker.chunk_size self ->
  Chunker.chunk_size self < len content ->
  Chunker._simple_chunk_by_size self content =
    Ok (windows (Z.to_nat (Chunker.chunk_size self))
                (Z.to_nat ((len content - 1) / Chunker.chunk_size self + 1))
                content).
Proof.
  intros Hcs Hlen. unfold Chunker._simple_chunk_by_size.
  set (cs := Chunker.chunk_size self) in *.
  destruct (Z.leb_spec (len content) cs); [lia|].
  rewrite range0_pos by lia. simpl. f_equal.
  unfold windows. rewrite map_map. apply map_ext_in.
  intros j Hj. apply in_seq in Hj.
  pose proof (Z.div_pos (len content - 1) cs ltac:(lia) Hcs) as Hq.
  pose proof (Z.mul_div_le (len content - 1) cs Hcs) as Hle.
  assert (Z.of_nat j * cs <= len content) by nia.
  rewrite slice_window by nia.
  do 2 f_equal. rewrite Z2Nat.inj_mul by lia. rewrite Nat2Z.id. reflexivity.
Qed.

(** C9. For a positive [chunk_size], [_simple_chunk_by_size] returns
    slices whose concatenation is the input text; slice [i] is exactly the
    characters at positions [i * chunk_size, (i + 1) * chunk_size) of the
    text, so the slices do not overlap; every slice has at most
    [chunk_size] characters and every slice but the last has exactly
    [chunk_size]. *)
Theorem simple_chunk_by_size_partition (self : Chunker.t) (content : str) :
  0 < Chunker.chunk_size self ->
  exists slices : list str,
    Chunker._simple_chunk_by_size self content = Ok slices /\
    concat slices = content /\
    slices <> [] /\
    forall (i : nat) (s : str),
      slices !! i = Some s ->
      s = firstn (Z.to_nat (Chunker.chunk_size self))
                 (skipn (i * Z.to_nat (Chunker.chunk_size self)) content) /\
      len s <= Chunker.chunk_size self /\
      ((S i < length slices)%nat -> len s = Chunker.chunk_size self).
Proof.
  intros Hcs. set (cs := Chunker.chunk_size self) in *.
  destruct (Z.le_gt_cases (len content) cs) as [Hfit|Hbig].
  - exists [content]. unfold Chunker._simple_chunk_by_size. fold cs.
    destruct (Z.leb_spec (len content) cs); [|lia].
    split; [reflexivity|]. split; [simpl; apply app_nil_r|].
    split; [discriminate|].
    intros [|i] s Hs; [|discriminate]. injection Hs as <-.
    unfold len in *. rewrite Nat.mul_0_l, drop_0.
    split; [rewrite take_ge; [reflexivity|lia] |].
    split; [lia | simpl; lia].
  - eexists. split; [apply simple_chunks_windows; lia|]. fold cs.
    set (count := Z.to_nat ((len content - 1) / cs + 1)).
    pose proof (Z.div_pos (len content - 1) cs ltac:(lia) Hcs) as Hq.
    pose proof (Z.mul_div_le (len content - 1) cs Hcs) as Hlo.
    pose proof (Z.mul_succ_div_gt (len content - 1) cs Hcs) as Hhi.
    assert (Hcount : Z.of_nat count = (len content - 1) / cs + 1)
      by (unfold count; lia).
    unfold len in *.
    split; [apply concat_windows; nia|].
    split.
    { intros Hnil. apply (f_equal length) in Hnil.
      rewrite length_windows in Hnil. simpl in Hnil. lia. }
    intros i s Hs.
    pose proof (lookup_lt_Some _ _ _ Hs) as Hi.
    rewrite length_windows in Hi |- *.
    apply windows_lookup in Hs. subst s.
    split; [reflexivity|].
    rewrite length_take, length_drop. split; [lia|].
    intros Hnext. nia.
Qed.

Lemma simple_chunk_by_size_partition_witness :
  exists slices : list str,
    Chunker._simple_chunk_by_size (Chunker.Make 4 2) (s2l "abcdefghij") = Ok slices /\
    concat slices = s2l "abcdefghij".
Proof.
  destruct (simple_chunk_by_size_partition (Chunker.Make 4 2) (s2l "abcdefghij"))
    as (slices & Hrun & Hcat & _); [simpl; lia|].
  exists slices. split; assumption.
Defined.

(** ** Units that fit in one chunk *)

Lemma chunk_code_fits (self : Chunker.t) (text : str) (md : dict) :
  len text <= Chunker.chunk_size self ->
  Chunker._chunk_code self text md = Ok [text].
Proof.
  intros H. unfold Chunker._chunk_code.
  destruct (Z.leb_spec (len text) (Chunker.chunk_size self)); [reflexivity|lia].
Qed.

Lemma chunk_code_function_allowance (self : Chunker.t) (text : str) (md : dict) :
  Chunker.type_is md "function" = true ->
  len text <= 2 * Chunker.chunk_size self ->
  Chunker._chunk_code self text md = Ok [text].
Proof.
  intros Hty H. unfold Chunker._chunk_code. rewrite Hty.
  destruct (Z.leb_spec (len text) (Chunker.chunk_size self)); [reflexivity|].
  destruct (Z.leb_spec (len text) (Chunker.chunk_size self * 2)); [reflexivity|lia].
Qed.

Lemma chunk_text_fits (self : Chunker.t) (text : str) :
  len text <= Chunker.chunk_size self ->
  Chunker._chunk_text self text = Ok [text].
Proof.
  intros H. unfold Chunker._chunk_text.
  destruct (Z.leb_spec (len text) (Chunker.chunk_size self)); [reflexivity|lia].
Qed.

(** C6. A unit (a document whose metadata has a type) whose text has at
    most [chunk_size] characters, or a function unit whose text has at
    most [2 * chunk_size] characters, is chunked into exactly one chunk:
    its text is the input text, its metadata is the unit's metadata with
    [chunk_index = 0] and [total_chunks = 1] added. *)
Theorem small_unit_single_chunk (self : Chunker.t) (doc : document) :
  is_Some (doc_metadata doc !! "type"%string) ->
  (len (content doc) <= Chunker.chunk_size self \/
   (Chunker.type_is (doc_metadata doc) "function" = true /\
    len (content doc) <= 2 * Chunker.chunk_size self)) ->
  exists chunk : document,
    Chunker.chunk_documents self [doc] = Ok [chunk] /\
    content chunk = content doc /\
    doc_metadata chunk !! "chunk_index"%string = Some (VInt 0) /\
    doc_metadata chunk !! "total_chunks"%string = Some (VInt 1) /\
    forall key : string,
      key <> "chunk_index"%string -> key <> "total_chunks"%string ->
      doc_metadata chunk !! key = doc_metadata doc !! key.
Proof.
  intros [ty Hty] Hsize.
  exists (Chunker.stamp (doc_metadata doc) 1 0 (content doc)).
  split.
  - unfold Chunker.chunk_documents, Chunker.chunk_document. simpl.
    rewrite Hty.
    assert (Hchunks :
      (if Chunker.type_is (doc_metadata doc) "class"
          || Chunker.type_is (doc_metadata doc) "function"
       then Chunker._chunk_code self (content doc) (doc_metadata doc)
       else Chunker._chunk_text self (content doc)) = Ok [content doc]).
    { destruct Hsize as [Hfit|[Hfun Hfit]].
      - destruct (_ || _); auto using chunk_code_fits, chunk_text_fits.
      - rewrite Hfun, orb_true_r.
        apply chunk_code_function_allowance; assumption. }
    rewrite Hchunks. reflexivity.
  - simpl. split; [reflexivity|].
    split; [rewrite lookup_insert_ne by discriminate; apply lookup_insert_eq|].
    split; [apply lookup_insert_eq|].
    intros key H1 H2. rewrite !lookup_insert_ne by congruence. reflexivity.
Qed.

Lemma small_unit_single_chunk_witness :
  exists chunk : document,
    Chunker.chunk_documents (Chunker.__init__ None None)
      [{| content := s2l "def f(a, b): return a + b";
          doc_metadata := <["type"%string := VStr (s2l "function")]> ∅ |}]
      = Ok [chunk] /\
    content chunk = s2l "def f(a, b): return a + b" /\
    doc_metadata chunk !! "total_chunks"%string = Some (VInt 1).
Proof.
  destruct (small_unit_single_chunk (Chunker.__init__ None None)
              {| content := s2l "def f(a, b): return a + b";
                 doc_metadata := <["type"%string := VStr (s2l "function")]> ∅ |})
    as (chunk & Hrun & Htext & _ & Htotal & _).
  - exists (VStr (s2l "function")). reflexivity.
  - left. vm_compute. discriminate.
  - exists chunk. repeat split; assumption.
Defined.

(** ** Splitting and joining lines *)

Lemma split_go_nonempty (sep : str) (skip : nat) (s : str) :
  split_go sep skip s <> [].
Proof.
  revert skip. induction s as [|c s IH]; intros skip; cbn [split_go]; [done|].
  destruct skip; [|apply IH].
  destruct (startswith (c :: s) sep); [done|].
  specialize (IH 0%nat). destruct (split_go sep 0 s); done.
Qed.

Lemma split_nonempty (sep s : str) : split sep s <> [].
Proof. apply split_go_nonempty. Qed.

Lemma join_cons (sep p : str) (rest : list str) :
  rest <> [] -> join sep (p :: rest) = p ++ sep ++ join sep rest.
Proof. destruct rest; [contradiction|reflexivity]. Qed.

Lemma join_cons_head (sep : str) (c : ascii) (pieces : list str) :
  pieces <> [] -> join sep (cons_head c pieces) = c :: join sep pieces.
Proof.
  destruct pieces as [|p [|q ps]]; [contradiction| reflexivity ..].
Qed.

(** [sep.join(s.split(sep)) == s] for a one-character separator. *)
Lemma join_split_char (c : ascii) (s : str) : join [c] (split [c] s) = s.
Proof.
  unfold split. induction s as [|x s IH]; [reflexivity|].
  cbn [split_go startswith]. rewrite andb_true_r.
  change (length [c] - 1)%nat with 0%nat.
  destruct (Ascii.eqb_spec c x) as [->|Hne].
  - rewrite join_cons by apply split_go_nonempty. rewrite IH. reflexivity.
  - rewrite join_cons_head by apply split_go_nonempty. rewrite IH. reflexivity.
Qed.

Lemma join_app (sep : str) (a b : list str) :
  a <> [] -> b <> [] -> join sep (a ++ b) = join sep a ++ sep ++ join sep b.
Proof.
  intros Ha Hb. induction a as [|p a IH]; [contradiction|].
  destruct a as [|q a].
  - simpl. apply join_cons. assumption.
  - change ((p :: q :: a) ++ b) with (p :: ((q :: a) ++ b)).
    rewrite join_cons by discriminate.
    rewrite IH by discriminate.
    rewrite (join_cons sep p (q :: a)) by discriminate.
    rewrite <- !app_assoc. reflexivity.
Qed.

(** Joining the joined groups is joining all the lines, as long as no
    group is empty. *)
Lemma join_groups (sep : str) (groups : list (list str)) :
  Forall (fun g => g <> []) groups ->
  join sep (map (join sep) groups) = join sep (concat groups).
Proof.
  induction 1 as [|g groups Hg Hall IH]; [reflexivity|].
  destruct groups as [|g' groups].
  - simpl. rewrite app_nil_r. reflexivity.
  - change (map (join sep) (g :: g' :: groups))
      with (join sep g :: map (join sep) (g' :: groups)).
    rewrite join_cons by discriminate.
    rewrite IH.
    change (concat (g :: g' :: groups)) with (g ++ concat (g' :: groups)).
    rewrite join_app; [reflexivity|assumption|].
    inversion Hall; subst. destruct g'; done.
Qed.

(** ** The boundary-aware splitter *)

Lemma startswith_cons_nonempty (s p : str) (c : ascii) :
  startswith s (c :: p) = true -> s <> [].
Proof. destruct s; [discriminate|done]. Qed.

(** The [TypeError] of [startswith(False)] cannot happen: a line that
    starts with a keyword after stripping is not blank, so the indent
    level is known when it is needed. *)
Lemma shallow_keyword_ok (c : ascii) (kw : string)
    (line stripped : str) (indent : option Z) :
  (stripped <> [] -> is_Some indent) ->
  exists b, Chunker.shallow_keyword (String c kw) line stripped indent = Ok b.
Proof.
  intros Hindent. unfold Chunker.shallow_keyword.
  destruct (startswith stripped (s2l (String c kw))) eqn:Hkw; [|eauto].
  apply startswith_cons_nonempty in Hkw.
  destruct (Hindent Hkw) as [n ->]. simpl. eauto.
Qed.

Lemma is_boundary_ok (line stripped : str) (indent : option Z) :
  (stripped <> [] -> is_Some indent) ->
  exists b, Chunker.is_boundary line stripped indent = Ok b.
Proof.
  intros Hindent. unfold Chunker.is_boundary.
  destruct (startswith line (s2l "@")); [eauto|].
  destruct (shallow_keyword_ok "d" "ef " line stripped indent Hindent) as [b ->].
  simpl. destruct b; [eauto|].
  apply shallow_keyword_ok; assumption.
Qed.

(** One iteration either extends the current chunk by the line, or closes
    the (non-empty) current chunk and starts a new one with the line. *)
Lemma code_step_spec (self : Chunker.t) (st : Chunker.code_state) (line : str) :
  exists st',
    Chunker.code_step self st line = Ok st' /\
    ((Chunker.chunks st' = Chunker.chunks st /\
      Chunker.current_chunk st' = Chunker.current_chunk st ++ [line]) \/
     (Chunker.current_chunk st <> [] /\
      Chunker.chunks st' =
        Chunker.chunks st ++ [join [newline] (Chunker.current_chunk st)] /\
      Chunker.current_chunk st' = [line])).
Proof.
  unfold Chunker.code_step.
  set (indent := match lstrip line, Chunker.indent_level st with
                 | _ :: _, None => Some (len line - len (lstrip line))
                 | _, lvl => lvl
                 end).
  assert (Hindent : lstrip line <> [] -> is_Some indent).
  { subst indent. destruct (lstrip line); [done|].
    destruct (Chunker.indent_level st); eauto. }
  destruct (is_boundary_ok line (lstrip line) indent Hindent) as [b ->].
  simpl.
  destruct b, (Chunker.current_chunk st) as [|l0 cur] eqn:Hcur; simpl;
    repeat match goal with
           | |- context [if ?c then _ else _] => destruct c
           | |- context [(_ <? _)] => destruct (_ <? _)
           end; simpl;
    eexists; (split; [reflexivity|]); simpl;
    try (left; split; reflexivity);
    right; unfold Chunker.flush; repeat split; done.
Qed.

Lemma code_loop_groups (self : Chunker.t) (lines : list str) :
  forall (st : Chunker.code_state) (seen : list str) (groups : list (list str)),
    Forall (fun g => g <> []) groups ->
    Chunker.chunks st = map (join [newline]) groups ->
    concat groups ++ Chunker.current_chunk st = seen ->
    exists st' groups',
      for_each (Chunker.code_step self) lines st = Ok st' /\
      Forall (fun g => g <> []) groups' /\
      Chunker.chunks st' = map (join [newline]) groups' /\
      concat groups' ++ Chunker.current_chunk st' = seen ++ lines.
Proof.
  induction lines as [|line lines IH]; intros st seen groups Hne Hchunks Hseen.
  - exists st, groups. rewrite app_nil_r. auto.
  - destruct (code_step_spec self st line) as (st1 & Hstep & Hcases).
    simpl. rewrite Hstep. simpl.
    replace (seen ++ line :: lines) with ((seen ++ [line]) ++ lines)
      by (rewrite <- app_assoc; reflexivity).
    destruct Hcases as [[Hc Hcur]|(Hcur0 & Hc & Hcur)].
    + apply (IH st1 _ groups); [assumption|congruence|].
      rewrite Hcur, app_assoc, Hseen. reflexivity.
    + apply (IH st1 _ (groups ++ [Chunker.current_chunk st])).
      * apply Forall_app. split; [assumption|]. constructor; [assumption|constructor].
      * rewrite Hc, Hchunks, map_app. reflexivity.
      * rewrite Hcur, concat_app. simpl. rewrite app_nil_r, Hseen. reflexivity.
Qed.

(** C10. [_chunk_code] always returns, with a non-empty list of chunks;
    the chunks are the joined members of consecutive non-empty groups of
    the input's lines, in order, and joining the chunks with a newline
    gives back the input text. *)
Theorem chunk_code_partitions_lines (self : Chunker.t) (text : str) (md : dict) :
  exists (chunks : list str) (groups : list (list str)),
    Chunker._chunk_code self text md = Ok chunks /\
    chunks <> [] /\
    join [newline] chunks = text /\
    Forall (fun g => g <> []) groups /\
    concat groups = split [newline] text /\
    chunks = map (join [newline]) groups.
Proof.
  assert (Hwhole : exists chunks groups,
    Ok [text] = Ok chunks /\ chunks <> [] /\ join [newline] chunks = text /\
    Forall (fun g => g <> []) groups /\
    concat groups = split [newline] text /\
    chunks = map (join [newline]) groups).
  { exists [text], [split [newline] text]. repeat split; try done.
    - constructor; [apply split_nonempty|constructor].
    - simpl. apply app_nil_r.
    - simpl. rewrite join_split_char. reflexivity. }
  unfold Chunker._chunk_code.
  destruct (len text <=? Chunker.chunk_size self); [exact Hwhole|].
  destruct (Chunker.type_is md "function" && _); [exact Hwhole|].
  clear Hwhole.
  destruct (code_loop_groups self (split [newline] text)
              {| Chunker.chunks := []; Chunker.current_chunk := [];
                 Chunker.current_size := 0; Chunker.indent_level := None |}
              [] [] ltac:(constructor) eq_refl eq_refl)
    as (st & groups & Hrun & Hne & Hchunks & Hlines).
  rewrite Hrun. simpl. simpl in Hlines.
  set (final := match Chunker.current_chunk st with
                | [] => groups
                | _ :: _ => groups ++ [Chunker.current_chunk st]
                end).
  assert (Hfinal : Chunker.flush_if_any [newline] (Chunker.chunks st)
                     (Chunker.current_chunk st) = map (join [newline]) final).
  { subst final. unfold Chunker.flush_if_any, Chunker.flush.
    destruct (Chunker.current_chunk st); [assumption|].
    rewrite map_app, Hchunks. reflexivity. }
  assert (Hfinal_ne : Forall (fun g => g <> []) final).
  { subst final. destruct (Chunker.current_chunk st) eqn:Hcur; [assumption|].
    apply Forall_app. split; [assumption|]. constructor; [done|constructor]. }
  assert (Hfinal_lines : concat final = split [newline] text).
  { subst final. destruct (Chunker.current_chunk st) eqn:Hcur.
    - rewrite app_nil_r in Hlines. assumption.
    - rewrite concat_app. simpl. rewrite app_nil_r. assumption. }
  rewrite Hfinal.
  assert (Hnonempty : map (join [newline]) final <> []).
  { intros Hnil. apply map_eq_nil in Hnil. rewrite Hnil in Hfinal_lines.
    symmetry in Hfinal_lines. apply (split_nonempty _ _ Hfinal_lines). }
  destruct (map (join [newline]) final) as [|c0 cs] eqn:Hmap; [done|].
  exists (c0 :: cs), final. rewrite <- Hmap.
  repeat split; try assumption.
  - rewrite Hmap. done.
  - rewrite join_groups by assumption.
    rewrite Hfinal_lines. apply join_split_char.
Qed.

(** ** Decorators and the size boundary *)

(** C2. On a four-line class with a decorated method and [chunk_size =
    20], the splitter cuts between the decorator and its [def]: the
    decorator is the last line of the first chunk and the definition it
    annotates opens the second chunk. *)
Theorem decorator_cut_from_method :
  Chunker._chunk_code (Chunker.Make 20 200) property_class class_metadata =
    Ok [s2l "class A:
    @property"; s2l "    def f(self):"; s2l "        return 1"] /\
  forallb decorators_lead
    [s2l "class A:
    @property"; s2l "    def f(self):"; s2l "        return 1"] = false.
Proof. split; vm_compute; reflexivity. Qed.

(** A decorator in the first column is cut off as well: the boundary
    before the [def] line that follows it closes the chunk that holds the
    decorator. *)
Lemma decorator_cut_at_column_zero :
  Chunker._chunk_code (Chunker.Make 20 200)
    (s2l "@decorate
def f():
    return 1") class_metadata =
    Ok [s2l "@decorate"; s2l "def f():
    return 1"].
Proof. vm_compute. reflexivity. Qed.

(** ** The segmenter *)

(** C3, as stated, fails: the unit returned for a file that does not
    parse carries no line range. *)
Lemma raw_text_unit_without_line_range :
  ~ exists unit : document,
      AstParser.parse_file (fun _ => Ok broken_source)
        (fun _ => Raise SyntaxError) 1000 (s2l "broken.py") = Ok [unit] /\
      spans_whole_file broken_source unit.
Proof.
  intros (unit & Hrun & _ & _ & Hrange).
  cbv [AstParser.parse_file mbind result_bind] in Hrun.
  injection Hrun as <-. vm_compute in Hrange. discriminate Hrange.
Qed.

(** C3, amended. When the text of a file fails to parse with a syntax
    error, [parse_file] returns exactly one unit: its content is the
    whole text and its metadata holds the file path and the type
    [raw_text], and nothing else (no line range).  When the parse fails
    with another error, [parse_file] raises that error, and the scan of a
    directory, which catches it, goes on without the file: no document,
    and the file is not counted. *)
Theorem syntax_error_gives_raw_text
    (read_file : str -> result str) (ast_parse : str -> result AstParser.node)
    (stack_depth : nat) (file_path text : str) :
  read_file file_path = Ok text ->
  (ast_parse text = Raise SyntaxError ->
   exists unit : document,
     AstParser.parse_file read_file ast_parse stack_depth file_path = Ok [unit] /\
     content unit = text /\
     doc_metadata unit =
       <["file_path"%string := VStr file_path]>
         (<["type"%string := VStr (s2l "raw_text")]> ∅) /\
     doc_metadata unit !! "line_range"%string = None) /\
  (forall e : exn,
     ast_parse text = Raise e -> e <> SyntaxError ->
     AstParser.parse_file read_file ast_parse stack_depth file_path = Raise e /\
     forall (root file : str) (st : DirectoryScan.scan),
       DirectoryScan.path_join root file = file_path ->
       DirectoryScan.scan_file read_file ast_parse stack_depth root st file = st).
Proof.
  intros Hread. split.
  - intros Hparse. exists (AstParser.raw_text_document file_path text).
    unfold AstParser.parse_file. rewrite Hread. simpl. rewrite Hparse.
    repeat split; reflexivity.
  - intros e Hparse Hne.
    assert (AstParser.parse_file read_file ast_parse stack_depth file_path = Raise e)
      as Hfile.
    { unfold AstParser.parse_file. rewrite Hread. simpl. rewrite Hparse.
      destruct e; try reflexivity. contradiction. }
    split; [exact Hfile|].
    intros root file st Hpath. unfold DirectoryScan.scan_file.
    rewrite Hpath, Hfile. destruct (DirectoryScan.endswith _ _); reflexivity.
Qed.

Lemma syntax_error_gives_raw_text_witness :
  exists unit : document,
    AstParser.parse_file (fun _ => Ok broken_source)
      (fun _ => Raise SyntaxError) 1000 (s2l "broken.py") = Ok [unit] /\
    content unit = broken_source.
Proof.
  destruct (proj1 (syntax_error_gives_raw_text (fun _ => Ok broken_source)
                     (fun _ => Raise SyntaxError) 1000 (s2l "broken.py")
                     broken_source eq_refl) eq_refl)
    as (unit & Hrun & Htext & _).
  exists unit. split; assumption.
Defined.

Lemma node_children_ind (P : AstParser.node -> Prop) :
  (forall n, Forall P (AstParser.children n) -> P n) -> forall n, P n.
Proof.
  intros Hstep. fix IH 1. intros [k f nm l e doc a p cs].
  apply Hstep. simpl.
  induction cs as [|c cs IHcs]; constructor; [apply IH | exact IHcs].
Qed.

Lemma subtree_unfold (n : AstParser.node) :
  subtree n = n :: flat_map subtree (AstParser.children n).
Proof. destruct n; reflexivity. Qed.

(** The breadth-first walk visits exactly the nodes of the queued trees. *)
Lemma walk_queue_subtrees (todo : list AstParser.node) :
  Permutation (AstParser.walk_queue todo) (flat_map subtree todo).
Proof.
  funelim (AstParser.walk_queue todo); [constructor|].
  simpl. rewrite subtree_unfold. simpl. constructor.
  etransitivity; [eassumption|].
  rewrite flat_map_app. apply Permutation_app_comm.
Qed.

Lemma walk_subtree (n : AstParser.node) :
  Permutation (AstParser.walk n) (subtree n).
Proof.
  unfold AstParser.walk. etransitivity; [apply walk_queue_subtrees|].
  simpl. rewrite app_nil_r. reflexivity.
Qed.

Lemma walk_head (n : AstParser.node) :
  exists rest, AstParser.walk n = n :: rest.
Proof. unfold AstParser.walk. simp walk_queue. eauto. Qed.

Lemma visit_set_parent (p : AstParser.parent_attr) (n : AstParser.node) :
  with_parents (AstParser.set_parent p n) =
  AstParser.set_parent p (with_parents n).
Proof. destruct n; reflexivity. Qed.

Lemma height_set_parent (p : AstParser.parent_attr) (n : AstParser.node) :
  height (AstParser.set_parent p n) = height n.
Proof. destruct n; reflexivity. Qed.

Lemma children_visit (n : AstParser.node) :
  AstParser.children (with_parents n) =
  map (fun c => annotated (Some (AstParser.kind n), c)) (AstParser.children n).
Proof. destruct n; reflexivity. Qed.

(** The visitor returns exactly when the stack allows as many nested
    calls as the tree is high, and then every child carries the class of
    its parent; otherwise it raises [RecursionError]. *)
Lemma visit_depth (depth : nat) :
  forall n : AstParser.node,
    AstParser.visit depth n =
    if (height n <=? depth)%nat then Ok (with_parents n) else Raise RecursionError.
Proof.
  induction depth as [|depth IH]; intros [k f nm l e doc a p cs]; [reflexivity|].
  cbn [AstParser.visit AstParser.children AstParser.kind AstParser.in_field
       AstParser.name AstParser.lineno AstParser.end_lineno AstParser.docstring
       AstParser.args AstParser.parent].
  assert (forall acc,
            for_each (fun acc child =>
                        child' ← AstParser.visit depth
                                   (AstParser.set_parent (Some (Some k)) child);
                        Ok (acc ++ [child'])) cs acc =
            if (list_max (map height cs) <=? depth)%nat
            then Ok (acc ++ map (fun c => AstParser.set_parent (Some (Some k))
                                            (with_parents c)) cs)
            else Raise RecursionError) as Hloop.
  { induction cs as [|c cs IHcs]; intros acc.
    - simpl. rewrite app_nil_r. reflexivity.
    - cbn [for_each map list_max fold_right]. rewrite IH, height_set_parent.
      fold (list_max (map height cs)).
      destruct (Nat.leb_spec (height c) depth) as [Hc|Hc].
      + cbn [mbind result_bind]. rewrite IHcs, visit_set_parent, <- app_assoc.
        destruct (Nat.leb_spec (list_max (map height cs)) depth) as [Hcs|Hcs].
        * destruct (Nat.leb_spec (Nat.max (height c) (list_max (map height cs)))
                      depth); [reflexivity|lia].
        * destruct (Nat.leb_spec (Nat.max (height c) (list_max (map height cs)))
                      depth); [lia|reflexivity].
      + cbn [mbind result_bind].
        destruct (Nat.leb_spec (Nat.max (height c) (list_max (map height cs)))
                    depth); [lia|reflexivity]. }
  rewrite Hloop. cbn [height]. change (S ?a <=? S ?b)%nat with (a <=? b)%nat.
  destruct (list_max (map height cs) <=? depth)%nat; reflexivity.
Qed.

Lemma flat_map_map {A B C} (f : B -> list C) (g : A -> B) (l : list A) :
  flat_map f (map g l) = flat_map (fun x => f (g x)) l.
Proof. induction l as [|x l IH]; simpl; congruence. Qed.

Lemma map_flat_map {A B C} (f : B -> C) (g : A -> list B) (l : list A) :
  map f (flat_map g l) = flat_map (fun x => map f (g x)) l.
Proof. induction l as [|x l IH]; simpl; [reflexivity|]. rewrite map_app; congruence. Qed.

Lemma flat_map_ext_Forall {A B} (f g : A -> list B) (l : list A) :
  Forall (fun x => f x = g x) l -> flat_map f l = flat_map g l.
Proof. induction 1 as [|x l Hx _ IH]; simpl; congruence. Qed.

(** After [NodeVisitor] has run, the nodes of the tree are the nodes of
    the parsed tree, each with the class of its parent. *)
Lemma subtree_annotated (n : AstParser.node) :
  forall p, subtree (annotated (p, n)) = map annotated ((p, n) :: descendants n).
Proof.
  induction n as [n IH] using node_children_ind. intros p.
  rewrite subtree_unfold. simpl. f_equal.
  unfold annotated at 1. simpl.
  replace (AstParser.children
             (AstParser.set_parent (Some p) (with_parents n)))
    with (AstParser.children (with_parents n))
    by (destruct (with_parents n); reflexivity).
  rewrite children_visit, flat_map_map.
  replace (descendants n)
    with (flat_map (fun c => (Some (AstParser.kind n), c) :: descendants c)
                   (AstParser.children n))
    by (destruct n; reflexivity).
  rewrite map_flat_map. apply flat_map_ext_Forall.
  eapply Forall_impl; [exact IH|]. intros c Hc. apply Hc.
Qed.

Lemma emits_annotated (pn : option AstParser.node_kind * AstParser.node) :
  emits (annotated pn) = is_unit pn.
Proof.
  destruct pn as [p n]. unfold emits, is_unit, annotated. simpl.
  destruct n as [k f nm l e doc a par cs]. simpl.
  destruct k; reflexivity.
Qed.

Lemma unit_of_annotated (pn : option AstParser.node_kind * AstParser.node)
    (doc : document) :
  unit_of_node (annotated pn) doc -> unit_of_node (snd pn) doc.
Proof.
  destruct pn as [p [k f nm l e d a par cs]]. exact (fun H => H).
Qed.

Lemma filter_map_annotated (l : list (option AstParser.node_kind * AstParser.node)) :
  List.filter emits (map annotated l) = map annotated (List.filter is_unit l).
Proof.
  induction l as [|pn l IH]; [reflexivity|].
  simpl. rewrite emits_annotated. destruct (is_unit pn); simpl; congruence.
Qed.

(** The line range of a definition node is always computed: the node
    itself is the first node of its own walk. *)
Lemma line_range_ok (n : AstParser.node) :
  exists end_line, AstParser.line_range n = Ok (AstParser.lineno n, end_line).
Proof.
  unfold AstParser.line_range.
  destruct (AstParser.end_lineno n) as [e|] eqn:He; [|simpl; eauto].
  destruct (walk_head n) as [rest ->]. simpl. rewrite He. simpl. eauto.
Qed.

Lemma process_class_ok (n : AstParser.node) (file_path text : str) :
  AstParser.kind n = AstParser.ClassDef ->
  exists doc, AstParser._process_class n file_path text = Ok doc /\
              unit_of_node n doc.
Proof.
  intros Hkind. unfold AstParser._process_class.
  destruct (line_range_ok n) as [e ->]. simpl. eexists. split; [reflexivity|].
  unfold unit_of_node. rewrite Hkind. simpl.
  split; [reflexivity|]. split; [reflexivity|]. exists e. reflexivity.
Qed.

Lemma process_function_ok (n : AstParser.node) (file_path text : str) :
  AstParser.kind n = AstParser.FunctionDef ->
  exists doc, AstParser._process_function n file_path text = Ok doc /\
              unit_of_node n doc.
Proof.
  intros Hkind. unfold AstParser._process_function.
  destruct (line_range_ok n) as [e ->]. simpl. eexists. split; [reflexivity|].
  unfold unit_of_node. rewrite Hkind. simpl.
  split; [reflexivity|]. split; [reflexivity|]. exists e. reflexivity.
Qed.

Lemma emit_skip (file_path text : str) (acc : list document) (n : AstParser.node) :
  emits n = false -> AstParser.emit file_path text acc n = Ok acc.
Proof.
  unfold emits, AstParser.emit.
  destruct (AstParser.kind n); try reflexivity; [discriminate|].
  intros ->. reflexivity.
Qed.

Lemma emit_unit (file_path text : str) (acc : list document) (n : AstParser.node) :
  emits n = true ->
  exists doc, AstParser.emit file_path text acc n = Ok (acc ++ [doc]) /\
              unit_of_node n doc.
Proof.
  unfold emits, AstParser.emit.
  destruct (AstParser.kind n) eqn:Hkind; try discriminate.
  - intros _.
    destruct (process_class_ok n file_path text Hkind) as (doc & -> & Hdoc).
    exists doc. split; [reflexivity|assumption].
  - intros ->.
    destruct (process_function_ok n file_path text Hkind) as (doc & -> & Hdoc).
    exists doc. split; [reflexivity|assumption].
Qed.

(** The loop of [parse_file] appends one document per emitting node, in
    the order of the walk, and never raises. *)
Lemma emit_loop (file_path text : str) (nodes : list AstParser.node) :
  forall acc : list document,
  exists docs : list document,
    for_each (AstParser.emit file_path text) nodes acc = Ok (acc ++ docs) /\
    Forall2 unit_of_node (List.filter emits nodes) docs.
Proof.
  induction nodes as [|n nodes IH]; intros acc.
  - exists []. simpl. rewrite app_nil_r. split; [reflexivity|constructor].
  - cbn [for_each List.filter]. destruct (emits n) eqn:Hemits.
    + destruct (emit_unit file_path text acc n Hemits) as (doc & -> & Hdoc).
      destruct (IH (acc ++ [doc])) as (docs & Hrun & Hdocs).
      exists (doc :: docs). split; [|constructor; assumption].
      simpl. rewrite Hrun, <- app_assoc. reflexivity.
    + rewrite (emit_skip file_path text acc n Hemits). apply IH.
Qed.

Lemma filter_permutation {A} (f : A -> bool) (l l' : list A) :
  Permutation l l' -> Permutation (List.filter f l) (List.filter f l').
Proof.
  induction 1 as [|x l l' _ IH|x y l|l l' l'' _ IH1 _ IH2]; simpl.
  - constructor.
  - destruct (f x); [constructor|]; exact IH.
  - destruct (f x), (f y); try reflexivity. constructor.
  - etransitivity; eassumption.
Qed.

Lemma Forall2_map_left {A B C} (P : B -> C -> Prop) (f : A -> B)
    (l : list A) (k : list C) :
  Forall2 P (map f l) k -> Forall2 (fun x => P (f x)) l k.
Proof.
  revert k. induction l as [|x l IH]; intros k H; inversion H; subst;
    constructor; auto.
Qed.

(** C8, as stated, fails: a function definition at module top level is
    not always a unit.  An [async def] of the module and a [def] under a
    module-level [if], neither nested in a class or a function, give no
    unit. *)
Lemma top_level_functions_without_unit :
  AstParser.parse_file (fun _ => Ok guarded_text) (fun _ => Ok guarded_tree) 1000
    (s2l "guarded.py") = Ok [] /\
  map (fun pn => (fst pn, AstParser.kind (snd pn), AstParser.name (snd pn)))
      (nodes_of guarded_tree) =
    [(None, AstParser.Module_, []);
     (Some AstParser.Module_, AstParser.AsyncFunctionDef, s2l "fetch");
     (Some AstParser.Module_, AstParser.OtherNode, []);
     (Some AstParser.OtherNode, AstParser.FunctionDef, s2l "fallback")].
Proof. split; vm_compute; reflexivity. Qed.

(** C8, amended. When the text of a file parses and the syntax tree is
    no higher than the stack allows the visitor, [parse_file] returns one
    unit for each class definition of the tree, whatever its depth, and
    one unit for each [FunctionDef] node whose parent is the module
    itself, and no other unit: the units correspond one to one to these
    nodes.  A function definition with another parent, and an
    [AsyncFunctionDef], give no unit. *)
Theorem units_are_classes_and_top_level_functions
    (read_file : str -> result str) (ast_parse : str -> result AstParser.node)
    (stack_depth : nat) (file_path text : str) (tree : AstParser.node) :
  read_file file_path = Ok text ->
  ast_parse text = Ok tree ->
  (height tree <= stack_depth)%nat ->
  exists (docs : list document)
         (emitted : list (option AstParser.node_kind * AstParser.node)),
    AstParser.parse_file read_file ast_parse stack_depth file_path = Ok docs /\
    Permutation emitted (List.filter is_unit (nodes_of tree)) /\
    Forall2 (fun pn doc => unit_of_node (snd pn) doc) emitted docs /\
    (forall p n, In (p, n) emitted ->
       AstParser.kind n = AstParser.ClassDef \/
       (AstParser.kind n = AstParser.FunctionDef /\
        p = Some AstParser.Module_)).
Proof.
  intros Hread Hparse Hheight. unfold AstParser.parse_file.
  rewrite Hread. cbv beta iota delta [mbind result_bind]. rewrite Hparse.
  rewrite visit_depth, height_set_parent.
  destruct (Nat.leb_spec (height tree) stack_depth) as [_|Hlt]; [|lia].
  rewrite visit_set_parent. change (AstParser.set_parent (Some None)
    (with_parents tree)) with (annotated (None, tree)).
  destruct (emit_loop file_path text (AstParser.walk (annotated (None, tree))) [])
    as (docs & Hrun & Hdocs).
  assert (Hperm : Permutation
            (List.filter emits (AstParser.walk (annotated (None, tree))))
            (map annotated (List.filter is_unit (nodes_of tree)))).
  { rewrite <- filter_map_annotated. unfold nodes_of.
    rewrite <- subtree_annotated.
    apply filter_permutation, walk_subtree. }
  apply Permutation_map_inv in Hperm as (emitted & Heq & Hperm).
  exists docs, emitted. split; [exact Hrun|].
  split; [symmetry; exact Hperm|]. split.
  - rewrite Heq in Hdocs. apply Forall2_map_left in Hdocs.
    eapply Forall2_impl; [exact Hdocs|].
    intros pn doc. apply unit_of_annotated.
  - intros p n Hin.
    assert (Hunit : In (p, n) (List.filter is_unit (nodes_of tree))).
    { eapply Permutation_in; [symmetry; exact Hperm | exact Hin]. }
    apply filter_In in Hunit as [_ Hunit]. unfold is_unit in Hunit. simpl in Hunit.
    destruct (AstParser.kind n); try discriminate; [left; reflexivity|].
    right. split; [reflexivity|].
    destruct p as [[]|]; try discriminate. reflexivity.
Qed.

Lemma units_are_classes_and_top_level_functions_witness :
  exists (docs : list document)
         (emitted : list (option AstParser.node_kind * AstParser.node)),
    AstParser.parse_file (fun _ => Ok sample_text) (fun _ => Ok sample_tree) 1000
      (s2l "sample.py") = Ok docs /\
    Permutation emitted (List.filter is_unit (nodes_of sample_tree)) /\
    Forall2 (fun pn doc => unit_of_node (snd pn) doc) emitted docs.
Proof.
  destruct (units_are_classes_and_top_level_functions
              (fun _ => Ok sample_text) (fun _ => Ok sample_tree) 1000
              (s2l "sample.py") sample_text sample_tree eq_refl eq_refl
              ltac:(vm_compute; lia))
    as (docs & emitted & Hrun & Hperm & Hdocs & _).
  exists docs, emitted. repeat split; assumption.
Defined.

(** On the sample, the units are the class [A] and the function [f]; the
    method [m] and the nested function [g] give none. *)
Example sample_units :
  match AstParser.parse_file (fun _ => Ok sample_text) (fun _ => Ok sample_tree) 1000
          (s2l "sample.py") with
  | Ok docs => map (fun doc => doc_metadata doc !! "name"%string) docs
  | Raise _ => []
  end = [Some (VStr (s2l "A")); Some (VStr (s2l "f"))].
Proof. vm_compute. reflexivity. Qed.

(** ** The vector store: add *)

(** An [add_documents] whose vectors do not have the dimension of the
    index raises, after the metadata of the documents has been appended:
    the index is unchanged and the metadata list is longer. *)
Lemma mismatched_add (self : FaissVectorStore.t) (dk : FaissVectorStore.disk)
    (documents : list document) (embeddings : ndarray) (ix : IndexFlatL2.t) :
  FaissVectorStore.index self = Some ix ->
  shape1 embeddings <> IndexFlatL2.d ix ->
  FaissVectorStore.add_documents self dk documents embeddings =
    (Raise AssertionError,
     {| FaissVectorStore.index := Some ix;
        FaissVectorStore.metadata :=
          FaissVectorStore.metadata self ++ map doc_metadata documents;
        FaissVectorStore.dimension := FaissVectorStore.dimension self |},
     dk).
Proof.
  intros Hix Hdim. unfold FaissVectorStore.add_documents.
  rewrite Hix. simpl. rewrite Hix. unfold IndexFlatL2.add.
  destruct (Z.eqb_spec (shape1 embeddings) (IndexFlatL2.d ix)); [contradiction|].
  reflexivity.
Qed.

(** C1. Adding one document with a three-dimensional vector to an empty
    two-dimensional store raises, and afterwards the store holds one
    metadata record and no vector. *)
Theorem mismatched_add_breaks_slot_count :
  exists after : FaissVectorStore.t,
    FaissVectorStore.add_documents two_dim_store empty_disk [one_chunk]
      (NdArray 3 [floats [1; 2; 3]]) = (Raise AssertionError, after, empty_disk) /\
    len (FaissVectorStore.metadata two_dim_store) = 0 /\
    len (FaissVectorStore.metadata after) = 1 /\
    (IndexFlatL2.ntotal <$> FaissVectorStore.index after) = Some 0.
Proof. eexists. repeat split. Qed.

(** ** The vector store: load *)

(** C4, as stated, fails twice.  With a readable index file and a missing
    metadata file, [load] fails but has replaced the in-memory index; and
    a load of an index with one vector and a metadata file with no record
    succeeds. *)
Lemma load_is_not_atomic :
  (let dk := {| FaissVectorStore.index_file := Ok one_vector_index;
                FaissVectorStore.metadata_file := Raise OSError;
                FaissVectorStore.writing := FaissVectorStore.all_written |} in
   fst (FaissVectorStore.load two_dim_store dk) = Ok false /\
   snd (FaissVectorStore.load two_dim_store dk) <> two_dim_store) /\
  (let dk := {| FaissVectorStore.index_file := Ok one_vector_index;
                FaissVectorStore.metadata_file := Ok [];
                FaissVectorStore.writing := FaissVectorStore.all_written |} in
   fst (FaissVectorStore.load two_dim_store dk) = Ok true /\
   (IndexFlatL2.ntotal <$>
      FaissVectorStore.index (snd (FaissVectorStore.load two_dim_store dk)))
     = Some 1 /\
   len (FaissVectorStore.metadata (snd (FaissVectorStore.load two_dim_store dk)))
     = 0).
Proof.
  split; simpl.
  - split; [reflexivity|]. intros H. discriminate H.
  - repeat split.
Qed.

(** C4, amended.  When the index file cannot be read, [load] fails and
    the in-memory state is unchanged.  When the metadata file cannot be
    read, [load] fails and the in-memory metadata is unchanged.  [load]
    succeeds exactly when both files are read, and then installs the index
    and the metadata as read; the two slot counts are not compared. *)
Theorem load_outcomes (self : FaissVectorStore.t) (dk : FaissVectorStore.disk) :
  (forall e, FaissVectorStore.index_file dk = Raise e ->
     fst (FaissVectorStore.load self dk) <> Ok true /\
     snd (FaissVectorStore.load self dk) = self) /\
  (forall e, FaissVectorStore.metadata_file dk = Raise e ->
     fst (FaissVectorStore.load self dk) <> Ok true /\
     FaissVectorStore.metadata (snd (FaissVectorStore.load self dk)) =
       FaissVectorStore.metadata self) /\
  (fst (FaissVectorStore.load self dk) = Ok true <->
     exists ix md, FaissVectorStore.index_file dk = Ok ix /\
                   FaissVectorStore.metadata_file dk = Ok md) /\
  (forall ix md,
     FaissVectorStore.index_file dk = Ok ix ->
     FaissVectorStore.metadata_file dk = Ok md ->
     FaissVectorStore.load self dk =
       (Ok true,
        {| FaissVectorStore.index := Some ix;
           FaissVectorStore.metadata := md;
           FaissVectorStore.dimension := FaissVectorStore.dimension self |})).
Proof.
  unfold FaissVectorStore.load.
  destruct (FaissVectorStore.index_file dk) as [ix|e1] eqn:Hix;
    destruct (FaissVectorStore.metadata_file dk) as [md|e2] eqn:Hmd; simpl.
  - split; [intros e H; discriminate H|].
    split; [intros e H; discriminate H|].
    split; [split; [eauto|reflexivity]|].
    intros ix' md' [= ->] [= ->]. reflexivity.
  - split; [intros e H; discriminate H|].
    split; [intros e _; split; [not_loaded|reflexivity]|].
    split; [split; [not_loaded|intros (? & ? & _ & H); discriminate H]|].
    intros ix' md' _ H. discriminate H.
  - split; [intros e _; split; [not_loaded|reflexivity]|].
    split; [intros e H; discriminate H|].
    split; [split; [not_loaded|intros (? & ? & H & _); discriminate H]|].
    intros ix' md' H. discriminate H.
  - split; [intros e _; split; [not_loaded|reflexivity]|].
    split; [intros e _; split; [not_loaded|reflexivity]|].
    split; [split; [not_loaded|intros (? & ? & H & _); discriminate H]|].
    intros ix' md' H. discriminate H.
Qed.

Lemma load_outcomes_witness :
  FaissVectorStore.load two_dim_store
    {| FaissVectorStore.index_file := Ok one_vector_index;
       FaissVectorStore.metadata_file := Ok [class_metadata];
       FaissVectorStore.writing := FaissVectorStore.all_written |} =
  (Ok true,
   {| FaissVectorStore.index := Some one_vector_index;
      FaissVectorStore.metadata := [class_metadata];
      FaissVectorStore.dimension := 2 |}).
Proof.
  exact (proj2 (proj2 (proj2 (load_outcomes two_dim_store
           {| FaissVectorStore.index_file := Ok one_vector_index;
              FaissVectorStore.metadata_file := Ok [class_metadata];
              FaissVectorStore.writing := FaissVectorStore.all_written |})))
         one_vector_index [class_metadata] eq_refl eq_refl).
Defined.

(** ** The order of floats *)

Lemma leb_key (a b : float) :
  Float.leb a b = true <->
  exists x y, float_key a = Some x /\ float_key b = Some y /\ key_le x y.
Proof.
  unfold Float.leb, SpecFloat.SFleb, SpecFloat.SFcompare.
  destruct a as [sa|sa| |sa ma ea], b as [sb|sb| |sb mb eb];
    try destruct sa; try destruct sb;
    try change (Pos.compare_cont Eq ma mb) with (Pos.compare ma mb);
    try destruct (Z.compare_spec ea eb); try destruct (Pos.compare_spec ma mb);
    cbn [CompOpp];
    (split; [first [discriminate | key_yes] | first [reflexivity | key_no]]).
Qed.

Lemma key_le_trans (x y z : Z * Z * Z) : key_le x y -> key_le y z -> key_le x z.
Proof. destruct x as [[? ?] ?], y as [[? ?] ?], z as [[? ?] ?]. simpl. lia. Qed.

Lemma key_le_total (x y : Z * Z * Z) : key_le x y \/ key_le y x.
Proof. destruct x as [[? ?] ?], y as [[? ?] ?]. simpl. lia. Qed.

Lemma float_key_number (a : float) :
  Float.is_nan a = false -> exists x, float_key a = Some x.
Proof. destruct a as [?|[]| |[] ? ?]; try discriminate; simpl; eauto. Qed.

Lemma leb_trans (a b c : float) :
  Float.leb a b = true -> Float.leb b c = true -> Float.leb a c = true.
Proof.
  rewrite !leb_key. intros (x & y & Hx & Hy & Hxy) (y' & z & Hy' & Hz & Hyz).
  rewrite Hy in Hy'. injection Hy' as <-.
  exists x, z. split; [assumption|]. split; [assumption|].
  eapply key_le_trans; eassumption.
Qed.

Lemma leb_total (a b : float) :
  Float.is_nan a = false -> Float.is_nan b = false ->
  Float.leb a b = true \/ Float.leb b a = true.
Proof.
  intros Ha Hb. rewrite !leb_key.
  destruct (float_key_number a Ha) as [x Hx].
  destruct (float_key_number b Hb) as [y Hy].
  destruct (key_le_total x y); [left; exists x, y|right; exists y, x]; auto.
Qed.

Lemma leb_refl (a : float) : Float.is_nan a = false -> Float.leb a a = true.
Proof. intros Ha. destruct (leb_total a a Ha Ha); assumption. Qed.

Lemma ltb_number (a b : float) : Float.ltb a b = true -> Float.is_nan a = false.
Proof. destruct a, b; try reflexivity; discriminate. Qed.

Lemma leb_number (a b : float) :
  Float.leb a b = true -> Float.is_nan a = false /\ Float.is_nan b = false.
Proof. destruct a, b; split; try reflexivity; discriminate. Qed.

(** ** The vector store: search *)

Lemma insert_hit_perm (h : float * Z) (l : list (float * Z)) :
  Permutation (IndexFlatL2.insert_hit h l) (h :: l).
Proof.
  induction l as [|x l IH]; simpl; [reflexivity|].
  destruct (Float.leb (fst h) (fst x)); [reflexivity|].
  rewrite IH. apply perm_swap.
Qed.

Lemma sort_hits_perm (l : list (float * Z)) :
  Permutation (IndexFlatL2.sort_hits l) l.
Proof.
  induction l as [|h l IH]; simpl; [reflexivity|].
  rewrite insert_hit_perm. constructor. exact IH.
Qed.

Lemma insert_hit_sorted (h : float * Z) (l : list (float * Z)) :
  Float.is_nan (fst h) = false ->
  Forall (fun p => Float.is_nan (fst p) = false) l ->
  StronglySorted by_distance l ->
  StronglySorted by_distance (IndexFlatL2.insert_hit h l).
Proof.
  intros Hh Hl Hsorted. induction Hsorted as [|x l Hsorted IH Hx]; simpl.
  - repeat constructor.
  - apply Forall_cons in Hl as [Hxn Hl].
    destruct (Float.leb (fst h) (fst x)) eqn:Hle.
    + constructor; [constructor; assumption|].
      constructor; [exact Hle|].
      eapply Forall_impl; [exact Hx|].
      intros y Hy. unfold by_distance in *. eapply leb_trans; eassumption.
    + constructor; [exact (IH Hl)|].
      rewrite insert_hit_perm. constructor; [|exact Hx].
      unfold by_distance. destruct (leb_total (fst h) (fst x) Hh Hxn); congruence.
Qed.

Lemma sort_hits_sorted (l : list (float * Z)) :
  Forall (fun p => Float.is_nan (fst p) = false) l ->
  StronglySorted by_distance (IndexFlatL2.sort_hits l).
Proof.
  induction 1 as [|h l Hh Hl IH]; simpl; [constructor|].
  apply insert_hit_sorted; [exact Hh| |exact IH].
  rewrite sort_hits_perm. exact Hl.
Qed.

(** A reported distance is a number. *)
Lemma reported_numbers (l : list (float * Z)) :
  Forall (fun p => Float.is_nan (fst p) = false)
         (List.filter IndexFlatL2.reported l).
Proof.
  apply Forall_forall. intros p Hp. apply list_elem_of_In, filter_In in Hp as [_ Hp].
  eapply ltb_number, Hp.
Qed.

(** Every scored pair is a stored vector with its slot. *)
Lemma scored_slots (fvec_L2sqr : vector -> vector -> float)
    (ix : IndexFlatL2.t) (q : vector) (p : float * Z) :
  In p (IndexFlatL2.scored fvec_L2sqr ix q) ->
  exists (i : nat) (v : vector),
    IndexFlatL2.xb ix !! i = Some v /\
    p = (fvec_L2sqr q v, Z.of_nat i).
Proof.
  unfold IndexFlatL2.scored. intros Hin.
  apply list_elem_of_In, list_elem_of_lookup in Hin as [i Hi].
  rewrite list_lookup_imap in Hi.
  destruct (IndexFlatL2.xb ix !! i) as [v|] eqn:Hv; [|discriminate].
  simpl in Hi. injection Hi as <-. eauto.
Qed.

Lemma length_scored (fvec_L2sqr : vector -> vector -> float)
    (ix : IndexFlatL2.t) (q : vector) :
  length (IndexFlatL2.scored fvec_L2sqr ix q) = length (IndexFlatL2.xb ix).
Proof. unfold IndexFlatL2.scored. apply length_imap. Qed.

Lemma collect_pairs_cons (md : list dict) (dist : float) (idx : Z)
    (l : list (float * Z)) :
  collect_pairs md ((dist, idx) :: l) =
  if (idx <? 0) || (len md <=? idx) then collect_pairs md l
  else match md !! Z.to_nat idx with
       | Some m => {| FaissVectorStore.hit_metadata := m;
                      FaissVectorStore.distance := dist |} :: collect_pairs md l
       | None => collect_pairs md l
       end.
Proof. reflexivity. Qed.

Lemma collect_pairs_app (md : list dict) (a b : list (float * Z)) :
  collect_pairs md (a ++ b) = collect_pairs md a ++ collect_pairs md b.
Proof.
  induction a as [|[dist idx] a IH]; [reflexivity|].
  rewrite <- app_comm_cons, !collect_pairs_cons.
  destruct ((idx <? 0) || (len md <=? idx)); [exact IH|].
  destruct (md !! Z.to_nat idx); [|exact IH].
  simpl. f_equal. exact IH.
Qed.

Lemma collect_pairs_invalid (md : list dict) (l : list (float * Z)) :
  Forall (fun p => snd p < 0 \/ len md <= snd p) l -> collect_pairs md l = [].
Proof.
  induction 1 as [|[dist idx] l Hp _ IH]; [reflexivity|].
  rewrite collect_pairs_cons. simpl in Hp.
  destruct (Z.ltb_spec idx 0), (Z.leb_spec (len md) idx); simpl; try exact IH.
  lia.
Qed.

Lemma collect_pairs_valid (md : list dict) (l : list (float * Z)) :
  Forall (fun p => 0 <= snd p < len md) l ->
  Forall2 (hit_of md) l (collect_pairs md l).
Proof.
  induction 1 as [|[dist idx] l Hp _ IH]; [constructor|].
  rewrite collect_pairs_cons. simpl in Hp.
  destruct (Z.ltb_spec idx 0); [lia|].
  destruct (Z.leb_spec (len md) idx); [lia|]. simpl.
  destruct (md !! Z.to_nat idx) as [m|] eqn:Hm.
  - constructor; [split; [reflexivity|exact Hm]|exact IH].
  - apply lookup_ge_None in Hm. unfold len in *. lia.
Qed.

(** A collected hit comes from a pair of the list, with a label inside
    [0, len(metadata)). *)
Lemma collect_pairs_from (md : list dict) (l : list (float * Z))
    (h : FaissVectorStore.hit) :
  In h (collect_pairs md l) ->
  exists p, In p l /\ hit_of md p h /\ 0 <= snd p < len md.
Proof.
  induction l as [|[dist idx] l IH]; [contradiction|].
  rewrite collect_pairs_cons. intros Hin.
  assert (In h (collect_pairs md l) ->
          exists p, In p ((dist, idx) :: l) /\ hit_of md p h /\ 0 <= snd p < len md)
    as Hrest.
  { intros H. destruct (IH H) as (p & Hp & Hh). exists p. split; [right|]; assumption. }
  destruct (Z.ltb_spec idx 0); [auto|].
  destruct (Z.leb_spec (len md) idx); [auto|]. simpl in Hin.
  destruct (md !! Z.to_nat idx) as [m|] eqn:Hm; [|auto].
  destruct Hin as [<-|Hin]; [|auto].
  exists (dist, idx). split; [left; reflexivity|].
  split; [split; [reflexivity|exact Hm]|simpl; lia].
Qed.

Lemma length_collect_pairs (md : list dict) (l : list (float * Z)) :
  (length (collect_pairs md l) <= length l)%nat.
Proof.
  induction l as [|[dist idx] l IH]; [reflexivity|].
  rewrite collect_pairs_cons.
  destruct ((idx <? 0) || (len md <=? idx)); [simpl; lia|].
  destruct (md !! Z.to_nat idx); simpl; lia.
Qed.

(** The loop keeps the order of the pairs. *)
Lemma collect_pairs_sorted (md : list dict) (l : list (float * Z)) :
  StronglySorted by_distance l -> StronglySorted nearer (collect_pairs md l).
Proof.
  induction 1 as [|[dist idx] l Hsorted IH Hp]; [constructor|].
  rewrite collect_pairs_cons.
  destruct ((idx <? 0) || (len md <=? idx)); [exact IH|].
  destruct (md !! Z.to_nat idx) as [m|]; [|exact IH].
  constructor; [exact IH|].
  apply Forall_forall. intros h Hh. apply list_elem_of_In in Hh.
  destruct (collect_pairs_from md l h Hh) as (p & Hin & [Hd _] & _).
  rewrite Forall_forall in Hp. apply list_elem_of_In, Hp in Hin.
  unfold nearer, by_distance in *. simpl in *. rewrite Hd. exact Hin.
Qed.

(** Whatever the underlying search returns, a collected hit comes from a
    label inside [0, len(metadata)). *)
Lemma collect_in_range (md : list dict) (indices : list Z) (distances : list float)
    (h : FaissVectorStore.hit) :
  In h (FaissVectorStore.collect md indices distances) ->
  exists (i : nat) (idx : Z),
    indices !! i = Some idx /\
    distances !! i = Some (FaissVectorStore.distance h) /\
    0 <= idx < len md /\
    md !! Z.to_nat idx = Some (FaissVectorStore.hit_metadata h).
Proof.
  revert distances. induction indices as [|idx indices IH];
    intros [|dist distances] Hin; try contradiction.
  assert (Hrest : In h (FaissVectorStore.collect md indices distances) ->
    exists (i : nat) (idx0 : Z),
      (idx :: indices) !! i = Some idx0 /\
      (dist :: distances) !! i = Some (FaissVectorStore.distance h) /\
      0 <= idx0 < len md /\
      md !! Z.to_nat idx0 = Some (FaissVectorStore.hit_metadata h)).
  { intros H. destruct (IH _ H) as (i & idx0 & ? & ? & ? & ?).
    exists (S i), idx0. auto. }
  simpl in Hin.
  destruct (Z.ltb_spec idx 0); [auto|].
  destruct (Z.leb_spec (len md) idx); [auto|]. simpl in Hin.
  destruct (md !! Z.to_nat idx) as [m|] eqn:Hm; [|auto].
  destruct Hin as [<-|Hin]; [|auto].
  exists 0%nat, idx. simpl. repeat split; auto; lia.
Qed.

Lemma sorted_take {A} (R : A -> A -> Prop) (l : list A) (n : nat) :
  StronglySorted R l -> StronglySorted R (firstn n l).
Proof.
  intros Hl. revert n. induction Hl as [|x l _ IH Hx]; intros [|n]; simpl;
    try constructor; [apply IH | apply Forall_take, Hx].
Qed.

(** The search of the store on a store with an index, for a query of the
    dimension of the index: the hits are collected from the first [k]
    pairs of the ranking of the reported distances. *)
Lemma search_ranking (fvec_L2sqr : vector -> vector -> float)
    (self : FaissVectorStore.t) (ix : IndexFlatL2.t) (q : vector) (k : Z) :
  FaissVectorStore.index self = Some ix ->
  len q = IndexFlatL2.d ix ->
  1 <= k ->
  FaissVectorStore.search fvec_L2sqr self q (Some k) =
    Ok (collect_pairs (FaissVectorStore.metadata self)
          (firstn (Z.to_nat k)
             (IndexFlatL2.sort_hits
                (List.filter IndexFlatL2.reported
                   (IndexFlatL2.scored fvec_L2sqr ix q))))).
Proof.
  intros Hix Hq Hk. unfold FaissVectorStore.search. rewrite Hix.
  destruct (Z.eqb_spec (IndexFlatL2.ntotal ix) 0) as [Hzero|Hn].
  - unfold IndexFlatL2.ntotal, len in Hzero. unfold IndexFlatL2.scored.
    destruct (IndexFlatL2.xb ix); [|simpl in Hzero; lia].
    simpl. rewrite take_nil. reflexivity.
  - unfold IndexFlatL2.search.
    destruct (Z.eqb_spec (len q) (IndexFlatL2.d ix)); [|contradiction].
    destruct (Z.leb_spec k 0); [lia|]. simpl.
    set (ranking := IndexFlatL2.sort_hits _).
    fold (collect_pairs (FaissVectorStore.metadata self)
            (firstn (Z.to_nat k)
               (ranking ++ repeat (IndexFlatL2.FLT_MAX, -1) (Z.to_nat k)))).
    rewrite take_app, collect_pairs_app.
    rewrite (collect_pairs_invalid _ (firstn _ (repeat _ _))).
    + rewrite app_nil_r. reflexivity.
    + apply Forall_take, Forall_forall. intros p Hp.
      apply list_elem_of_In, repeat_spec in Hp as ->. simpl. lia.
Qed.

(** C5, as stated, fails: [search] can return fewer than [min n k]
    results.  On a store with one vector and no metadata record, as
    [load] installs it from disagreeing files, a search for one result
    returns none; and a stored vector whose squared distance to the
    query overflows binary32 is never returned: of two stored vectors,
    a search for two returns one. *)
Lemma search_returns_fewer_than_min :
  FaissVectorStore.search fvec_L2sqr_ref store_without_metadata
    (floats [0; 0]) (Some 1) = Ok [] /\
  FaissVectorStore.search fvec_L2sqr_ref store_with_far_vector
    (floats [0]) (Some 2) =
    Ok [{| FaissVectorStore.hit_metadata := <["name"%string := VStr (s2l "near")]> ∅;
           FaissVectorStore.distance := Float.of_Z 9 |}].
Proof. split; vm_compute; reflexivity. Qed.

(** C5, amended. [search] on a store without vectors returns the empty
    list.  On a store whose index holds [n] vectors, for a query of the
    index's dimension and [k >= 1], it ranks the stored vectors whose
    distance, as faiss computes it, is below [FLT_MAX] by ascending
    distance, and returns, in that order, those of the first [k] whose
    slot has a metadata record: at most [min n k] hits, nearest first,
    each with the metadata of its slot and the distance of its vector.
    They are exactly [min n k] when every vector has a metadata record
    and every distance is below [FLT_MAX].  Whatever labels the
    underlying search returns, a label that is negative or not below the
    number of metadata records gives no hit. *)
Theorem search_contract (fvec_L2sqr : vector -> vector -> float) :
  (forall (self : FaissVectorStore.t) (q : vector) (k : option Z),
     (FaissVectorStore.index self = None \/
      IndexFlatL2.ntotal <$> FaissVectorStore.index self = Some 0) ->
     FaissVectorStore.search fvec_L2sqr self q k = Ok []) /\
  (forall (self : FaissVectorStore.t) (ix : IndexFlatL2.t) (q : vector) (k : Z),
     FaissVectorStore.index self = Some ix ->
     len q = IndexFlatL2.d ix ->
     1 <= k ->
     exists (hits : list FaissVectorStore.hit) (ranking : list (float * Z)),
       FaissVectorStore.search fvec_L2sqr self q (Some k) = Ok hits /\
       Permutation ranking
         (List.filter IndexFlatL2.reported (IndexFlatL2.scored fvec_L2sqr ix q)) /\
       StronglySorted by_distance ranking /\
       hits = collect_pairs (FaissVectorStore.metadata self)
                (firstn (Z.to_nat k) ranking) /\
       StronglySorted nearer hits /\
       Forall (fun h => exists (slot : nat) (v : vector),
                 IndexFlatL2.xb ix !! slot = Some v /\
                 FaissVectorStore.metadata self !! slot
                   = Some (FaissVectorStore.hit_metadata h) /\
                 FaissVectorStore.distance h = fvec_L2sqr q v) hits /\
       len hits <= Z.min (IndexFlatL2.ntotal ix) k /\
       (IndexFlatL2.ntotal ix <= len (FaissVectorStore.metadata self) ->
        Forall (fun v => Float.ltb (fvec_L2sqr q v) IndexFlatL2.FLT_MAX = true)
               (IndexFlatL2.xb ix) ->
        len hits = Z.min (IndexFlatL2.ntotal ix) k)) /\
  (forall (md : list dict) (indices : list Z) (distances : list float)
          (h : FaissVectorStore.hit),
     In h (FaissVectorStore.collect md indices distances) ->
     exists (i : nat) (idx : Z),
       indices !! i = Some idx /\
       distances !! i = Some (FaissVectorStore.distance h) /\
       0 <= idx < len md /\
       md !! Z.to_nat idx = Some (FaissVectorStore.hit_metadata h)).
Proof.
  split; [|split].
  - intros self q k Hempty. unfold FaissVectorStore.search.
    destruct (FaissVectorStore.index self) as [ix|]; [|reflexivity].
    destruct Hempty as [H|H]; [discriminate H|].
    simpl in H. injection H as ->. reflexivity.
  - intros self ix q k Hix Hq Hk.
    set (reported := List.filter IndexFlatL2.reported
                       (IndexFlatL2.scored fvec_L2sqr ix q)).
    set (ranking := IndexFlatL2.sort_hits reported).
    assert (StronglySorted by_distance ranking) as Hsorted
      by apply sort_hits_sorted, reported_numbers.
    assert (length ranking <= length (IndexFlatL2.xb ix))%nat as Hlen.
    { unfold ranking. rewrite (Permutation_length (sort_hits_perm _)).
      unfold reported. rewrite <- (length_scored fvec_L2sqr ix q).
      apply List.filter_length_le. }
    exists (collect_pairs (FaissVectorStore.metadata self)
              (firstn (Z.to_nat k) ranking)), ranking.
    split; [apply search_ranking; assumption|].
    split; [apply sort_hits_perm|]. split; [exact Hsorted|].
    split; [reflexivity|].
    split; [apply collect_pairs_sorted, sorted_take, Hsorted|].
    assert (forall p, In p ranking ->
              exists (i : nat) (v : vector),
                IndexFlatL2.xb ix !! i = Some v /\ p = (fvec_L2sqr q v, Z.of_nat i))
      as Hslots.
    { intros p Hp. eapply Permutation_in in Hp; [|apply sort_hits_perm].
      apply filter_In in Hp as [Hp _]. eapply scored_slots, Hp. }
    assert (forall p, In p (firstn (Z.to_nat k) ranking) -> In p ranking) as Htake.
    { intros p Hp. rewrite <- (firstn_skipn (Z.to_nat k) ranking).
      apply in_or_app. left. exact Hp. }
    split; [|split].
    + apply Forall_forall. intros h Hh. apply list_elem_of_In in Hh.
      destruct (collect_pairs_from _ _ h Hh) as (p & Hp & [Hd Hm] & _).
      destruct (Hslots p (Htake p Hp)) as (i & v & Hv & ->).
      simpl in Hd, Hm. rewrite Nat2Z.id in Hm. exists i, v. auto.
    + pose proof (length_collect_pairs (FaissVectorStore.metadata self)
                    (firstn (Z.to_nat k) ranking)) as Hhits.
      rewrite length_take in Hhits.
      unfold IndexFlatL2.ntotal, len. lia.
    + intros Hmd Hall.
      assert (reported = IndexFlatL2.scored fvec_L2sqr ix q) as Hkept.
      { unfold reported. apply forallb_filter_id, forallb_forall.
        intros p Hp. destruct (scored_slots _ _ _ _ Hp) as (i & v & Hv & ->).
        rewrite Forall_forall in Hall. apply Hall.
        eapply list_elem_of_lookup_2, Hv. }
      assert (length ranking = length (IndexFlatL2.xb ix)) as Hfull.
      { unfold ranking. rewrite (Permutation_length (sort_hits_perm _)), Hkept.
        apply length_scored. }
      assert (Forall2 (hit_of (FaissVectorStore.metadata self))
                (firstn (Z.to_nat k) ranking)
                (collect_pairs (FaissVectorStore.metadata self)
                   (firstn (Z.to_nat k) ranking))) as Hhits.
      { apply collect_pairs_valid, Forall_forall. intros p Hp.
        apply list_elem_of_In in Hp.
        destruct (Hslots p (Htake p Hp)) as (i & v & Hv & ->). simpl.
        apply lookup_lt_Some in Hv.
        unfold IndexFlatL2.ntotal, len in *. lia. }
      apply Forall2_length in Hhits. unfold len. rewrite <- Hhits, length_take.
      unfold IndexFlatL2.ntotal, len. lia.
  - apply collect_in_range.
Qed.

Lemma search_contract_witness :
  exists hits : list FaissVectorStore.hit,
    FaissVectorStore.search fvec_L2sqr_ref three_vector_store (floats [0; 0])
      (Some 5) = Ok hits /\
    len hits = 3.
Proof.
  destruct (proj1 (proj2 (search_contract fvec_L2sqr_ref)) three_vector_store
              {| IndexFlatL2.d := 2;
                 IndexFlatL2.xb := [floats [3; 4]; floats [0; 0]; floats [1; 0]] |}
              (floats [0; 0]) 5 eq_refl eq_refl ltac:(lia))
    as (hits & ranking & Hrun & _ & _ & _ & _ & _ & _ & Hlen).
  exists hits. split; [exact Hrun|].
  apply Hlen; [vm_compute; discriminate|].
  repeat constructor.
Defined.

(** With [k = 2], the two nearest of the three vectors, nearest first. *)
Example search_two_nearest :
  FaissVectorStore.search fvec_L2sqr_ref three_vector_store (floats [0; 0]) (Some 2) =
    Ok [{| FaissVectorStore.hit_metadata := <["name"%string := VStr (s2l "here")]> ∅;
           FaissVectorStore.distance := Float.of_Z 0 |};
        {| FaissVectorStore.hit_metadata := <["name"%string := VStr (s2l "near")]> ∅;
           FaissVectorStore.distance := Float.of_Z 1 |}].
Proof. vm_compute. reflexivity. Qed.

(** ** The retriever *)















(** * Further properties of the code *)

(** ** Loops in the exception monad *)

(** A loop whose body keeps an invariant and never raises under it
    returns, and the invariant holds at the end. *)
Lemma for_each_invariant {A S} (body : S -> A -> result S) (I : S -> Prop)
    (xs : list A) :
  (forall s x, In x xs -> I s -> exists s', body s x = Ok s' /\ I s') ->
  forall acc, I acc -> exists s', for_each body xs acc = Ok s' /\ I s'.
Proof.
  induction xs as [|x xs IH]; intros Hbody acc Hacc.
  - exists acc. split; [reflexivity|assumption].
  - destruct (Hbody acc x (or_introl eq_refl) Hacc) as (s1 & Hs1 & HI1).
    cbn [for_each]. rewrite Hs1. cbn [mbind result_bind].
    apply IH; [|assumption]. intros s y Hy. apply Hbody. right. assumption.
Qed.

(** A loop over a non-empty list ends in a state that its last iteration
    produced. *)
Lemma for_each_last {A S} (body : S -> A -> result S) (P : S -> Prop)
    (xs : list A) (acc s' : S) :
  xs <> [] ->
  (forall s x s1, In x xs -> body s x = Ok s1 -> P s1) ->
  for_each body xs acc = Ok s' -> P s'.
Proof.
  revert acc. induction xs as [|x xs IH]; intros acc Hne Hbody Hrun; [done|].
  cbn [for_each] in Hrun.
  destruct (body acc x) as [s1|e] eqn:Hs1; [|discriminate Hrun].
  cbn [mbind result_bind] in Hrun.
  destruct xs as [|y xs].
  - injection Hrun as <-. eapply Hbody; [left; reflexivity|exact Hs1].
  - eapply IH; [done| |exact Hrun].
    intros s z s2 Hz. apply Hbody. right. assumption.
Qed.

(** ** Splitting on a separator of any length *)

Lemma startswith_app (s p : str) :
  startswith s p = true -> s = p ++ skipn (length p) s.
Proof.
  revert s. induction p as [|a p IH]; intros s H; [reflexivity|].
  destruct s as [|b s]; [discriminate H|]. simpl in H.
  apply andb_true_iff in H as [Hab Hrest].
  apply Ascii.eqb_eq in Hab as ->. simpl. f_equal. apply IH, Hrest.
Qed.

Lemma join_split_go (sep : str) (s : str) :
  sep <> [] -> forall skip, join sep (split_go sep skip s) = skipn skip s.
Proof.
  intros Hsep. induction s as [|c s IH]; intros skip.
  - destruct skip; reflexivity.
  - cbn [split_go]. destruct skip as [|k]; [|apply IH].
    destruct (startswith (c :: s) sep) eqn:Hstart.
    + rewrite join_cons by apply split_go_nonempty. rewrite IH.
      apply startswith_app in Hstart.
      destruct sep as [|a sep]; [done|]. simpl in Hstart |- *.
      rewrite Nat.sub_0_r. symmetry. exact Hstart.
    + rewrite join_cons_head by apply split_go_nonempty. rewrite IH. reflexivity.
Qed.

(** [sep.join(s.split(sep)) == s] for every non-empty separator. *)
Lemma join_split (sep s : str) : sep <> [] -> join sep (split sep s) = s.
Proof. intros Hsep. unfold split. rewrite join_split_go by assumption. reflexivity. Qed.

(** ** The text splitter *)

Lemma simple_chunk_returns (self : Chunker.t) (content : str) :
  Chunker.chunk_size self <> 0 ->
  exists slices, Chunker._simple_chunk_by_size self content = Ok slices.
Proof.
  intros Hcs. unfold Chunker._simple_chunk_by_size, range0.
  destruct (len content <=? Chunker.chunk_size self); [eauto|].
  destruct (Z.eqb_spec (Chunker.chunk_size self) 0); [contradiction|].
  destruct (_ || _); simpl; eauto.
Qed.

Lemma simple_chunk_bounded (self : Chunker.t) (content : str) (slices : list str) :
  0 < Chunker.chunk_size self ->
  Chunker._simple_chunk_by_size self content = Ok slices ->
  slices <> [] /\ Forall (fun s => len s <= Chunker.chunk_size self) slices.
Proof.
  intros Hcs Hrun.
  destruct (Z.le_gt_cases (len content) (Chunker.chunk_size self)) as [Hfit|Hbig].
  - unfold Chunker._simple_chunk_by_size in Hrun.
    destruct (Z.leb_spec (len content) (Chunker.chunk_size self)); [|lia].
    injection Hrun as <-. split; [done|]. constructor; [assumption|constructor].
  - rewrite simple_chunks_windows in Hrun by lia. injection Hrun as <-.
    split.
    + intros Hnil. apply (f_equal length) in Hnil.
      rewrite length_windows in Hnil. simpl in Hnil.
      pose proof (Z.div_pos (len content - 1) (Chunker.chunk_size self)
                    ltac:(lia) Hcs). lia.
    + apply Forall_forall. intros s Hs.
      apply list_elem_of_lookup in Hs as [i Hi].
      apply windows_lookup in Hi as ->. unfold len.
      rewrite length_take. lia.
Qed.

Lemma weight_app (a b : list str) : weight (a ++ b) = weight a + weight b.
Proof. induction a as [|p a IH]; simpl; lia. Qed.

Lemma weight_nonneg (a : list str) : 0 <= weight a.
Proof. induction a as [|p a IH]; simpl; unfold len in *; lia. Qed.

(** Joined with a two-character separator, pieces take less than twice
    their weight. *)
Lemma len_join_weight (pieces : list str) :
  pieces <> [] ->
  len (join Chunker.paragraph_sep pieces) <= 2 * weight pieces - 2.
Proof.
  induction pieces as [|p pieces IH]; [done|]. intros _.
  destruct pieces as [|q pieces].
  - simpl. unfold len. lia.
  - rewrite join_cons by done. specialize (IH ltac:(done)).
    change (weight (p :: q :: pieces)) with (len p + 1 + weight (q :: pieces)).
    unfold len, Chunker.paragraph_sep in *. rewrite !length_app.
    change (length [newline; newline]) with 2%nat. lia.
Qed.

Lemma len_join_paragraphs (pieces : list str) :
  pieces <> [] ->
  len (join Chunker.paragraph_sep pieces) =
    fold_right (fun p acc => len p + 2 + acc) 0 pieces - 2.
Proof.
  induction pieces as [|p pieces IH]; [done|]. intros _.
  destruct pieces as [|q pieces].
  - simpl. unfold len. lia.
  - rewrite join_cons by done. specialize (IH ltac:(done)).
    cbn [fold_right] in *. unfold len, Chunker.paragraph_sep in *.
    rewrite !length_app. change (length [newline; newline]) with 2%nat. lia.
Qed.

Lemma re_split_go_nonempty (a b : bool) (s : str) :
  Chunker.re_split_go a b s <> [].
Proof.
  revert a b. induction s as [|c s IH]; intros a b; cbn [Chunker.re_split_go]; [done|].
  destruct (isspace c).
  - destruct b; [apply IH|]. destruct a; [done|].
    specialize (IH false false). destruct (Chunker.re_split_go false false s); done.
  - specialize (IH (Chunker.is_sentence_end c) false).
    destruct (Chunker.re_split_go _ false s); done.
Qed.

Lemma close_if_full_invariant (self : Chunker.t) (st : Chunker.text_state) (size : Z) :
  text_invariant self st ->
  text_invariant self (Chunker.close_if_full self st size) /\
  (Chunker.t_current (Chunker.close_if_full self st size) <> [] ->
   Chunker.t_size (Chunker.close_if_full self st size) + size
     <= Chunker.chunk_size self).
Proof.
  intros (Hchunks & Hweight & Hsize & Hzero).
  unfold Chunker.close_if_full, text_invariant.
  destruct (Z.ltb_spec (Chunker.chunk_size self) (Chunker.t_size st + size)).
  - destruct (Chunker.t_current st) as [|p cur] eqn:Hcur.
    + rewrite Hcur. split; [repeat split; assumption|]. done.
    + pose proof (weight_nonneg (p :: cur)) as Hw.
      pose proof (len_join_weight (p :: cur) ltac:(done)) as Hj.
      split; [|simpl; done]. repeat split; simpl; try lia.
      unfold Chunker.flush. apply Forall_app. split; [assumption|].
      constructor; [lia|constructor].
  - split; [repeat split; assumption|]. intros _. assumption.
Qed.

Lemma sentence_step_invariant (self : Chunker.t) (st : Chunker.text_state)
    (sentence : str) :
  0 < Chunker.chunk_size self ->
  text_invariant self st ->
  exists st', Chunker.sentence_step self st sentence = Ok st' /\
              text_invariant self st' /\ text_started st'.
Proof.
  intros Hcs Hinv. unfold Chunker.sentence_step.
  destruct (close_if_full_invariant self st (len sentence + 1) Hinv)
    as [(Hchunks & Hweight & Hsize & Hzero) Hroom].
  set (st1 := Chunker.close_if_full self st (len sentence + 1)) in *.
  destruct (Z.ltb_spec (Chunker.chunk_size self) (len sentence + 1)).
  - destruct (simple_chunk_returns self sentence ltac:(lia)) as [slices Hslices].
    rewrite Hslices. cbn [mbind result_bind].
    destruct (simple_chunk_bounded self sentence slices Hcs Hslices) as [Hne Hbound].
    eexists. split; [reflexivity|]. split.
    + repeat split; simpl; try lia.
      apply Forall_app. split.
      * unfold Chunker.flush_if_any, Chunker.flush.
        destruct (Chunker.t_current st1) as [|p cur] eqn:Hcur; [assumption|].
        apply Forall_app. split; [assumption|]. constructor; [|constructor].
        pose proof (len_join_weight (p :: cur) ltac:(done)). lia.
      * eapply Forall_impl; [exact Hbound|]. simpl. intros c Hc. lia.
    + left. simpl. intros Hnil. apply app_eq_nil in Hnil as [_ Hnil]. done.
  - eexists. split; [reflexivity|]. split.
    + repeat split; simpl.
      * assumption.
      * rewrite weight_app. simpl. lia.
      * destruct (Chunker.t_current st1) as [|p cur] eqn:Hcur.
        -- rewrite (Hzero eq_refl). lia.
        -- apply Hroom. done.
      * intros Hnil. apply app_eq_nil in Hnil as [_ Hnil]. done.
    + right. simpl. intros Hnil. apply app_eq_nil in Hnil as [_ Hnil]. done.
Qed.

Lemma paragraph_step_invariant (self : Chunker.t) (st : Chunker.text_state)
    (para : str) :
  0 < Chunker.chunk_size self ->
  text_invariant self st ->
  exists st', Chunker.paragraph_step self st para = Ok st' /\
              text_invariant self st' /\ text_started st'.
Proof.
  intros Hcs Hinv. unfold Chunker.paragraph_step.
  destruct (close_if_full_invariant self st (len para + 2) Hinv)
    as [Hinv1 Hroom].
  set (st1 := Chunker.close_if_full self st (len para + 2)) in *.
  destruct (Z.ltb_spec (Chunker.chunk_size self) (len para + 2)).
  - destruct (for_each_invariant (Chunker.sentence_step self)
                (text_invariant self) (Chunker.split_sentences para)) with (acc := st1)
      as (st' & Hrun & Hinv'); [|assumption|].
    + intros s x _ Hs.
      destruct (sentence_step_invariant self s x Hcs Hs) as (s' & ? & ? & _).
      eauto.
    + exists st'. split; [exact Hrun|]. split; [exact Hinv'|].
      eapply (for_each_last (Chunker.sentence_step self) text_started);
        [apply re_split_go_nonempty| |exact Hrun].
      intros s x s1 _ Hstep.
      destruct (Z.le_gt_cases 0 0) as [_|]; [|lia].
      unfold Chunker.sentence_step in Hstep.
      destruct (Chunker.chunk_size self <? len x + 1).
      * destruct (Chunker._simple_chunk_by_size self x) as [slices|e] eqn:Hsl;
          [|discriminate Hstep].
        injection Hstep as <-. left. simpl.
        destruct (simple_chunk_bounded self x slices Hcs Hsl) as [Hne _].
        intros Hnil. apply app_eq_nil in Hnil as [_ Hnil]. done.
      * injection Hstep as <-. right. simpl.
        intros Hnil. apply app_eq_nil in Hnil as [_ Hnil]. done.
  - destruct Hinv1 as (Hchunks & Hweight & Hsize & Hzero).
    eexists. split; [reflexivity|]. split.
    + repeat split; simpl.
      * assumption.
      * rewrite weight_app. simpl. lia.
      * destruct (Chunker.t_current st1) as [|p cur] eqn:Hcur.
        -- rewrite (Hzero eq_refl). lia.
        -- apply Hroom. done.
      * intros Hnil. apply app_eq_nil in Hnil as [_ Hnil]. done.
    + right. simpl. intros Hnil. apply app_eq_nil in Hnil as [_ Hnil]. done.
Qed.

(** For a positive [chunk_size], [_chunk_text] always returns at least
    one chunk, and no chunk has more than [max chunk_size (2 * chunk_size
    - 2)] characters. *)
Theorem chunk_text_bounded (self : Chunker.t) (text : str) :
  0 < Chunker.chunk_size self ->
  exists chunks : list str,
    Chunker._chunk_text self text = Ok chunks /\
    chunks <> [] /\
    Forall (fun c => len c <= Z.max (Chunker.chunk_size self)
                                   (2 * Chunker.chunk_size self - 2)) chunks.
Proof.
  intros Hcs. unfold Chunker._chunk_text.
  destruct (Z.leb_spec (len text) (Chunker.chunk_size self)).
  - exists [text]. split; [reflexivity|]. split; [done|].
    constructor; [lia|constructor].
  - set (start := {| Chunker.t_chunks := []; Chunker.t_current := [];
                     Chunker.t_size := 0 |}).
    assert (Hstart : text_invariant self start).
    { repeat split; simpl; try lia. constructor. }
    destruct (for_each_invariant (Chunker.paragraph_step self)
                (text_invariant self) (split Chunker.paragraph_sep text))
      with (acc := start) as (st & Hrun & (Hchunks & Hweight & Hsize & _));
      [|assumption|].
    + intros s x _ Hs.
      destruct (paragraph_step_invariant self s x Hcs Hs) as (s' & ? & ? & _).
      eauto.
    + assert (Hstarted : text_started st).
      { eapply (for_each_last (Chunker.paragraph_step self) text_started);
          [apply split_nonempty| |exact Hrun].
        intros s x s1 _ Hstep.
        (* the paragraph step ends with a piece emitted or open *)
        unfold Chunker.paragraph_step in Hstep.
        destruct (Chunker.chunk_size self <? len x + 2).
        - eapply (for_each_last (Chunker.sentence_step self) text_started);
            [apply re_split_go_nonempty| |exact Hstep].
          intros s2 y s3 _ Hs3. unfold Chunker.sentence_step in Hs3.
          destruct (Chunker.chunk_size self <? len y + 1).
          + destruct (Chunker._simple_chunk_by_size self y) as [slices|e] eqn:Hsl;
              [|discriminate Hs3].
            injection Hs3 as <-. left. simpl.
            destruct (simple_chunk_bounded self y slices Hcs Hsl) as [Hne _].
            intros Hnil. apply app_eq_nil in Hnil as [_ Hnil]. done.
          + injection Hs3 as <-. right. simpl.
            intros Hnil. apply app_eq_nil in Hnil as [_ Hnil]. done.
        - injection Hstep as <-. right. simpl.
          intros Hnil. apply app_eq_nil in Hnil as [_ Hnil]. done. }
      rewrite Hrun. cbn [mbind result_bind]. eexists. split; [reflexivity|].
      unfold Chunker.flush_if_any, Chunker.flush.
      destruct (Chunker.t_current st) as [|p cur] eqn:Hcur.
      * split; [|assumption]. destruct Hstarted as [H'|H']; done.
      * split; [intros Hnil; apply app_eq_nil in Hnil as [_ Hnil]; done|].
        apply Forall_app. split; [assumption|]. constructor; [|constructor].
        pose proof (len_join_weight (p :: cur) ltac:(done)). lia.
Qed.

Lemma chunk_text_bounded_witness :
  exists chunks : list str,
    Chunker._chunk_text (Chunker.Make 6 0) (s2l "! ! !

x") = Ok chunks /\ chunks <> [].
Proof.
  destruct (chunk_text_bounded (Chunker.Make 6 0) (s2l "! ! !

x")) as (chunks & Hrun & Hne & _); [simpl; lia|].
  exists chunks. split; assumption.
Defined.

(** The bound [chunk_size] itself does not hold: three one-character
    sentences are counted with one separator character each and joined
    with two. *)
Example chunk_text_exceeds_chunk_size :
  Chunker._chunk_text (Chunker.Make 6 0) (s2l "! ! !

x") = Ok [s2l "!

!

!"; s2l "x"].
Proof. vm_compute. reflexivity. Qed.

Lemma paragraphs_size_app (a b : list str) :
  paragraphs_size (a ++ b) = paragraphs_size a + paragraphs_size b.
Proof. induction a as [|p a IH]; simpl; lia. Qed.

(** A paragraph that fits is never split: it extends the open chunk, or
    closes it and opens the next one. *)
Lemma paragraph_step_fits (self : Chunker.t) (st : Chunker.text_state) (para : str) :
  len para + 2 <= Chunker.chunk_size self ->
  Chunker.t_size st = paragraphs_size (Chunker.t_current st) ->
  (Chunker.t_current st <> [] -> Chunker.t_size st <= Chunker.chunk_size self) ->
  exists st',
    Chunker.paragraph_step self st para = Ok st' /\
    Chunker.t_size st' = paragraphs_size (Chunker.t_current st') /\
    Chunker.t_size st' <= Chunker.chunk_size self /\
    ((Chunker.t_chunks st' = Chunker.t_chunks st /\
      Chunker.t_current st' = Chunker.t_current st ++ [para]) \/
     (Chunker.t_current st <> [] /\
      Chunker.t_chunks st' =
        Chunker.t_chunks st ++ [join Chunker.paragraph_sep (Chunker.t_current st)] /\
      Chunker.t_current st' = [para])).
Proof.
  intros Hfit Hsize Hbound.
  unfold Chunker.paragraph_step, Chunker.close_if_full.
  destruct (Z.ltb_spec (Chunker.chunk_size self) (len para + 2)); [lia|].
  destruct (Z.ltb_spec (Chunker.chunk_size self) (Chunker.t_size st + (len para + 2))).
  - destruct (Chunker.t_current st) as [|p cur] eqn:Hcur.
    + simpl in Hsize. lia.
    + eexists. split; [reflexivity|]. simpl.
      split; [lia|]. split; [lia|]. right. repeat split; done.
  - eexists. split; [reflexivity|]. simpl.
    rewrite paragraphs_size_app. simpl.
    split; [lia|]. split; [lia|]. left. split; reflexivity.
Qed.

Lemma text_loop_groups (self : Chunker.t) (paras : list str) :
  Forall (fun p => len p + 2 <= Chunker.chunk_size self) paras ->
  forall (st : Chunker.text_state) (seen : list str) (groups : list (list str)),
    Chunker.t_size st = paragraphs_size (Chunker.t_current st) ->
    (Chunker.t_current st <> [] -> Chunker.t_size st <= Chunker.chunk_size self) ->
    Forall (fun g => g <> [] /\ paragraphs_size g <= Chunker.chunk_size self) groups ->
    Chunker.t_chunks st = map (join Chunker.paragraph_sep) groups ->
    concat groups ++ Chunker.t_current st = seen ->
    exists st' groups',
      for_each (Chunker.paragraph_step self) paras st = Ok st' /\
      Chunker.t_size st' = paragraphs_size (Chunker.t_current st') /\
      (Chunker.t_current st' <> [] -> Chunker.t_size st' <= Chunker.chunk_size self) /\
      Forall (fun g => g <> [] /\ paragraphs_size g <= Chunker.chunk_size self) groups' /\
      Chunker.t_chunks st' = map (join Chunker.paragraph_sep) groups' /\
      concat groups' ++ Chunker.t_current st' = seen ++ paras.
Proof.
  induction 1 as [|para paras Hfit _ IH];
    intros st seen groups Hsize Hbound Hgroups Hchunks Hseen.
  - exists st, groups. rewrite app_nil_r. auto 10.
  - destruct (paragraph_step_fits self st para Hfit Hsize Hbound)
      as (st1 & Hstep & Hsize1 & Hbound1 & Hcases).
    cbn [for_each]. rewrite Hstep. cbn [mbind result_bind].
    replace (seen ++ para :: paras) with ((seen ++ [para]) ++ paras)
      by (rewrite <- app_assoc; reflexivity).
    destruct Hcases as [[Hc Hcur]|(Hcur0 & Hc & Hcur)].
    + apply (IH st1 _ groups); auto; [congruence|].
      rewrite Hcur, app_assoc, Hseen. reflexivity.
    + apply (IH st1 _ (groups ++ [Chunker.t_current st])); auto.
      * apply Forall_app. split; [assumption|].
        constructor; [|constructor]. split; [assumption|].
        rewrite <- Hsize. apply Hbound, Hcur0.
      * rewrite Hc, Hchunks, map_app. reflexivity.
      * rewrite Hcur, concat_app. simpl. rewrite app_nil_r, Hseen. reflexivity.
Qed.

(** When every paragraph of the text fits ([len(para) + 2 <=
    chunk_size]), [_chunk_text] splits only between paragraphs: each chunk
    is a run of whole paragraphs joined by a blank line, it has at most
    [chunk_size] characters, and joining the chunks with a blank line
    gives the text back. *)
Theorem chunk_text_keeps_paragraphs (self : Chunker.t) (text : str) :
  Forall (fun p => len p + 2 <= Chunker.chunk_size self)
         (split Chunker.paragraph_sep text) ->
  exists (chunks : list str) (groups : list (list str)),
    Chunker._chunk_text self text = Ok chunks /\
    join Chunker.paragraph_sep chunks = text /\
    Forall (fun c => len c <= Chunker.chunk_size self) chunks /\
    Forall (fun g => g <> []) groups /\
    concat groups = split Chunker.paragraph_sep text /\
    chunks = map (join Chunker.paragraph_sep) groups.
Proof.
  intros Hfit. unfold Chunker._chunk_text.
  assert (Hsep : Chunker.paragraph_sep <> []) by done.
  destruct (Z.leb_spec (len text) (Chunker.chunk_size self)).
  - exists [text], [split Chunker.paragraph_sep text].
    split; [reflexivity|]. split; [reflexivity|].
    split; [constructor; [assumption|constructor]|].
    split; [constructor; [apply split_nonempty|constructor]|].
    split; [simpl; apply app_nil_r|].
    simpl. rewrite join_split by assumption. reflexivity.
  - destruct (text_loop_groups self _ Hfit
                {| Chunker.t_chunks := []; Chunker.t_current := [];
                   Chunker.t_size := 0 |} [] [])
      as (st & groups & Hrun & Hsize & Hbound & Hgroups & Hchunks & Hlines);
      try reflexivity; [simpl; done|constructor|].
    rewrite Hrun. cbn [mbind result_bind]. simpl in Hlines.
    set (final := match Chunker.t_current st with
                  | [] => groups
                  | _ :: _ => groups ++ [Chunker.t_current st]
                  end).
    assert (Hfinal : Forall (fun g => g <> [] /\
                       paragraphs_size g <= Chunker.chunk_size self) final).
    { subst final. destruct (Chunker.t_current st) as [|p cur] eqn:Hcur;
        [assumption|].
      apply Forall_app. split; [assumption|]. constructor; [|constructor].
      split; [done|]. rewrite <- Hsize. apply Hbound. done. }
    assert (Hconcat : concat final = split Chunker.paragraph_sep text).
    { subst final. destruct (Chunker.t_current st) as [|p cur] eqn:Hcur.
      - rewrite app_nil_r in Hlines. assumption.
      - rewrite concat_app. simpl. rewrite app_nil_r. assumption. }
    exists (map (join Chunker.paragraph_sep) final), final.
    split.
    { f_equal. subst final. unfold Chunker.flush_if_any, Chunker.flush.
      destruct (Chunker.t_current st); [assumption|].
      rewrite map_app, Hchunks. reflexivity. }
    split.
    { rewrite join_groups.
      - rewrite Hconcat. apply join_split. assumption.
      - eapply Forall_impl; [exact Hfinal|]. intros g [Hg _]. exact Hg. }
    split.
    { apply Forall_map. eapply Forall_impl; [exact Hfinal|].
      intros g [Hg Hsz]. simpl.
      rewrite len_join_paragraphs by assumption.
      fold (paragraphs_size g). lia. }
    split; [|split; [exact Hconcat|reflexivity]].
    eapply Forall_impl; [exact Hfinal|]. intros g [Hg _]. exact Hg.
Qed.

Lemma chunk_text_keeps_paragraphs_witness :
  exists chunks : list str,
    Chunker._chunk_text (Chunker.Make 8 0) (s2l "ab

cd

ef") = Ok chunks /\
    join Chunker.paragraph_sep chunks = s2l "ab

cd

ef".
Proof.
  destruct (chunk_text_keeps_paragraphs (Chunker.Make 8 0) (s2l "ab

cd

ef")) as (chunks & groups & Hrun & Hjoin & _).
  - repeat constructor; vm_compute; intros H; discriminate H.
  - exists chunks. split; assumption.
Defined.

(** ** The size boundary of the code splitter *)

Lemma len_join_lines (group : list str) :
  group <> [] -> len (join [newline] group) + 1 = weight group.
Proof.
  induction group as [|l group IH]; [done|]. intros _.
  destruct group as [|l' group].
  - simpl. lia.
  - rewrite join_cons by done. specialize (IH ltac:(done)).
    change (weight (l :: l' :: group)) with (len l + 1 + weight (l' :: group)).
    unfold len in *. rewrite !length_app. change (length [newline]) with 1%nat.
    lia.
Qed.

(** One iteration, with the counted size: the line extends the open
    chunk only if the extended chunk stays within the allowance. *)
Lemma code_step_sizes (self : Chunker.t) (st : Chunker.code_state) (line : str) :
  Chunker.current_size st = weight (Chunker.current_chunk st) ->
  exists st',
    Chunker.code_step self st line = Ok st' /\
    Chunker.current_size st' = weight (Chunker.current_chunk st') /\
    ((Chunker.chunks st' = Chunker.chunks st /\
      Chunker.current_chunk st' = Chunker.current_chunk st ++ [line] /\
      (Chunker.current_chunk st <> [] ->
       2 * weight (Chunker.current_chunk st ++ [line])
         <= 3 * Chunker.chunk_size self)) \/
     (Chunker.current_chunk st <> [] /\
      Chunker.chunks st' =
        Chunker.chunks st ++ [join [newline] (Chunker.current_chunk st)] /\
      Chunker.current_chunk st' = [line])).
Proof.
  intros Hsize. unfold Chunker.code_step.
  set (indent := match lstrip line, Chunker.indent_level st with
                 | _ :: _, None => Some (len line - len (lstrip line))
                 | _, lvl => lvl
                 end).
  assert (Hindent : lstrip line <> [] -> is_Some indent).
  { subst indent. destruct (lstrip line); [done|].
    destruct (Chunker.indent_level st); eauto. }
  destruct (is_boundary_ok line (lstrip line) indent Hindent) as [b ->].
  cbn [mbind result_bind].
  assert (Hline : len (line ++ [newline]) = len line + 1).
  { unfold len. rewrite length_app. simpl. lia. }
  rewrite Hline.
  destruct (Chunker.current_chunk st) as [|l0 cur] eqn:Hcur.
  - (* nothing is open: the line opens a chunk *)
    assert (Hzero : Chunker.current_size st = 0) by (rewrite Hsize; reflexivity).
    destruct b; cbn iota beta;
      (destruct (3 * Chunker.chunk_size self <? 2 * (Chunker.current_size st + (len line + 1)));
       cbn iota beta; eexists; (split; [reflexivity|]); cbn [Chunker.current_size
         Chunker.current_chunk Chunker.chunks app weight fold_right];
       (split; [lia|]); left; repeat split; done).
  - destruct b; cbn iota beta.
    + (* a boundary closes the open chunk *)
      destruct (3 * Chunker.chunk_size self <? 2 * (0 + (len line + 1)));
        cbn iota beta; eexists; (split; [reflexivity|]);
        cbn [Chunker.current_size Chunker.current_chunk Chunker.chunks app
             weight fold_right];
        (split; [lia|]); right; unfold Chunker.flush; repeat split; done.
    + destruct (Z.ltb_spec (3 * Chunker.chunk_size self)
                  (2 * (Chunker.current_size st + (len line + 1))));
        cbn iota beta; eexists; (split; [reflexivity|]);
        cbn [Chunker.current_size Chunker.current_chunk Chunker.chunks].
      * split; [simpl; lia|]. right. unfold Chunker.flush. repeat split; done.
      * rewrite weight_app. change (weight [line]) with (len line + 1 + 0).
        split; [lia|]. left.
        split; [reflexivity|]. split; [reflexivity|]. intros _. lia.
Qed.

Lemma code_loop_allowance (self : Chunker.t) (lines : list str) :
  forall (st : Chunker.code_state) (seen : list str) (groups : list (list str)),
    Chunker.current_size st = weight (Chunker.current_chunk st) ->
    within_allowance self (Chunker.current_chunk st) ->
    Forall (fun g => g <> [] /\ within_allowance self g) groups ->
    Chunker.chunks st = map (join [newline]) groups ->
    concat groups ++ Chunker.current_chunk st = seen ->
    exists st' groups',
      for_each (Chunker.code_step self) lines st = Ok st' /\
      within_allowance self (Chunker.current_chunk st') /\
      Forall (fun g => g <> [] /\ within_allowance self g) groups' /\
      Chunker.chunks st' = map (join [newline]) groups' /\
      concat groups' ++ Chunker.current_chunk st' = seen ++ lines.
Proof.
  induction lines as [|line lines IH];
    intros st seen groups Hsize Hcur Hgroups Hchunks Hseen.
  - exists st, groups. rewrite app_nil_r. auto.
  - destruct (code_step_sizes self st line Hsize) as (st1 & Hstep & Hsize1 & Hcases).
    cbn [for_each]. rewrite Hstep. cbn [mbind result_bind].
    replace (seen ++ line :: lines) with ((seen ++ [line]) ++ lines)
      by (rewrite <- app_assoc; reflexivity).
    destruct Hcases as [(Hc & Hcur1 & Hroom)|(Hcur0 & Hc & Hcur1)].
    + apply (IH st1 _ groups); auto; [|congruence|].
      * rewrite Hcur1. intros Hlen.
        assert (Hne : Chunker.current_chunk st <> []).
        { destruct (Chunker.current_chunk st); [simpl in Hlen; lia|done]. }
        rewrite len_join_lines.
        -- apply Hroom, Hne.
        -- destruct (Chunker.current_chunk st); done.
      * rewrite Hcur1, app_assoc, Hseen. reflexivity.
    + apply (IH st1 _ (groups ++ [Chunker.current_chunk st])); auto.
      * rewrite Hcur1. intros Hlen. simpl in Hlen. lia.
      * apply Forall_app. split; [assumption|]. constructor; [|constructor].
        split; assumption.
      * rewrite Hc, Hchunks, map_app. reflexivity.
      * rewrite Hcur1, concat_app. simpl. rewrite app_nil_r, Hseen. reflexivity.
Qed.

(** When [_chunk_code] splits (the text is longer than [chunk_size], and
    longer than twice [chunk_size] for a function), every chunk is a run
    of consecutive lines of the text, and a chunk of two or more lines,
    counted with a final newline, has at most [1.5 * chunk_size]
    characters: only a single line can exceed the allowance. *)
Theorem chunk_code_within_allowance (self : Chunker.t) (text : str) (md : dict) :
  Chunker.chunk_size self < len text ->
  (Chunker.type_is md "function" = false \/
   Chunker.chunk_size self * 2 < len text) ->
  exists (chunks : list str) (groups : list (list str)),
    Chunker._chunk_code self text md = Ok chunks /\
    chunks = map (join [newline]) groups /\
    concat groups = split [newline] text /\
    Forall (fun g => g <> [] /\ within_allowance self g) groups.
Proof.
  intros Hbig Hfun. unfold Chunker._chunk_code.
  destruct (Z.leb_spec (len text) (Chunker.chunk_size self)); [lia|].
  assert (Hskip : Chunker.type_is md "function"
                  && (len text <=? Chunker.chunk_size self * 2) = false).
  { destruct Hfun as [->|Hfun]; [reflexivity|].
    destruct (Z.leb_spec (len text) (Chunker.chunk_size self * 2)); [lia|].
    apply andb_false_r. }
  rewrite Hskip.
  destruct (code_loop_allowance self (split [newline] text)
              {| Chunker.chunks := []; Chunker.current_chunk := [];
                 Chunker.current_size := 0; Chunker.indent_level := None |}
              [] [])
    as (st & groups & Hrun & Hcur & Hgroups & Hchunks & Hlines);
    try reflexivity; [intros Hlen; simpl in Hlen; lia|constructor|].
  rewrite Hrun. cbn [mbind result_bind]. simpl in Hlines.
  set (final := match Chunker.current_chunk st with
                | [] => groups
                | _ :: _ => groups ++ [Chunker.current_chunk st]
                end).
  assert (Hfinal : Chunker.flush_if_any [newline] (Chunker.chunks st)
                     (Chunker.current_chunk st) = map (join [newline]) final).
  { subst final. unfold Chunker.flush_if_any, Chunker.flush.
    destruct (Chunker.current_chunk st); [assumption|].
    rewrite map_app, Hchunks. reflexivity. }
  assert (Hfinal_ok : Forall (fun g => g <> [] /\ within_allowance self g) final).
  { subst final. destruct (Chunker.current_chunk st) eqn:Hc; [assumption|].
    apply Forall_app. split; [assumption|]. constructor; [|constructor].
    split; [done|assumption]. }
  assert (Hfinal_lines : concat final = split [newline] text).
  { subst final. destruct (Chunker.current_chunk st) eqn:Hc.
    - rewrite app_nil_r in Hlines. assumption.
    - rewrite concat_app. simpl. rewrite app_nil_r. assumption. }
  rewrite Hfinal.
  destruct (map (join [newline]) final) as [|c0 cs] eqn:Hmap.
  - apply map_eq_nil in Hmap. rewrite Hmap in Hfinal_lines.
    symmetry in Hfinal_lines. destruct (split_nonempty _ _ Hfinal_lines).
  - exists (c0 :: cs), final. rewrite <- Hmap. auto.
Qed.

Lemma chunk_code_within_allowance_witness :
  exists (chunks : list str) (groups : list (list str)),
    Chunker._chunk_code (Chunker.Make 20 200) property_class class_metadata
      = Ok chunks /\
    chunks = map (join [newline]) groups.
Proof.
  destruct (chunk_code_within_allowance (Chunker.Make 20 200) property_class
              class_metadata) as (chunks & groups & Hrun & Hmap & _).
  - vm_compute. reflexivity.
  - left. vm_compute. reflexivity.
  - exists chunks, groups. split; assumption.
Defined.

(** ** Chunking a list of documents *)

Lemma chunk_loop_acc (self : Chunker.t) (docs : list document) :
  forall acc : list document,
    for_each (fun acc doc => new ← Chunker.chunk_document self doc; Ok (acc ++ new))
             docs acc =
    (out ← Chunker.chunk_documents self docs; Ok (acc ++ out)).
Proof.
  unfold Chunker.chunk_documents.
  induction docs as [|doc docs IH]; intros acc.
  - simpl. rewrite app_nil_r. reflexivity.
  - cbn [for_each].
    destruct (Chunker.chunk_document self doc) as [part|e]; [|reflexivity].
    cbn [mbind result_bind]. rewrite (IH (acc ++ part)), (IH ([] ++ part)).
    destruct (for_each _ docs []) as [out|e]; [|reflexivity].
    cbn [mbind result_bind]. rewrite <- app_assoc. reflexivity.
Qed.

Lemma chunk_documents_cons (self : Chunker.t) (doc : document) (docs : list document) :
  Chunker.chunk_documents self (doc :: docs) =
    (part ← Chunker.chunk_document self doc;
     out ← Chunker.chunk_documents self docs;
     Ok (part ++ out)).
Proof.
  unfold Chunker.chunk_documents at 1. cbn [for_each].
  destruct (Chunker.chunk_document self doc) as [part|e]; [|reflexivity].
  cbn [mbind result_bind]. apply chunk_loop_acc.
Qed.

Lemma chunk_document_stamped (self : Chunker.t) (doc : document)
    (part : list document) :
  Chunker.chunk_document self doc = Ok part -> stamped_chunks_of doc part.
Proof.
  unfold Chunker.chunk_document. intros Hrun.
  destruct (_ : result (list str)) as [chunks|e] in Hrun; [|discriminate Hrun].
  cbn [mbind result_bind] in Hrun. injection Hrun as <-.
  intros i chunk Hi. rewrite list_lookup_imap in Hi.
  destruct (chunks !! i) as [c|]; [|discriminate Hi].
  simpl in Hi. injection Hi as <-. unfold Chunker.stamp. simpl.
  unfold len. rewrite length_imap.
  split; [rewrite lookup_insert_ne by done; apply lookup_insert_eq|].
  split; [apply lookup_insert_eq|].
  intros key H1 H2. rewrite !lookup_insert_ne by congruence. reflexivity.
Qed.

(** The output of [chunk_documents] is the chunks of the first document,
    then those of the second, and so on; within a document the chunks are
    numbered from 0 and all carry the document's number of chunks, with
    the rest of the document's metadata. *)
Theorem chunk_documents_by_document (self : Chunker.t) (docs out : list document) :
  Chunker.chunk_documents self docs = Ok out ->
  exists parts : list (list document),
    out = concat parts /\
    Forall2 (fun doc part =>
               Chunker.chunk_documents self [doc] = Ok part /\
               stamped_chunks_of doc part) docs parts.
Proof.
  revert out. induction docs as [|doc docs IH]; intros out Hrun.
  - injection Hrun as <-. exists []. split; [reflexivity|constructor].
  - rewrite chunk_documents_cons in Hrun.
    destruct (Chunker.chunk_document self doc) as [part|e] eqn:Hpart;
      [|discriminate Hrun].
    cbn [mbind result_bind] in Hrun.
    destruct (Chunker.chunk_documents self docs) as [rest|e] eqn:Hrest;
      [|discriminate Hrun].
    cbn [mbind result_bind] in Hrun. injection Hrun as <-.
    destruct (IH rest eq_refl) as (parts & -> & Hparts).
    exists (part :: parts). split; [reflexivity|].
    constructor; [|exact Hparts]. split.
    + rewrite chunk_documents_cons, Hpart. simpl. rewrite app_nil_r. reflexivity.
    + apply chunk_document_stamped with (self := self). exact Hpart.
Qed.

Lemma chunk_documents_by_document_witness :
  exists parts : list (list document),
    Forall2 (fun doc part => stamped_chunks_of doc part)
      [{| content := property_class; doc_metadata := class_metadata |}] parts.
Proof.
  destruct (chunk_documents_by_document (Chunker.Make 20 200)
              [{| content := property_class; doc_metadata := class_metadata |}]
              _ eq_refl) as (parts & _ & Hparts).
  exists parts. eapply Forall2_impl; [exact Hparts|]. intros doc part [_ H]. exact H.
Defined.

Lemma chunk_code_returns (self : Chunker.t) (text : str) (md : dict) :
  exists chunks, Chunker._chunk_code self text md = Ok chunks.
Proof.
  unfold Chunker._chunk_code.
  destruct (len text <=? Chunker.chunk_size self); [eauto|].
  destruct (Chunker.type_is md "function" && _); [eauto|].
  destruct (code_loop_groups self (split [newline] text)
              {| Chunker.chunks := []; Chunker.current_chunk := [];
                 Chunker.current_size := 0; Chunker.indent_level := None |}
              [] [] ltac:(constructor) eq_refl eq_refl)
    as (st & groups & Hrun & Hne & Hchunks & Hlines).
  rewrite Hrun. cbn [mbind result_bind]. simpl in Hlines.
  unfold Chunker.flush_if_any, Chunker.flush.
  destruct (Chunker.current_chunk st) as [|l cur].
  - rewrite app_nil_r in Hlines. rewrite Hchunks.
    destruct groups as [|g groups]; simpl; [|eauto].
    symmetry in Hlines. destruct (split_nonempty _ _ Hlines).
  - destruct (Chunker.chunks st); simpl; eauto.
Qed.

Lemma chunk_text_returns (self : Chunker.t) (text : str) :
  Chunker.chunk_size self <> 0 ->
  exists chunks, Chunker._chunk_text self text = Ok chunks.
Proof.
  intros Hcs. unfold Chunker._chunk_text.
  destruct (len text <=? Chunker.chunk_size self); [eauto|].
  destruct (for_each_invariant (Chunker.paragraph_step self) (fun _ => True)
              (split Chunker.paragraph_sep text)) with (acc :=
              {| Chunker.t_chunks := []; Chunker.t_current := [];
                 Chunker.t_size := 0 |}) as (st & -> & _); [|exact I|simpl; eauto].
  intros s para _ _. unfold Chunker.paragraph_step.
  destruct (Chunker.chunk_size self <? len para + 2); [|eauto].
  destruct (for_each_invariant (Chunker.sentence_step self) (fun _ => True)
              (Chunker.split_sentences para)) with (acc :=
              Chunker.close_if_full self s (len para + 2)) as (st & -> & _);
    [|exact I|eauto].
  intros s' sentence _ _. unfold Chunker.sentence_step.
  destruct (Chunker.chunk_size self <? len sentence + 1); [|eauto].
  destruct (simple_chunk_returns self sentence Hcs) as [slices ->].
  simpl. eauto.
Qed.

Lemma chunk_document_outcome (self : Chunker.t) (doc : document) :
  Chunker.chunk_size self <> 0 ->
  match doc_metadata doc !! "type"%string with
  | Some _ => exists part, Chunker.chunk_document self doc = Ok part
  | None => Chunker.chunk_document self doc = Raise KeyError
  end.
Proof.
  intros Hcs. unfold Chunker.chunk_document.
  destruct (doc_metadata doc !! "type"%string); [|reflexivity].
  destruct (_ || _).
  - destruct (chunk_code_returns self (content doc) (doc_metadata doc)) as [c ->].
    simpl. eauto.
  - destruct (chunk_text_returns self (content doc) Hcs) as [c ->].
    simpl. eauto.
Qed.

(** For a chunker whose [chunk_size] is not zero (the constructor never
    leaves it at zero), [chunk_documents] fails only on a missing key:
    it returns when every document's metadata has a [type], and raises
    [KeyError] when some document's metadata has none. *)
Theorem chunk_documents_only_key_error (self : Chunker.t) (docs : list document) :
  Chunker.chunk_size self <> 0 ->
  (Forall (fun doc => is_Some (doc_metadata doc !! "type"%string)) docs /\
   exists out, Chunker.chunk_documents self docs = Ok out) \/
  (Exists (fun doc => doc_metadata doc !! "type"%string = None) docs /\
   Chunker.chunk_documents self docs = Raise KeyError).
Proof.
  intros Hcs. induction docs as [|doc docs IH].
  - left. split; [constructor|]. exists []. reflexivity.
  - rewrite chunk_documents_cons.
    pose proof (chunk_document_outcome self doc Hcs) as Hdoc.
    destruct (doc_metadata doc !! "type"%string) as [ty|] eqn:Hty.
    + destruct Hdoc as [part ->]. cbn [mbind result_bind].
      destruct IH as [[Hall [out ->]]|[Hex ->]].
      * left. split; [constructor; [rewrite Hty; eauto|assumption]|].
        simpl. eauto.
      * right. split; [apply Exists_cons_tl; assumption|reflexivity].
    + rewrite Hdoc. right. split; [apply Exists_cons_hd; assumption|reflexivity].
Qed.

Lemma chunk_documents_only_key_error_witness :
  Chunker.chunk_documents (Chunker.__init__ None None)
    [{| content := s2l "x = 1"; doc_metadata := ∅ |}] = Raise KeyError.
Proof.
  destruct (chunk_documents_only_key_error (Chunker.__init__ None None)
              [{| content := s2l "x = 1"; doc_metadata := ∅ |}])
    as [[Hall _]|[_ Hrun]]; [vm_compute; intros H; discriminate H| |exact Hrun].
  apply Forall_inv in Hall. destruct Hall as [v Hv]. discriminate Hv.
Defined.

(** ** Line ranges of the units *)

Lemma fold_max_bounds (l : list Z) (x : Z) :
  x <= fold_left Z.max l x /\
  Forall (fun y => y <= fold_left Z.max l x) l /\
  (fold_left Z.max l x = x \/ In (fold_left Z.max l x) l).
Proof.
  revert x. induction l as [|y l IH]; intros x; simpl.
  - split; [lia|]. split; [constructor|left; reflexivity].
  - destruct (IH (Z.max x y)) as (Hx & Hall & Hin).
    split; [lia|]. split; [constructor; [lia|exact Hall]|].
    destruct Hin as [Heq|Hin]; [|right; right; exact Hin].
    rewrite Heq. destruct (Z.max_spec x y) as [[_ ->]|[_ ->]]; auto.
Qed.

Lemma max_of_bounds (l : list Z) (m : Z) :
  AstParser.max_of l = Ok m -> In m l /\ Forall (fun y => y <= m) l.
Proof.
  destruct l as [|x l]; [discriminate|]. intros [= <-].
  destruct (fold_max_bounds l x) as (Hx & Hall & Hin). split.
  - destruct Hin as [Heq|Hin]; [left; symmetry; exact Heq|right; exact Hin].
  - constructor; assumption.
Qed.

Lemma in_omap_end_lineno (nodes : list AstParser.node) (x : Z) :
  In x (omap AstParser.end_lineno nodes) <->
  exists m, In m nodes /\ AstParser.end_lineno m = Some x.
Proof.
  rewrite <- list_elem_of_In, list_elem_of_omap.
  split; intros (m & Hm & Hx); exists m; split; auto;
    apply list_elem_of_In; assumption.
Qed.

(** The end line of a unit is the greatest [end_lineno] found in the
    subtree of its definition node (the definition's own first line when
    the node has no [end_lineno]); the class and the function processing
    compute the same range and cut the same lines out of the file. *)
Theorem unit_end_line_is_subtree_maximum
    (n : AstParser.node) (file_path text : str) :
  exists (class_doc function_doc : document) (end_line : Z),
    AstParser._process_class n file_path text = Ok class_doc /\
    AstParser._process_function n file_path text = Ok function_doc /\
    doc_metadata class_doc !! "line_range"%string =
      Some (VPair (AstParser.lineno n) end_line) /\
    doc_metadata function_doc !! "line_range"%string =
      Some (VPair (AstParser.lineno n) end_line) /\
    content class_doc = AstParser.source_lines text (AstParser.lineno n) end_line /\
    content function_doc = content class_doc /\
    match AstParser.end_lineno n with
    | None => end_line = AstParser.lineno n
    | Some _ =>
        (exists m, In m (subtree n) /\ AstParser.end_lineno m = Some end_line) /\
        (forall m x, In m (subtree n) -> AstParser.end_lineno m = Some x ->
                     x <= end_line)
    end.
Proof.
  destruct (line_range_ok n) as [e He].
  unfold AstParser._process_class, AstParser._process_function.
  rewrite He. cbn [mbind result_bind].
  eexists _, _, e. do 2 (split; [reflexivity|]).
  do 4 (split; [reflexivity|]).
  unfold AstParser.line_range in He.
  destruct (AstParser.end_lineno n) as [e0|] eqn:Hend.
  - destruct (AstParser.max_of (omap AstParser.end_lineno (AstParser.walk n)))
      as [m|err] eqn:Hmax; [|discriminate He].
    cbn [mbind result_bind] in He. injection He as <-.
    apply max_of_bounds in Hmax as [Hin Hall]. split.
    + apply in_omap_end_lineno in Hin as (node & Hnode & Hm).
      exists node. split; [|exact Hm].
      eapply Permutation_in; [apply walk_subtree|exact Hnode].
    + intros node x Hnode Hx.
      rewrite Forall_forall in Hall. apply Hall, list_elem_of_In.
      apply in_omap_end_lineno. exists node. split; [|exact Hx].
      eapply Permutation_in; [symmetry; apply walk_subtree|exact Hnode].
  - cbn [mbind result_bind] in He. injection He as <-. reflexivity.
Qed.

(** ** The text of a unit *)

Lemma split_char_without (c : ascii) (s : str) :
  ~ In c s -> split [c] s = [s].
Proof.
  unfold split. induction s as [|x s IH]; intros Hnot; [reflexivity|].
  cbn [split_go startswith]. rewrite andb_true_r.
  destruct (Ascii.eqb_spec c x) as [->|Hne]; [destruct Hnot; left; reflexivity|].
  rewrite IH; [reflexivity|]. intros Hin. apply Hnot. right. exact Hin.
Qed.

Lemma split_char_app (c : ascii) (line rest : str) :
  ~ In c line -> split [c] (line ++ c :: rest) = line :: split [c] rest.
Proof.
  unfold split. induction line as [|x line IH]; intros Hnot.
  - cbn [app split_go startswith]. rewrite Ascii.eqb_refl. reflexivity.
  - cbn [app split_go startswith]. rewrite andb_true_r.
    destruct (Ascii.eqb_spec c x) as [->|Hne]; [destruct Hnot; left; reflexivity|].
    rewrite IH; [reflexivity|]. intros Hin. apply Hnot. right. exact Hin.
Qed.

(** [sep.join(lines).split(sep) == lines] when no line holds the
    separator. *)
Lemma split_join_char (c : ascii) (lines : list str) :
  lines <> [] -> Forall (fun l => ~ In c l) lines ->
  split [c] (join [c] lines) = lines.
Proof.
  intros Hne Hall. induction Hall as [|l lines Hl Hall IH]; [done|].
  destruct lines as [|l' lines].
  - simpl. apply split_char_without, Hl.
  - rewrite join_cons by done. cbn [app].
    rewrite split_char_app by exact Hl. rewrite IH by done. reflexivity.
Qed.

Lemma split_char_lines (c : ascii) (s : str) :
  Forall (fun l => ~ In c l) (split [c] s).
Proof.
  unfold split. induction s as [|x s IH].
  - repeat constructor. intros [].
  - cbn [split_go startswith]. rewrite andb_true_r.
    change (length [c] - 1)%nat with 0%nat.
    destruct (Ascii.eqb_spec c x) as [->|Hne].
    + constructor; [intros []|exact IH].
    + destruct (split_go [c] 0 s) as [|p ps]; [repeat constructor; intros [H|[]]; done|].
      inversion IH as [|? ? Hp Hps]; subst. constructor; [|exact Hps].
      intros [H|H]; [congruence|contradiction].
Qed.

(** For a line range inside the file, the text of a unit is made of
    exactly the lines [start_line .. end_line] of the file. *)
Theorem unit_text_is_the_line_range (text : str) (start_line end_line : Z) :
  1 <= start_line -> start_line <= end_line ->
  end_line <= len (split [newline] text) ->
  split [newline] (AstParser.source_lines text start_line end_line) =
    firstn (Z.to_nat (end_line - start_line + 1))
           (skipn (Z.to_nat (start_line - 1)) (split [newline] text)) /\
  len (split [newline] (AstParser.source_lines text start_line end_line)) =
    end_line - start_line + 1.
Proof.
  intros Hstart Horder Hend. unfold AstParser.source_lines.
  replace end_line with ((start_line - 1) + (end_line - start_line + 1)) at 1 3 by lia.
  rewrite slice_window by lia.
  set (lines := split [newline] text) in *.
  set (unit_lines := firstn _ (skipn _ lines)).
  assert (Hlen : length unit_lines = Z.to_nat (end_line - start_line + 1)).
  { subst unit_lines. rewrite length_take, length_drop. unfold len in Hend. lia. }
  assert (Hsplit : split [newline] (join [newline] unit_lines) = unit_lines).
  { apply split_join_char.
    - intros Hnil. rewrite Hnil in Hlen. simpl in Hlen. lia.
    - subst unit_lines. apply Forall_take, Forall_drop, split_char_lines. }
  rewrite Hsplit. split; [reflexivity|]. unfold len. rewrite Hlen. lia.
Qed.

Lemma unit_text_is_the_line_range_witness :
  split [newline] (AstParser.source_lines sample_text 4 7) =
    firstn 4 (skipn 3 (split [newline] sample_text)).
Proof.
  exact (proj1 (unit_text_is_the_line_range sample_text 4 7
                  ltac:(lia) ltac:(lia) ltac:(vm_compute; intros H; discriminate H))).
Defined.

(** ** What [parse_file] returns and raises *)

Lemma process_class_from (n : AstParser.node) (file_path text : str) (doc : document) :
  AstParser._process_class n file_path text = Ok doc -> unit_from file_path doc.
Proof.
  unfold AstParser._process_class. destruct (AstParser.line_range n) as [[s e]|err];
    [|discriminate]. intros [= <-]. split; [reflexivity|].
  exists "class"%string. split; [reflexivity|simpl; auto].
Qed.

Lemma process_function_from (n : AstParser.node) (file_path text : str) (doc : document) :
  AstParser._process_function n file_path text = Ok doc -> unit_from file_path doc.
Proof.
  unfold AstParser._process_function. destruct (AstParser.line_range n) as [[s e]|err];
    [|discriminate]. intros [= <-]. split; [reflexivity|].
  exists "function"%string. split; [reflexivity|simpl; auto].
Qed.

Lemma emit_from (file_path text : str) (acc acc' : list document) (n : AstParser.node) :
  Forall (unit_from file_path) acc ->
  AstParser.emit file_path text acc n = Ok acc' ->
  Forall (unit_from file_path) acc'.
Proof.
  intros Hacc. unfold AstParser.emit.
  destruct (AstParser.kind n); try (intros [= <-]; exact Hacc).
  - destruct (AstParser._process_class n file_path text) as [doc|e] eqn:Hdoc;
      [|discriminate]. intros [= <-]. apply Forall_app. split; [exact Hacc|].
    constructor; [|constructor]. eapply process_class_from, Hdoc.
  - destruct (AstParser.at_module_level n); [|intros [= <-]; exact Hacc].
    destruct (AstParser._process_function n file_path text) as [doc|e] eqn:Hdoc;
      [|discriminate]. intros [= <-]. apply Forall_app. split; [exact Hacc|].
    constructor; [|constructor]. eapply process_function_from, Hdoc.
Qed.

Lemma emit_loop_from (file_path text : str) (nodes : list AstParser.node) :
  forall acc docs,
    Forall (unit_from file_path) acc ->
    for_each (AstParser.emit file_path text) nodes acc = Ok docs ->
    Forall (unit_from file_path) docs.
Proof.
  induction nodes as [|n nodes IH]; intros acc docs Hacc Hrun.
  - injection Hrun as <-. exact Hacc.
  - cbn [for_each] in Hrun.
    destruct (AstParser.emit file_path text acc n) as [acc'|e] eqn:Hstep;
      [|discriminate Hrun].
    eapply IH; [|exact Hrun]. eapply emit_from; eassumption.
Qed.

(** [parse_file] raises exactly what reading the file raises, what
    [ast.parse] raises other than [SyntaxError], and [RecursionError]
    when the syntax tree is higher than the stack allows the visitor;
    and every document it returns carries the path of the file and one of
    the types [class], [function], [raw_text]. *)
Theorem parse_file_outcomes
    (read_file : str -> result str) (ast_parse : str -> result AstParser.node)
    (stack_depth : nat) (file_path : str) :
  (forall e : exn,
     AstParser.parse_file read_file ast_parse stack_depth file_path = Raise e <->
     read_file file_path = Raise e \/
     exists text, read_file file_path = Ok text /\
       ((ast_parse text = Raise e /\ e <> SyntaxError) \/
        (exists tree, ast_parse text = Ok tree /\
                      (stack_depth < height tree)%nat /\ e = RecursionError))) /\
  (forall docs : list document,
     AstParser.parse_file read_file ast_parse stack_depth file_path = Ok docs ->
     Forall (unit_from file_path) docs).
Proof.
  unfold AstParser.parse_file.
  destruct (read_file file_path) as [text|e0] eqn:Hread; cbn [mbind result_bind].
  - destruct (ast_parse text) as [tree|e1] eqn:Hparse.
    + rewrite visit_depth, height_set_parent.
      destruct (Nat.leb_spec (height tree) stack_depth) as [Hfit|Hdeep];
        cbn [mbind result_bind].
      * destruct (emit_loop file_path text
                    (AstParser.walk (with_parents
                       (AstParser.set_parent (Some None) tree))) [])
          as (docs & Hrun & _).
        split.
        -- intros e. rewrite Hrun. split; [discriminate|].
           intros [H|(text' & [= <-] & [[H _]|(tree' & H & Hlt & _)])];
             [discriminate H|rewrite Hparse in H; discriminate H|].
           rewrite Hparse in H. injection H as <-. lia.
        -- intros docs' Hdocs. eapply emit_loop_from; [constructor|exact Hdocs].
      * split; [|discriminate].
        intros e. split.
        -- intros [= <-]. right. exists text. split; [reflexivity|].
           right. exists tree. split; [exact Hparse|]. split; [exact Hdeep|reflexivity].
        -- intros [H|(text' & [= <-] & [[H _]|(tree' & _ & _ & ->)])];
             [discriminate H|rewrite Hparse in H; discriminate H|reflexivity].
    + split.
      * intros e. split.
        -- destruct e1; try (intros [= <-]; right; exists text;
             split; [reflexivity|]; left; split; [assumption|discriminate]).
           discriminate.
        -- intros [H|(text' & [= <-] & [[H Hne]|(tree' & H & _)])];
             [discriminate H| |rewrite Hparse in H; discriminate H].
           rewrite Hparse in H. injection H as ->.
           destruct e; try reflexivity. contradiction.
      * destruct e1; try discriminate. intros docs [= <-].
        constructor; [|constructor]. split; [reflexivity|].
        exists "raw_text"%string. split; [reflexivity|simpl; auto].
  - split.
    + intros e. split; [intros [= <-]; left; reflexivity|].
      intros [[= <-]|(text & H & _)]; [reflexivity|discriminate H].
    + discriminate.
Qed.

Lemma parse_file_outcomes_witness :
  AstParser.parse_file (fun _ => Ok sample_text) (fun _ => Ok sample_tree) 2
    (s2l "deep.py") = Raise RecursionError.
Proof.
  apply (proj1 (parse_file_outcomes (fun _ => Ok sample_text)
                  (fun _ => Ok sample_tree) 2 (s2l "deep.py"))).
  right. exists sample_text. split; [reflexivity|].
  right. exists sample_tree. repeat split. vm_compute. lia.
Defined.

(** ** Scanning a directory *)

Section DirectoryScanProperties.

Context (read_file : str -> result str) (ast_parse : str -> result AstParser.node)
        (stack_depth : nat).

Lemma scan_files_fold (root : str) (files : list str) :
  forall st : DirectoryScan.scan,
    fold_left (DirectoryScan.scan_file read_file ast_parse stack_depth root) files st =
    {| DirectoryScan.documents :=
         DirectoryScan.documents st ++
         parsed_documents read_file ast_parse stack_depth
           (map (DirectoryScan.path_join root)
                (List.filter (fun file => DirectoryScan.endswith file (s2l ".py")) files));
       DirectoryScan.files_parsed :=
         DirectoryScan.files_parsed st +
         parsed_count read_file ast_parse stack_depth
           (map (DirectoryScan.path_join root)
                (List.filter (fun file => DirectoryScan.endswith file (s2l ".py")) files));
       DirectoryScan.skipped_dirs := DirectoryScan.skipped_dirs st |}.
Proof.
  induction files as [|file files IH]; intros st.
  - destruct st. unfold parsed_count, len. simpl.
    rewrite app_nil_r, Z.add_0_r. reflexivity.
  - cbn [fold_left List.filter]. rewrite IH. unfold DirectoryScan.scan_file.
    destruct (DirectoryScan.endswith file (s2l ".py")); [|reflexivity].
    unfold parsed_documents, parsed_count. cbn [map flat_map List.filter].
    destruct (AstParser.parse_file read_file ast_parse stack_depth
                (DirectoryScan.path_join root file)) as [docs|e].
    + simpl DirectoryScan.documents. simpl DirectoryScan.files_parsed.
      simpl DirectoryScan.skipped_dirs. rewrite <- app_assoc.
      f_equal. unfold len. simpl length. lia.
    + reflexivity.
Qed.

Lemma scan_directories_fold (walked : list (str * list str)) :
  forall st : DirectoryScan.scan,
    fold_left (DirectoryScan.scan_directory read_file ast_parse stack_depth) walked st =
    {| DirectoryScan.documents :=
         DirectoryScan.documents st ++
         parsed_documents read_file ast_parse stack_depth (eligible_paths walked);
       DirectoryScan.files_parsed :=
         DirectoryScan.files_parsed st +
         parsed_count read_file ast_parse stack_depth (eligible_paths walked);
       DirectoryScan.skipped_dirs :=
         DirectoryScan.skipped_dirs st +
         len (List.filter (fun entry : str * list str =>
                DirectoryScan.is_virtualenv (fst entry)) walked) |}.
Proof.
  induction walked as [|[root files] walked IH]; intros st.
  - destruct st. unfold parsed_count, len. simpl.
    rewrite app_nil_r, !Z.add_0_r. reflexivity.
  - cbn [fold_left]. rewrite IH. unfold DirectoryScan.scan_directory.
    unfold eligible_paths. cbn [flat_map List.filter fst snd].
    destruct (DirectoryScan.is_virtualenv root).
    + simpl. f_equal. unfold len. simpl length. lia.
    + rewrite scan_files_fold. simpl.
      unfold parsed_documents, parsed_count, len.
      rewrite flat_map_app, List.filter_app, length_app, <- app_assoc.
      f_equal. lia.
Qed.

End DirectoryScanProperties.

(** [parse_directory] never fails and a file that fails changes nothing
    for the others: the documents are those of the [.py] files outside
    [env] and [venv] directories that parse, in the order of the walk; the
    counter of parsed files grows by the number of these files that parse;
    a skipped directory is counted once per walked path. *)
Theorem parse_directory_collects
    (read_file : str -> result str) (ast_parse : str -> result AstParser.node)
    (stack_depth : nat)
    (files_parsed_before : Z) (walked : list (str * list str)) :
  DirectoryScan.parse_directory read_file ast_parse stack_depth
    files_parsed_before walked =
    {| DirectoryScan.documents :=
         parsed_documents read_file ast_parse stack_depth (eligible_paths walked);
       DirectoryScan.files_parsed :=
         files_parsed_before +
         parsed_count read_file ast_parse stack_depth (eligible_paths walked);
       DirectoryScan.skipped_dirs :=
         len (List.filter (fun entry : str * list str =>
                DirectoryScan.is_virtualenv (fst entry)) walked) |}.
Proof.
  unfold DirectoryScan.parse_directory. rewrite scan_directories_fold. reflexivity.
Qed.

Lemma parse_file_units
    (read_file : str -> result str) (ast_parse : str -> result AstParser.node)
    (stack_depth : nat)
    (file_path : str) (docs : list document) :
  AstParser.parse_file read_file ast_parse stack_depth file_path = Ok docs ->
  Forall (unit_from file_path) docs.
Proof.
  unfold AstParser.parse_file.
  destruct (read_file file_path) as [text|e0]; [|discriminate].
  cbn [mbind result_bind].
  destruct (ast_parse text) as [tree|e1].
  - destruct (AstParser.visit stack_depth _) as [visited|e2]; [|discriminate].
    cbn [mbind result_bind].
    intros Hdocs. eapply emit_loop_from; [constructor|exact Hdocs].
  - destruct e1; try discriminate. intros [= <-].
    constructor; [|constructor]. split; [reflexivity|].
    exists "raw_text"%string. split; [reflexivity|simpl; auto].
Qed.

Lemma is_virtualenv_segments (root : str) :
  DirectoryScan.is_virtualenv root = false ->
  ~ In (s2l "env") (split DirectoryScan.sep root) /\
  ~ In (s2l "venv") (split DirectoryScan.sep root).
Proof.
  unfold DirectoryScan.is_virtualenv. intros H.
  apply orb_false_iff in H as [Henv Hvenv].
  split; intros Hin.
  - assert (existsb (fun segment => bool_decide (segment = s2l "env"))
              (split DirectoryScan.sep root) = true) as Htrue; [|congruence].
    apply existsb_exists. eexists. split; [exact Hin|]. apply bool_decide_eq_true_2.
    reflexivity.
  - assert (existsb (fun segment => bool_decide (segment = s2l "venv"))
              (split DirectoryScan.sep root) = true) as Htrue; [|congruence].
    apply existsb_exists. eexists. split; [exact Hin|]. apply bool_decide_eq_true_2.
    reflexivity.
Qed.

(** Every document of [parse_directory] comes from a file of the walk
    whose name ends in [.py] and whose directory has no path segment
    equal to [env] or [venv]; it carries the joined path of that file. *)
Theorem parse_directory_sources
    (read_file : str -> result str) (ast_parse : str -> result AstParser.node)
    (stack_depth : nat)
    (files_parsed_before : Z) (walked : list (str * list str)) (doc : document) :
  In doc (DirectoryScan.documents
            (DirectoryScan.parse_directory read_file ast_parse stack_depth
               files_parsed_before walked)) ->
  exists (root : str) (files : list str) (file : str),
    In (root, files) walked /\ In file files /\
    DirectoryScan.endswith file (s2l ".py") = true /\
    ~ In (s2l "env") (split DirectoryScan.sep root) /\
    ~ In (s2l "venv") (split DirectoryScan.sep root) /\
    unit_from (DirectoryScan.path_join root file) doc.
Proof.
  unfold DirectoryScan.parse_directory. rewrite scan_directories_fold. simpl.
  unfold parsed_documents. intros Hin.
  apply in_flat_map in Hin as (path & Hpath & Hdoc).
  unfold eligible_paths in Hpath.
  apply in_flat_map in Hpath as ([root files] & Hentry & Hpath). simpl in Hpath.
  destruct (DirectoryScan.is_virtualenv root) eqn:Hvenv; [contradiction|].
  apply in_map_iff in Hpath as (file & <- & Hfile).
  apply filter_In in Hfile as [Hfile Hpy].
  destruct (is_virtualenv_segments root Hvenv) as [Henv Hvenv'].
  exists root, files, file. repeat split; try assumption.
  - destruct (AstParser.parse_file read_file ast_parse stack_depth
                (DirectoryScan.path_join root file)) as [docs|e] eqn:Hparse;
      [|contradiction].
    apply parse_file_units in Hparse. rewrite Forall_forall in Hparse.
    apply Hparse, list_elem_of_In, Hdoc.
  - destruct (AstParser.parse_file read_file ast_parse stack_depth
                (DirectoryScan.path_join root file)) as [docs|e] eqn:Hparse;
      [|contradiction].
    apply parse_file_units in Hparse. rewrite Forall_forall in Hparse.
    apply Hparse, list_elem_of_In, Hdoc.
Qed.

Lemma parse_directory_sources_witness :
  exists (root : str) (files : list str) (file : str),
    In (root, files) sample_walk /\ In file files /\
    DirectoryScan.endswith file (s2l ".py") = true.
Proof.
  destruct (parse_directory_sources (fun _ => Ok broken_source)
              (fun _ => Raise SyntaxError) 1000 0 sample_walk
              (AstParser.raw_text_document (s2l "/repo/sample.py") broken_source))
    as (root & files & file & H1 & H2 & H3 & _).
  - vm_compute. left. reflexivity.
  - exists root, files, file. repeat split; assumption.
Defined.

(** On the sample walk: the text file is ignored, the directory under
    [venv] is skipped, the directory [environment] is not. *)
Example parse_directory_sample :
  let result := DirectoryScan.parse_directory (fun _ => Ok broken_source)
                  (fun _ => Raise SyntaxError) 1000 0 sample_walk in
  map (fun doc => doc_metadata doc !! "file_path"%string)
      (DirectoryScan.documents result) =
    [Some (VStr (s2l "/repo/sample.py"));
     Some (VStr (s2l "/repo/environment/tool.py"))] /\
  DirectoryScan.files_parsed result = 2 /\
  DirectoryScan.skipped_dirs result = 1.
Proof. vm_compute. repeat split. Qed.

(** ** The vector store: adding *)

(** An [add_documents] whose vectors have the dimension of the index
    succeeds whether or not the save that follows it does: the vectors
    are appended after the stored ones and the metadata of the documents
    after the stored metadata, so the two counts grow by the number of
    rows and the number of documents, and the addition stays in memory.
    The disk is what the save leaves: unchanged when the directory
    cannot be made or the index file cannot be opened; and when the index
    file is written and the metadata file cannot be opened, the new index
    beside the metadata file of before. *)
Theorem matching_add_appends (self : FaissVectorStore.t) (dk : FaissVectorStore.disk)
    (documents : list document) (embeddings : ndarray) (ix : IndexFlatL2.t) :
  FaissVectorStore.index self = Some ix ->
  shape1 embeddings = IndexFlatL2.d ix ->
  let grown := {| IndexFlatL2.d := IndexFlatL2.d ix;
                  IndexFlatL2.xb := IndexFlatL2.xb ix ++ rows embeddings |} in
  exists (after : FaissVectorStore.t) (dk' : FaissVectorStore.disk),
    FaissVectorStore.add_documents self dk documents embeddings = (Ok tt, after, dk') /\
    FaissVectorStore.index after = Some grown /\
    FaissVectorStore.metadata after =
      FaissVectorStore.metadata self ++ map doc_metadata documents /\
    (IndexFlatL2.ntotal <$> FaissVectorStore.index after) =
      Some (IndexFlatL2.ntotal ix + len (rows embeddings)) /\
    len (FaissVectorStore.metadata after) =
      len (FaissVectorStore.metadata self) + len documents /\
    dk' = snd (FaissVectorStore.save after dk) /\
    (forall e,
       FaissVectorStore.make_dir (FaissVectorStore.writing dk) = Raise e \/
       FaissVectorStore.index_write (FaissVectorStore.writing dk)
         = FaissVectorStore.NotOpened e ->
       dk' = dk) /\
    (forall e,
       FaissVectorStore.make_dir (FaissVectorStore.writing dk) = Ok tt ->
       FaissVectorStore.index_write (FaissVectorStore.writing dk)
         = FaissVectorStore.Written ->
       FaissVectorStore.metadata_write (FaissVectorStore.writing dk)
         = FaissVectorStore.NotOpened e ->
       FaissVectorStore.index_file dk' = Ok grown /\
       FaissVectorStore.metadata_file dk' = FaissVectorStore.metadata_file dk).
Proof.
  intros Hix Hdim grown. unfold FaissVectorStore.add_documents.
  rewrite Hix. simpl. rewrite Hix. unfold IndexFlatL2.add.
  destruct (Z.eqb_spec (shape1 embeddings) (IndexFlatL2.d ix)); [|contradiction].
  eexists _, _. split; [reflexivity|]. simpl.
  split; [reflexivity|]. split; [reflexivity|].
  unfold IndexFlatL2.ntotal, len. simpl.
  rewrite !length_app, length_map.
  split; [f_equal; lia|]. split; [lia|]. split; [reflexivity|].
  unfold FaissVectorStore.save. simpl. split.
  - intros err [Hdir|Hwrite].
    + rewrite Hdir. reflexivity.
    + destruct (FaissVectorStore.make_dir _); [|reflexivity].
      rewrite Hwrite. reflexivity.
  - intros err Hdir Hwrite Hmeta. rewrite Hdir, Hwrite, Hmeta. split; reflexivity.
Qed.

Lemma matching_add_appends_witness :
  exists (after : FaissVectorStore.t) (dk' : FaissVectorStore.disk),
    FaissVectorStore.add_documents two_dim_store empty_disk [one_chunk]
      (NdArray 2 [floats [1; 2]]) = (Ok tt, after, dk') /\
    len (FaissVectorStore.metadata after) = 1.
Proof.
  destruct (matching_add_appends two_dim_store empty_disk [one_chunk]
              (NdArray 2 [floats [1; 2]]) (IndexFlatL2.create 2) eq_refl eq_refl)
    as (after & dk' & Hrun & _ & _ & _ & Hlen & _).
  exists after, dk'. split; [exact Hrun|exact Hlen].
Defined.

(** The first [add_documents] on a store without an index cannot fail on
    the dimension: the index is created with the dimension of the
    vectors, which becomes the dimension of the store, and holds exactly
    the added rows. *)
Theorem first_add_fixes_dimension (self : FaissVectorStore.t)
    (dk : FaissVectorStore.disk) (documents : list document) (embeddings : ndarray) :
  FaissVectorStore.index self = None ->
  exists dk' : FaissVectorStore.disk,
    FaissVectorStore.add_documents self dk documents embeddings =
      (Ok tt,
       {| FaissVectorStore.index :=
            Some {| IndexFlatL2.d := shape1 embeddings;
                    IndexFlatL2.xb := rows embeddings |};
          FaissVectorStore.metadata :=
            FaissVectorStore.metadata self ++ map doc_metadata documents;
          FaissVectorStore.dimension := shape1 embeddings |},
       dk').
Proof.
  intros Hix. unfold FaissVectorStore.add_documents. rewrite Hix.
  unfold FaissVectorStore._create_empty_index. simpl.
  unfold IndexFlatL2.add. simpl. rewrite Z.eqb_refl. eexists. reflexivity.
Qed.

Lemma first_add_fixes_dimension_witness :
  exists (after : FaissVectorStore.t) (dk' : FaissVectorStore.disk),
    FaissVectorStore.add_documents
      {| FaissVectorStore.index := None; FaissVectorStore.metadata := [];
         FaissVectorStore.dimension := 768 |}
      empty_disk [one_chunk] (NdArray 3 [floats [1; 2; 3]]) = (Ok tt, after, dk') /\
    FaissVectorStore.dimension after = 3.
Proof.
  destruct (first_add_fixes_dimension
              {| FaissVectorStore.index := None; FaissVectorStore.metadata := [];
                 FaissVectorStore.dimension := 768 |}
              empty_disk [one_chunk] (NdArray 3 [floats [1; 2; 3]]) eq_refl)
    as (dk' & Hrun).
  eexists _, dk'. split; [exact Hrun|reflexivity].
Defined.

(** ** The vector store: searching *)

(** [search] raises only the assertion of the index, and exactly when the
    index holds a vector and either the query has another dimension or
    the number of results asked for (5 when none is given) is not
    positive; on a store without vectors nothing is checked. *)
Theorem search_raises_exactly (fvec_L2sqr : vector -> vector -> float)
    (self : FaissVectorStore.t) (q : vector) (top_k : option Z) (e : exn) :
  FaissVectorStore.search fvec_L2sqr self q top_k = Raise e <->
  e = AssertionError /\
  exists ix : IndexFlatL2.t,
    FaissVectorStore.index self = Some ix /\
    IndexFlatL2.ntotal ix <> 0 /\
    (len q <> IndexFlatL2.d ix \/
     match top_k with Some k => k | None => Config.TOP_K end <= 0).
Proof.
  unfold FaissVectorStore.search.
  set (k := match top_k with Some k => k | None => Config.TOP_K end).
  destruct (FaissVectorStore.index self) as [ix|].
  - destruct (Z.eqb_spec (IndexFlatL2.ntotal ix) 0) as [Hzero|Hn].
    + split; [discriminate|]. intros (_ & ix' & [= <-] & Hne & _). contradiction.
    + unfold IndexFlatL2.search.
      destruct (Z.eqb_spec (len q) (IndexFlatL2.d ix)) as [Hq|Hq]; simpl.
      * destruct (Z.leb_spec k 0); simpl.
        -- split; [intros [= <-]; split; [reflexivity|]; eauto 6|].
           intros [-> _]. reflexivity.
        -- split; [discriminate|].
           intros (_ & ix' & [= <-] & _ & [H'|H']); [contradiction|lia].
      * split; [intros [= <-]; split; [reflexivity|]; eauto 6|].
        intros [-> _]. reflexivity.
  - split; [discriminate|]. intros (_ & ix' & H & _). discriminate H.
Qed.

Lemma search_raises_exactly_witness :
  FaissVectorStore.search fvec_L2sqr_ref three_vector_store (floats [0; 0; 0]) None
  = Raise AssertionError.
Proof.
  apply (proj2 (search_raises_exactly fvec_L2sqr_ref three_vector_store
                  (floats [0; 0; 0]) None AssertionError)).
  split; [reflexivity|]. eexists. split; [reflexivity|].
  split; [vm_compute; intros H; discriminate H|].
  left. vm_compute. intros H; discriminate H.
Defined.

Lemma scored_member (fvec_L2sqr : vector -> vector -> float)
    (ix : IndexFlatL2.t) (q v : vector) :
  In v (IndexFlatL2.xb ix) ->
  exists i : nat,
    In (fvec_L2sqr q v, Z.of_nat i) (IndexFlatL2.scored fvec_L2sqr ix q).
Proof.
  intros Hv. apply list_elem_of_In, list_elem_of_lookup in Hv as [i Hi].
  exists i. apply list_elem_of_In, list_elem_of_lookup. exists i.
  unfold IndexFlatL2.scored. rewrite list_lookup_imap, Hi. reflexivity.
Qed.

(** The head of a ranking is at most as far as any ranked vector. *)
Lemma ranking_head_nearest (ranking scored : list (float * Z)) (p x : float * Z)
    (rest : list (float * Z)) :
  ranking = p :: rest ->
  StronglySorted by_distance ranking ->
  Permutation ranking scored ->
  In x scored -> Float.is_nan (fst x) = false -> Float.leb (fst p) (fst x) = true.
Proof.
  intros -> Hsorted Hperm Hx Hnan.
  eapply Permutation_in in Hx; [|symmetry; exact Hperm].
  inversion Hsorted as [|? ? _ Hall]; subst.
  destruct Hx as [<-|Hx]; [apply leb_refl, Hnan|].
  rewrite Forall_forall in Hall. apply Hall, list_elem_of_In, Hx.
Qed.

(** A float equal to zero is a zero, and is reported. *)
Lemma zero_reported (x : float) :
  Float.eqb x Float.zero = true -> Float.ltb x IndexFlatL2.FLT_MAX = true.
Proof. destruct x as [s|[]| |[] m e]; try discriminate. reflexivity. Qed.

(** A float that is at most zero and not below zero is zero. *)
Lemma zero_between (x z : float) :
  Float.eqb z Float.zero = true ->
  Float.leb x z = true -> Float.ltb x Float.zero = false ->
  Float.eqb x Float.zero = true.
Proof.
  destruct z as [sz|[]| |[] mz ez]; try discriminate. intros _.
  destruct x as [s|[]| |[] m e]; intros Hle Hlt;
    first [discriminate Hle | discriminate Hlt | reflexivity].
Qed.

(** On a store that has a metadata record for every vector, each of the
    first [k] ranked vectors gives a hit. *)
Lemma search_hits (fvec_L2sqr : vector -> vector -> float)
    (self : FaissVectorStore.t) (ix : IndexFlatL2.t) (q : vector) (k : Z) :
  FaissVectorStore.index self = Some ix ->
  len q = IndexFlatL2.d ix ->
  1 <= k ->
  IndexFlatL2.ntotal ix <= len (FaissVectorStore.metadata self) ->
  exists hits : list FaissVectorStore.hit,
    FaissVectorStore.search fvec_L2sqr self q (Some k) = Ok hits /\
    Forall2 (hit_of (FaissVectorStore.metadata self))
      (firstn (Z.to_nat k)
         (IndexFlatL2.sort_hits
            (List.filter IndexFlatL2.reported
               (IndexFlatL2.scored fvec_L2sqr ix q))))
      hits.
Proof.
  intros Hix Hq Hk Hmd. eexists. split; [apply search_ranking; eassumption|].
  apply collect_pairs_valid, Forall_take, Forall_forall. intros p Hp.
  apply list_elem_of_In in Hp.
  eapply Permutation_in in Hp; [|apply sort_hits_perm].
  apply filter_In in Hp as [Hp _].
  apply scored_slots in Hp as (i & v & Hv & ->). simpl.
  apply lookup_lt_Some in Hv. unfold IndexFlatL2.ntotal, len in *. lia.
Qed.

(** The reference kernel gives no negative distance, and gives a vector
    of finite components the distance zero to itself. *)
Lemma binary_round_aux_sign (prec emax : Z) (mx ex : Z) (lx : SpecFloat.location) :
  not_negative (SpecFloat.binary_round_aux prec emax false mx ex lx).
Proof.
  unfold SpecFloat.binary_round_aux.
  destruct (SpecFloat.shr_fexp prec emax mx ex lx) as [mrs' e'].
  destruct (SpecFloat.shr_fexp prec emax _ e' SpecFloat.loc_Exact) as [mrs'' e''].
  destruct (SpecFloat.shr_m mrs''); [exact I| |exact I].
  destruct (Z.leb _ _); exact I.
Qed.

Lemma binary_round_sign (prec emax : Z) (m : positive) (e : Z) :
  not_negative (SpecFloat.binary_round prec emax false m e).
Proof.
  unfold SpecFloat.binary_round.
  destruct (SpecFloat.shl_align _ _ _) as [mz ez]. apply binary_round_aux_sign.
Qed.

Lemma square_sign (x : float) : not_negative (SpecFloat.SFmul 24 128 x x).
Proof.
  destruct x as [[]|[]| |[] m e]; simpl; try exact I; apply binary_round_aux_sign.
Qed.

Lemma add_sign (x y : float) :
  not_negative x -> not_negative y -> not_negative (SpecFloat.SFadd 24 128 x y).
Proof.
  destruct x as [[]|[]| |[] mx ex], y as [[]|[]| |[] my ey]; simpl;
    try contradiction; try (intros; exact I).
  intros _ _. apply binary_round_sign.
Qed.

Lemma kernel_from_sign (x : vector) : forall (y : vector) (res : float),
  not_negative res -> not_negative (fvec_L2sqr_from res x y).
Proof.
  induction x as [|a x IH]; intros [|b y] res Hres; simpl; try exact Hres.
  apply IH, add_sign; [exact Hres|apply square_sign].
Qed.

Lemma as_binary64_sign (x : float) : not_negative x -> not_negative (as_binary64 x).
Proof.
  destruct x as [s|s| |[] m e]; simpl; try (intros H; exact H); [contradiction|].
  intros _. apply binary_round_sign.
Qed.

Lemma not_negative_ltb (x : float) : not_negative x -> Float.ltb x Float.zero = false.
Proof. destruct x as [s|[]| |[] m e]; simpl; try contradiction; reflexivity. Qed.

Lemma fvec_L2sqr_ref_not_negative (x y : vector) :
  Float.ltb (fvec_L2sqr_ref x y) Float.zero = false.
Proof. apply not_negative_ltb, as_binary64_sign, kernel_from_sign. exact I. Qed.

Lemma sub_self (a : float) :
  is_finite a = true -> SpecFloat.SFsub 24 128 a a = Float.zero.
Proof.
  destruct a as [[]|s| |s m e]; try discriminate; intros _; try reflexivity.
  simpl. rewrite Z.sub_diag. reflexivity.
Qed.

Lemma kernel_from_self (v : vector) :
  forallb is_finite v = true -> fvec_L2sqr_from Float.zero v v = Float.zero.
Proof.
  induction v as [|a v IH]; [reflexivity|]. simpl.
  intros H. apply andb_prop in H as [Ha Hv]. rewrite (sub_self a Ha). simpl.
  apply IH, Hv.
Qed.

Lemma fvec_L2sqr_ref_self (v : vector) :
  forallb is_finite v = true -> Float.eqb (fvec_L2sqr_ref v v) Float.zero = true.
Proof. intros H. unfold fvec_L2sqr_ref. rewrite (kernel_from_self v H). reflexivity. Qed.

Lemma added_vector_found_with (fvec_L2sqr : vector -> vector -> float)
    (self : FaissVectorStore.t) (dk : FaissVectorStore.disk)
    (documents : list document) (embeddings : ndarray) (ix : IndexFlatL2.t)
    (v : vector) (k : Z) :
  FaissVectorStore.index self = Some ix ->
  shape1 embeddings = IndexFlatL2.d ix ->
  IndexFlatL2.ntotal ix <= len (FaissVectorStore.metadata self) ->
  len (rows embeddings) = len documents ->
  In v (rows embeddings) ->
  len v = shape1 embeddings ->
  1 <= k ->
  Float.eqb (fvec_L2sqr v v) Float.zero = true ->
  Forall (fun w => Float.ltb (fvec_L2sqr v w) Float.zero = false)
         (IndexFlatL2.xb ix ++ rows embeddings) ->
  exists (after : FaissVectorStore.t) (dk' : FaissVectorStore.disk)
         (nearest : FaissVectorStore.hit) (others : list FaissVectorStore.hit),
    FaissVectorStore.add_documents self dk documents embeddings = (Ok tt, after, dk') /\
    FaissVectorStore.search fvec_L2sqr after v (Some k) = Ok (nearest :: others) /\
    Float.eqb (FaissVectorStore.distance nearest) Float.zero = true.
Proof.
  intros Hix Hdim Hinv Hrows Hv Hlen Hk Hself Hpos.
  unfold FaissVectorStore.add_documents.
  rewrite Hix. simpl. rewrite Hix. unfold IndexFlatL2.add.
  destruct (Z.eqb_spec (shape1 embeddings) (IndexFlatL2.d ix)); [|contradiction].
  set (ix' := {| IndexFlatL2.d := IndexFlatL2.d ix;
                 IndexFlatL2.xb := IndexFlatL2.xb ix ++ rows embeddings |}).
  set (after := {| FaissVectorStore.index := Some ix';
                   FaissVectorStore.metadata :=
                     FaissVectorStore.metadata self ++ map doc_metadata documents;
                   FaissVectorStore.dimension := FaissVectorStore.dimension self |}).
  destruct (search_hits fvec_L2sqr after ix' v k eq_refl) as (hits & Hrun & Hhits);
    [simpl; lia|exact Hk| |].
  { unfold IndexFlatL2.ntotal, len in *. simpl.
    rewrite !length_app, length_map. lia. }
  destruct (scored_member fvec_L2sqr ix' v v) as [i Hi].
  { simpl. apply in_or_app. right. exact Hv. }
  set (reported := List.filter IndexFlatL2.reported
                     (IndexFlatL2.scored fvec_L2sqr ix' v)) in *.
  assert (In (fvec_L2sqr v v, Z.of_nat i) reported) as Hin.
  { apply filter_In. split; [exact Hi|]. apply zero_reported, Hself. }
  pose proof (sort_hits_perm reported) as Hperm.
  pose proof (sort_hits_sorted reported (reported_numbers _)) as Hsorted.
  destruct (IndexFlatL2.sort_hits reported) as [|p rest] eqn:Hranking.
  { apply Permutation_nil in Hperm. rewrite Hperm in Hin. destruct Hin. }
  destruct (Z.to_nat k) as [|k'] eqn:Hk'; [lia|].
  simpl in Hhits. inversion Hhits as [|? nearest ? others [Hdist _] _]; subst.
  exists after, (snd (FaissVectorStore.save after dk)), nearest, others.
  split; [reflexivity|]. split; [exact Hrun|].
  rewrite Hdist. apply (zero_between _ (fvec_L2sqr v v) Hself).
  - apply (ranking_head_nearest (p :: rest) _ p (fvec_L2sqr v v, Z.of_nat i) rest
             eq_refl Hsorted Hperm Hin).
    simpl. eapply ltb_number, zero_reported, Hself.
  - assert (Hp : In p reported).
    { eapply Permutation_in; [exact Hperm|left; reflexivity]. }
    apply filter_In in Hp as [Hp _].
    apply scored_slots in Hp as (j & w & Hw & ->). simpl.
    rewrite Forall_forall in Hpos. apply Hpos.
    eapply list_elem_of_lookup_2, Hw.
Qed.


(** After an [add_documents] that succeeds, a search for one of the added
    vectors returns a first hit at distance zero: with any kernel that
    gives the vector the distance zero to itself and gives no stored
    vector a negative distance; and so with the reference kernel, for a
    vector whose components are finite. *)
Theorem added_vector_is_found
    (self : FaissVectorStore.t) (dk : FaissVectorStore.disk)
    (documents : list document) (embeddings : ndarray) (ix : IndexFlatL2.t)
    (v : vector) (k : Z) :
  FaissVectorStore.index self = Some ix ->
  shape1 embeddings = IndexFlatL2.d ix ->
  IndexFlatL2.ntotal ix <= len (FaissVectorStore.metadata self) ->
  len (rows embeddings) = len documents ->
  In v (rows embeddings) ->
  len v = shape1 embeddings ->
  1 <= k ->
  (forall fvec_L2sqr : vector -> vector -> float,
     Float.eqb (fvec_L2sqr v v) Float.zero = true ->
     Forall (fun w => Float.ltb (fvec_L2sqr v w) Float.zero = false)
            (IndexFlatL2.xb ix ++ rows embeddings) ->
     exists (after : FaissVectorStore.t) (dk' : FaissVectorStore.disk)
            (nearest : FaissVectorStore.hit) (others : list FaissVectorStore.hit),
       FaissVectorStore.add_documents self dk documents embeddings
         = (Ok tt, after, dk') /\
       FaissVectorStore.search fvec_L2sqr after v (Some k)
         = Ok (nearest :: others) /\
       Float.eqb (FaissVectorStore.distance nearest) Float.zero = true) /\
  (forallb is_finite v = true ->
   exists (after : FaissVectorStore.t) (dk' : FaissVectorStore.disk)
          (nearest : FaissVectorStore.hit) (others : list FaissVectorStore.hit),
     FaissVectorStore.add_documents self dk documents embeddings
       = (Ok tt, after, dk') /\
     FaissVectorStore.search fvec_L2sqr_ref after v (Some k)
       = Ok (nearest :: others) /\
     Float.eqb (FaissVectorStore.distance nearest) Float.zero = true).
Proof.
  intros Hix Hdim Hinv Hrows Hv Hlen Hk. split.
  - intros fvec_L2sqr Hself Hpos.
    eapply added_vector_found_with; eassumption.
  - intros Hfinite.
    eapply added_vector_found_with; try eassumption.
    + apply fvec_L2sqr_ref_self, Hfinite.
    + apply Forall_forall. intros w _. apply fvec_L2sqr_ref_not_negative.
Qed.

Lemma added_vector_is_found_witness :
  exists (after : FaissVectorStore.t) (nearest : FaissVectorStore.hit)
         (others : list FaissVectorStore.hit),
    FaissVectorStore.search fvec_L2sqr_ref after (floats [1; 2]) (Some 3)
      = Ok (nearest :: others) /\
    Float.eqb (FaissVectorStore.distance nearest) Float.zero = true.
Proof.
  destruct (proj2 (added_vector_is_found two_dim_store empty_disk [one_chunk]
              (NdArray 2 [floats [1; 2]]) (IndexFlatL2.create 2) (floats [1; 2]) 3
              eq_refl eq_refl ltac:(vm_compute; intros H; discriminate H)
              eq_refl ltac:(left; reflexivity) eq_refl ltac:(lia)) eq_refl)
    as (after & dk' & nearest & others & _ & Hrun & Hzero).
  exists after, nearest, others. split; assumption.
Defined.

(** ** The vector store: construction *)

(** [load] never raises an I/O error: it turns it into its result. *)
Lemma load_no_io_error (self : FaissVectorStore.t) (dk : FaissVectorStore.disk) (e : exn) :
  fst (FaissVectorStore.load self dk) = Raise e ->
  FaissVectorStore.is_io_error e = false.
Proof.
  unfold FaissVectorStore.load.
  destruct (FaissVectorStore.index_file dk) as [ix|e1]; simpl.
  - destruct (FaissVectorStore.metadata_file dk) as [md|e2]; simpl; [discriminate|].
    destruct (FaissVectorStore.is_io_error e2) eqn:He2; [discriminate|].
    intros [= <-]. exact He2.
  - destruct (FaissVectorStore.is_io_error e1) eqn:He1; [discriminate|].
    intros [= <-]. exact He1.
Qed.

(** When both files exist, the constructor never falls back to an empty
    index: the handler around [load] is never entered, because [load]
    catches the same exceptions itself.  The store is what [load] leaves,
    also when [load] reported a failure, and the disk is not written. *)
Theorem construction_keeps_load_state (dimension : Z) (dk : FaissVectorStore.disk) :
  let fresh := {| FaissVectorStore.index := None;
                  FaissVectorStore.metadata := [];
                  FaissVectorStore.dimension := dimension |} in
  StoreConstruction.__init__ dimension (Ok tt) true true dk =
    (match fst (FaissVectorStore.load fresh dk) with
     | Ok _ => Ok (snd (FaissVectorStore.load fresh dk))
     | Raise e => Raise e
     end, dk) /\
  (forall ix, FaissVectorStore.index_file dk = Ok ix ->
     FaissVectorStore.metadata_file dk = Raise OSError ->
     StoreConstruction.__init__ dimension (Ok tt) true true dk =
       (Ok {| FaissVectorStore.index := Some ix;
              FaissVectorStore.metadata := [];
              FaissVectorStore.dimension := dimension |}, dk)) /\
  (FaissVectorStore.index_file dk = Raise OSError ->
     StoreConstruction.__init__ dimension (Ok tt) true true dk = (Ok fresh, dk)).
Proof.
  intros fresh. unfold StoreConstruction.__init__. simpl. fold fresh.
  split; [|split].
  - pose proof (load_no_io_error fresh dk) as Hio.
    destruct (FaissVectorStore.load fresh dk) as [[b|e] st]; simpl in *;
      [reflexivity|].
    rewrite (Hio e eq_refl). reflexivity.
  - intros ix Hix Hmd. unfold FaissVectorStore.load. rewrite Hix, Hmd. reflexivity.
  - intros Hix. unfold FaissVectorStore.load. rewrite Hix. reflexivity.
Qed.

Lemma construction_keeps_load_state_witness :
  StoreConstruction.__init__ 768 (Ok tt) true true
    {| FaissVectorStore.index_file := Ok one_vector_index;
       FaissVectorStore.metadata_file := Raise OSError;
       FaissVectorStore.writing := FaissVectorStore.all_written |} =
  (Ok {| FaissVectorStore.index := Some one_vector_index;
         FaissVectorStore.metadata := [];
         FaissVectorStore.dimension := 768 |},
   {| FaissVectorStore.index_file := Ok one_vector_index;
      FaissVectorStore.metadata_file := Raise OSError;
      FaissVectorStore.writing := FaissVectorStore.all_written |}).
Proof.
  exact (proj1 (proj2 (construction_keeps_load_state 768
           {| FaissVectorStore.index_file := Ok one_vector_index;
              FaissVectorStore.metadata_file := Raise OSError;
              FaissVectorStore.writing := FaissVectorStore.all_written |}))
         one_vector_index eq_refl eq_refl).
Defined.

(** ** The retriever: recovering content *)

(** [_get_content_from_metadata] returns the [content] entry when there
    is one.  Its last fallback can fail: it raises, a [TypeError], exactly
    when there is no [content] entry, the lines cannot be read back, the
    type is [function] and the [arguments] entry is an integer or a pair
    of integers; a list of strings, a string and a dictionary are joined. *)
Theorem content_recovery_outcomes
    (readlines : pyval -> result (list str)) (format : pyval -> str) (md : dict) :
  (forall c, md !! "content"%string = Some c ->
     Retriever._get_content_from_metadata readlines format md = Ok c) /\
  (forall e,
     Retriever._get_content_from_metadata readlines format md = Raise e <->
     e = TypeError /\
     md !! "content"%string = None /\
     Retriever.content_from_lines readlines md
       (Retriever.get_or md "file_path" "unknown") = None /\
     md !! "type"%string = Some (VStr (s2l "function")) /\
     ((exists z, md !! "arguments"%string = Some (VInt z)) \/
      (exists a b, md !! "arguments"%string = Some (VPair a b)))).
Proof.
  unfold Retriever._get_content_from_metadata. split.
  - intros c ->. reflexivity.
  - intros e. destruct (md !! "content"%string) as [c|] eqn:Hc.
    { split; [discriminate|]. intros (_ & H & _). discriminate H. }
    destruct (Retriever.content_from_lines readlines md _) as [text|] eqn:Hlines.
    { split; [discriminate|]. intros (_ & _ & H & _). discriminate H. }
    unfold Retriever.get_or at 1.
    destruct (md !! "type"%string) as [[ty| | | |]|] eqn:Hty;
      try (split; [discriminate|]; intros (_ & _ & _ & H & _); discriminate H).
    + destruct (bool_decide (ty = s2l "class")) eqn:Hclass.
      { apply bool_decide_eq_true_1 in Hclass as ->.
        split; [discriminate|]. intros (_ & _ & _ & H & _). discriminate H. }
      destruct (bool_decide (ty = s2l "function")) eqn:Hfun.
      * apply bool_decide_eq_true_1 in Hfun as ->.
        destruct (md !! "arguments"%string) as [[s|z|l|a b|d]|] eqn:Hargs;
          cbn [Retriever.join_value mbind result_bind];
          try (split; [discriminate|];
               intros (_ & _ & _ & _ & [[z' H]|(a' & b' & H)]); discriminate H).
        -- split; [intros [= <-]; repeat split; eauto|]. intros [-> _]. reflexivity.
        -- split; [intros [= <-]; repeat split; eauto|]. intros [-> _]. reflexivity.
      * apply bool_decide_eq_false_1 in Hfun.
        split; [discriminate|]. intros (_ & _ & _ & [= H] & _). contradiction.
Qed.

Lemma content_recovery_outcomes_witness :
  Retriever._get_content_from_metadata (fun _ => Raise OSError) (fun _ => [])
    (<["type"%string := VStr (s2l "function")]>
       (<["arguments"%string := VInt 3]> ∅)) = Raise TypeError.
Proof.
  apply (proj2 (content_recovery_outcomes (fun _ => Raise OSError) (fun _ => [])
                  (<["type"%string := VStr (s2l "function")]>
                     (<["arguments"%string := VInt 3]> ∅)))).
  split; [reflexivity|]. split; [reflexivity|]. split; [reflexivity|].
  split; [reflexivity|]. left. exists 3. reflexivity.
Defined.

(** A dictionary under [arguments] gives its keys. *)
Example content_recovery_joins_keys :
  Retriever._get_content_from_metadata (fun _ => Raise OSError)
    (fun v => match v with VStr s => s | _ => [] end)
    (<["type"%string := VStr (s2l "function")]>
       (<["name"%string := VStr (s2l "f")]>
          (<["arguments"%string := VDict [("branches"%string, 1); ("x"%string, 2)]]> ∅)))
  = Ok (VStr (s2l "def f(branches, x):
    # Content not available - check file unknown
    pass")).
Proof. vm_compute. reflexivity. Qed.

(** ** The retriever: ranking *)




(** ** Embedding in batches *)

(** The start indices of a positive-step range, sliced out of a list,
    are its consecutive windows. *)
Lemma range_slices_windows {A} (l : list A) (step : Z) (starts : list Z) :
  0 < step ->
  range0 (len l) step = Ok starts ->
  map (fun i => slice l i (i + step)) starts =
    windows (Z.to_nat step) (length starts) l /\
  (length l <= length starts * Z.to_nat step)%nat.
Proof.
  intros Hstep. unfold range0.
  destruct (Z.eqb_spec step 0); [lia|].
  destruct (Z.ltb_spec step 0); [lia|]. simpl.
  destruct (Z.leb_spec (len l) 0) as [Hempty|Hlen]; intros [= <-].
  - split; [reflexivity|]. unfold len in Hempty. simpl. lia.
  - rewrite length_map, length_seq.
    pose proof (Z.div_pos (len l - 1) step ltac:(lia) Hstep) as Hq.
    pose proof (Z.mul_div_le (len l - 1) step Hstep) as Hlo.
    pose proof (Z.mul_succ_div_gt (len l - 1) step Hstep) as Hhi.
    split.
    + unfold windows. rewrite map_map. apply map_ext_in.
      intros j Hj. apply in_seq in Hj.
      assert (Z.of_nat j * step <= len l) by nia.
      rewrite slice_window by nia.
      do 2 f_equal. rewrite Z2Nat.inj_mul by lia. rewrite Nat2Z.id. reflexivity.
    + unfold len in *. nia.
Qed.

Lemma flat_map_concat_map {A B} (f : A -> list B) (l : list A) :
  flat_map f l = concat (map f l).
Proof. induction l as [|x l IH]; simpl; congruence. Qed.

Lemma embedding_rows_windows (model : list str -> result (list vector))
    (texts : list str) :
  exists count : nat,
    EmbeddingGenerator.embedding_rows model texts =
      Ok (concat (map (EmbeddingGenerator._get_embeddings_batch model)
                      (windows 8 count texts))) /\
    concat (windows 8 count texts) = texts.
Proof.
  unfold EmbeddingGenerator.embedding_rows.
  destruct (range0 (len texts) EmbeddingGenerator.batch_size) as [starts|e] eqn:Hrange.
  - destruct (range_slices_windows texts EmbeddingGenerator.batch_size starts
                ltac:(reflexivity) Hrange) as [Hslices Hcover].
    change (Z.to_nat EmbeddingGenerator.batch_size) with 8%nat in Hslices, Hcover.
    exists (length starts). cbn [mbind result_bind]. split.
    + rewrite flat_map_concat_map, <- Hslices, map_map. reflexivity.
    + apply concat_windows. exact Hcover.
  - unfold range0, EmbeddingGenerator.batch_size in Hrange. simpl in Hrange.
    destruct (len texts <=? 0); discriminate Hrange.
Qed.

(** Batching is transparent: with a model that embeds every text of a
    batch on its own, [generate_embeddings] hands [numpy] exactly one row
    per text, the embedding of that text, in the order of the texts. *)
Theorem embedding_batches_are_transparent
    (model : list str -> result (list vector))
    (np_array : list vector -> result ndarray)
    (embed : str -> vector) (texts : list str) :
  (forall batch, model batch = Ok (map embed batch)) ->
  EmbeddingGenerator.generate_embeddings model np_array texts =
    np_array (map embed texts).
Proof.
  intros Hmodel. unfold EmbeddingGenerator.generate_embeddings.
  destruct (embedding_rows_windows model texts) as (count & -> & Hcat).
  cbn [mbind result_bind]. f_equal.
  remember (windows 8 count texts) as batches eqn:Hbatches. clear Hbatches.
  rewrite <- Hcat. clear Hcat.
  induction batches as [|w ws IH]; [reflexivity|].
  simpl. rewrite map_app, IH.
  unfold EmbeddingGenerator._get_embeddings_batch. rewrite Hmodel. reflexivity.
Qed.

Lemma embedding_batches_are_transparent_witness :
  EmbeddingGenerator.generate_embeddings
    (fun batch => Ok (map (fun _ => floats [1; 0]) batch))
    (fun rows => Ok (NdArray 2 rows)) [s2l "a"; s2l "b"] =
  Ok (NdArray 2 [floats [1; 0]; floats [1; 0]]).
Proof.
  exact (embedding_batches_are_transparent
           (fun batch => Ok (map (fun _ => floats [1; 0]) batch))
           (fun rows => Ok (NdArray 2 rows)) (fun _ => floats [1; 0])
           [s2l "a"; s2l "b"] (fun batch => eq_refl)).
Defined.

(** Whatever the model does, as long as a batch it embeds gives one row
    per text, [generate_embeddings] hands [numpy] one row per text: a
    batch that fails is replaced by zero vectors of the configured
    dimension, and the other batches are kept. *)
Theorem embedding_rows_match_texts
    (model : list str -> result (list vector))
    (np_array : list vector -> result ndarray) (texts : list str) :
  (forall batch rows, model batch = Ok rows -> length rows = length batch) ->
  exists rows : list vector,
    EmbeddingGenerator.generate_embeddings model np_array texts = np_array rows /\
    length rows = length texts /\
    ((forall batch, exists e, model batch = Raise e) ->
     rows = repeat (repeat Float.zero 768) (length texts)).
Proof.
  intros Hmodel. unfold EmbeddingGenerator.generate_embeddings.
  destruct (embedding_rows_windows model texts) as (count & -> & Hcat).
  cbn [mbind result_bind]. eexists. split; [reflexivity|].
  remember (windows 8 count texts) as batches eqn:Hbatches. clear Hbatches.
  rewrite <- Hcat. clear Hcat.
  induction batches as [|w ws [IHlen IHzero]]; [split; reflexivity|].
  simpl. rewrite !length_app. split.
  - rewrite IHlen. f_equal.
    unfold EmbeddingGenerator._get_embeddings_batch.
    destruct (model w) as [rows|e] eqn:Hw; [apply Hmodel, Hw|apply repeat_length].
  - intros Hfail. rewrite (IHzero Hfail), repeat_app. f_equal.
    unfold EmbeddingGenerator._get_embeddings_batch.
    destruct (Hfail w) as [e ->]. reflexivity.
Qed.

Lemma embedding_rows_match_texts_witness :
  exists rows : list vector,
    EmbeddingGenerator.generate_embeddings (fun _ => Raise RuntimeError)
      (fun rows => Ok (NdArray 768 rows)) [s2l "a"; s2l "b"; s2l "c"]
      = Ok (NdArray 768 rows) /\
    length rows = 3%nat.
Proof.
  destruct (embedding_rows_match_texts (fun _ => Raise RuntimeError)
              (fun rows => Ok (NdArray 768 rows)) [s2l "a"; s2l "b"; s2l "c"])
    as (rows & Hrun & Hlen & _).
  - intros batch rows H. discriminate H.
  - exists rows. split; [exact Hrun|exact Hlen].
Defined.

(** ** The metadata extractor *)

Lemma syntax_nodes_unfold (n : MetadataExtractor.syntax) :
  syntax_nodes n = n :: flat_map syntax_nodes (MetadataExtractor.children n).
Proof. destruct n; reflexivity. Qed.

Lemma syntax_walk_queue_nodes (todo : list MetadataExtractor.syntax) :
  Permutation (MetadataExtractor.walk_queue todo) (flat_map syntax_nodes todo).
Proof.
  funelim (MetadataExtractor.walk_queue todo); [constructor|].
  simpl. rewrite syntax_nodes_unfold. simpl. constructor.
  etransitivity; [eassumption|].
  rewrite flat_map_app. apply Permutation_app_comm.
Qed.

Lemma syntax_walk_nodes (n : MetadataExtractor.syntax) :
  Permutation (MetadataExtractor.walk n) (syntax_nodes n).
Proof.
  unfold MetadataExtractor.walk. etransitivity; [apply syntax_walk_queue_nodes|].
  simpl. rewrite app_nil_r. reflexivity.
Qed.

Lemma code_metadata_other_keys (tree : MetadataExtractor.syntax) (key : string) :
  ~ In key extractor_keys -> MetadataExtractor.code_metadata tree !! key = None.
Proof.
  intros Hkey. unfold MetadataExtractor.code_metadata.
  assert (key <> "imports"%string /\ key <> "function_calls"%string /\
          key <> "complexity"%string) as (H1 & H2 & H3).
  { unfold extractor_keys in Hkey. simpl in Hkey. repeat split; intros ->; tauto. }
  rewrite lookup_insert_ne by congruence.
  destruct (flat_map MetadataExtractor.calls_of _);
    destruct (flat_map MetadataExtractor.imports_of _);
    rewrite ?lookup_insert_ne by congruence; apply lookup_empty.
Qed.

Lemma enrich_document_keeps (ast_parse : str -> result MetadataExtractor.syntax)
    (doc doc' : document) :
  MetadataExtractor.enrich_document ast_parse doc = Ok doc' ->
  enriched_from doc doc' /\
  (Chunker.type_is (doc_metadata doc) "class"
   || Chunker.type_is (doc_metadata doc) "function" = false -> doc' = doc) /\
  (forall e, ast_parse (content doc) = Raise e -> doc_metadata doc' = doc_metadata doc).
Proof.
  unfold MetadataExtractor.enrich_document.
  destruct (doc_metadata doc !! "type"%string); [|discriminate].
  destruct (_ || _).
  - unfold MetadataExtractor._extract_code_metadata.
    destruct (ast_parse (content doc)) as [tree|e].
    + intros [= <-]. split; [|split; [discriminate|discriminate]].
      split; [reflexivity|]. intros key Hkey. simpl.
      apply lookup_union_r, code_metadata_other_keys, Hkey.
    + destruct e; try discriminate. intros [= <-].
      split; [|split; [discriminate|]].
      * split; [reflexivity|]. intros key _. simpl. rewrite (left_id ∅ _). reflexivity.
      * intros _ _. simpl. apply (left_id ∅ _).
  - intros [= <-]. split; [|split; reflexivity].
    split; reflexivity.
Qed.

Lemma enrich_loop_keeps (ast_parse : str -> result MetadataExtractor.syntax)
    (docs : list document) :
  forall acc out,
    for_each (fun acc doc => doc' ← MetadataExtractor.enrich_document ast_parse doc;
                             Ok (acc ++ [doc'])) docs acc = Ok out ->
    exists news, out = acc ++ news /\
      Forall2 (fun doc doc' =>
                 MetadataExtractor.enrich_document ast_parse doc = Ok doc') docs news.
Proof.
  induction docs as [|doc docs IH]; intros acc out Hrun.
  - injection Hrun as <-. exists []. rewrite app_nil_r. split; [reflexivity|constructor].
  - cbn [for_each] in Hrun.
    destruct (MetadataExtractor.enrich_document ast_parse doc) as [doc'|e] eqn:Hdoc;
      [|discriminate Hrun].
    cbn [mbind result_bind] in Hrun.
    destruct (IH _ _ Hrun) as (news & -> & Hnews).
    exists (doc' :: news). rewrite <- app_assoc. split; [reflexivity|].
    constructor; assumption.
Qed.

(** Enrichment keeps the documents: as many, in the same order, each with
    its content and with every metadata entry under a key other than
    [imports], [function_calls] and [complexity]; a document that is
    neither a class nor a function, or whose text does not parse, is
    unchanged. *)
Theorem enrich_metadata_keeps_documents
    (ast_parse : str -> result MetadataExtractor.syntax)
    (documents out : list document) :
  MetadataExtractor.enrich_metadata ast_parse documents = Ok out ->
  Forall2 (fun doc doc' =>
             enriched_from doc doc' /\
             (Chunker.type_is (doc_metadata doc) "class"
              || Chunker.type_is (doc_metadata doc) "function" = false ->
              doc' = doc) /\
             (forall e, ast_parse (content doc) = Raise e ->
                        doc_metadata doc' = doc_metadata doc))
          documents out.
Proof.
  unfold MetadataExtractor.enrich_metadata. intros Hrun.
  apply enrich_loop_keeps in Hrun as (news & -> & Hnews). simpl.
  eapply Forall2_impl; [exact Hnews|].
  intros doc doc'. apply enrich_document_keeps.
Qed.

Lemma enrich_metadata_keeps_documents_witness :
  Forall2 enriched_from
    [{| content := broken_source; doc_metadata := class_metadata |}]
    [{| content := broken_source; doc_metadata := class_metadata |}].
Proof.
  eapply Forall2_impl;
    [exact (enrich_metadata_keeps_documents (fun _ => Raise SyntaxError)
              [{| content := broken_source; doc_metadata := class_metadata |}]
              [{| content := broken_source; doc_metadata := class_metadata |}]
              ltac:(vm_compute; reflexivity))|].
  intros doc doc' [H _]. exact H.
Defined.

Lemma syntax_children_ind (P : MetadataExtractor.syntax -> Prop) :
  (forall n, Forall P (MetadataExtractor.children n) -> P n) -> forall n, P n.
Proof.
  intros Hstep. fix IH 1. intros [k cs].
  apply Hstep. simpl.
  induction cs as [|c cs IHcs]; constructor; [apply IH | exact IHcs].
Qed.

Lemma filter_length_permutation {A} (f : A -> bool) (l l' : list A) :
  Permutation l l' -> length (List.filter f l) = length (List.filter f l').
Proof.
  induction 1 as [|x l l' _ IH|x y l|l l' l'' _ IH1 _ IH2]; simpl.
  - reflexivity.
  - destruct (f x); simpl; congruence.
  - destruct (f x), (f y); reflexivity.
  - congruence.
Qed.

Lemma branches_of_nodes (n : MetadataExtractor.syntax) :
  len (List.filter MetadataExtractor.is_branch (syntax_nodes n)) = count_branches n.
Proof.
  induction n as [n IH] using syntax_children_ind.
  destruct n as [k cs]. simpl in IH.
  cbn [syntax_nodes count_branches List.filter].
  assert (len (List.filter MetadataExtractor.is_branch (flat_map syntax_nodes cs))
          = fold_right Z.add 0 (map count_branches cs)) as Hcs.
  { induction cs as [|c cs IHcs]; [reflexivity|].
    inversion IH as [|? ? Hc Hrest]; subst.
    cbn [flat_map map fold_right]. rewrite List.filter_app.
    unfold len in *. rewrite length_app, Nat2Z.inj_add, Hc, IHcs by assumption.
    reflexivity. }
  rewrite <- Hcs. unfold len.
  destruct (MetadataExtractor.is_branch _); simpl length; lia.
Qed.

(** For a class or function whose text parses, enrichment sets
    [complexity] to the number of [If], [For], [While] and [Try] nodes of
    the whole syntax tree, nested ones included, whatever the entry held
    before. *)
Theorem complexity_counts_branch_nodes
    (ast_parse : str -> result MetadataExtractor.syntax)
    (doc : document) (tree : MetadataExtractor.syntax) :
  Chunker.type_is (doc_metadata doc) "class"
  || Chunker.type_is (doc_metadata doc) "function" = true ->
  ast_parse (content doc) = Ok tree ->
  exists doc',
    MetadataExtractor.enrich_metadata ast_parse [doc] = Ok [doc'] /\
    doc_metadata doc' !! "complexity"%string
    = Some (VDict [("branches"%string, count_branches tree)]).
Proof.
  intros Htype Hparse.
  assert (exists v, doc_metadata doc !! "type"%string = Some v) as [v Hv].
  { unfold Chunker.type_is in Htype.
    destruct (doc_metadata doc !! "type"%string) as [v|]; [eauto|discriminate Htype]. }
  eexists. split.
  - unfold MetadataExtractor.enrich_metadata. cbn [for_each].
    unfold MetadataExtractor.enrich_document.
    rewrite Hv, Htype. unfold MetadataExtractor._extract_code_metadata.
    rewrite Hparse. reflexivity.
  - cbn [doc_metadata]. apply lookup_union_Some_l.
    unfold MetadataExtractor.code_metadata. rewrite lookup_insert_eq.
    rewrite <- branches_of_nodes. unfold len.
    rewrite (filter_length_permutation _ _ _ (syntax_walk_nodes tree)).
    reflexivity.
Qed.

Lemma complexity_counts_branch_nodes_witness :
  exists doc',
    MetadataExtractor.enrich_metadata (fun _ => Ok nested_branches)
      [{| content := s2l "def f(): pass";
          doc_metadata := {["type"%string := VStr (s2l "function")]} |}]
    = Ok [doc'] /\
    doc_metadata doc' !! "complexity"%string = Some (VDict [("branches"%string, 2)]).
Proof.
  apply (complexity_counts_branch_nodes (fun _ => Ok nested_branches)
           {| content := s2l "def f(): pass";
              doc_metadata := {["type"%string := VStr (s2l "function")]} |}
           nested_branches); vm_compute; reflexivity.
Defined.

(** ** Indexing a code base *)

Lemma parsed_documents_units
    (read_file : str -> result str) (ast_parse : str -> result AstParser.node)
    (stack_depth : nat)
    (paths : list str) :
  Forall (fun doc => exists path, In path paths /\ unit_from path doc)
         (parsed_documents read_file ast_parse stack_depth paths).
Proof.
  unfold parsed_documents. induction paths as [|path paths IH]; [constructor|].
  cbn [flat_map]. apply Forall_app. split.
  - destruct (AstParser.parse_file read_file ast_parse stack_depth path) as [docs|e] eqn:Hfile;
      [|constructor].
    eapply Forall_impl; [apply (parse_file_units _ _ _ _ _ Hfile)|].
    intros doc Hdoc. exists path. split; [left; reflexivity|exact Hdoc].
  - eapply Forall_impl; [exact IH|].
    intros doc (p & Hp & Hdoc). exists p. split; [right; exact Hp|exact Hdoc].
Qed.

Lemma unit_from_same_keys (path : str) (doc doc' : document) :
  unit_from path doc ->
  doc_metadata doc' !! "file_path"%string = doc_metadata doc !! "file_path"%string ->
  doc_metadata doc' !! "type"%string = doc_metadata doc !! "type"%string ->
  unit_from path doc'.
Proof.
  intros [Hpath Htype] Hp Ht. unfold unit_from. rewrite Hp, Ht. split; assumption.
Qed.

Lemma enrich_document_returns (unit_parse : str -> result MetadataExtractor.syntax)
    (doc : document) :
  (forall text e, unit_parse text = Raise e -> e = SyntaxError) ->
  is_Some (doc_metadata doc !! "type"%string) ->
  exists doc', MetadataExtractor.enrich_document unit_parse doc = Ok doc'.
Proof.
  intros Hparse [v Hv]. unfold MetadataExtractor.enrich_document. rewrite Hv.
  destruct (_ || _); [|eauto].
  unfold MetadataExtractor._extract_code_metadata.
  destruct (unit_parse (content doc)) as [tree|e] eqn:Hunit; [simpl; eauto|].
  rewrite (Hparse _ _ Hunit). simpl. eauto.
Qed.

Lemma enrich_loop_returns (unit_parse : str -> result MetadataExtractor.syntax)
    (docs : list document) :
  (forall text e, unit_parse text = Raise e -> e = SyntaxError) ->
  Forall (fun doc => is_Some (doc_metadata doc !! "type"%string)) docs ->
  forall acc, exists out,
    for_each (fun acc doc => doc' ← MetadataExtractor.enrich_document unit_parse doc;
                             Ok (acc ++ [doc'])) docs acc = Ok out.
Proof.
  intros Hparse Hall. induction Hall as [|doc docs Hdoc _ IH]; intros acc.
  - simpl. eauto.
  - cbn [for_each].
    destruct (enrich_document_returns unit_parse doc Hparse Hdoc) as [doc' ->].
    cbn [mbind result_bind]. apply IH.
Qed.

Lemma chunk_documents_typed (self : Chunker.t) (docs : list document) :
  Chunker.chunk_size self <> 0 ->
  Forall (fun doc => is_Some (doc_metadata doc !! "type"%string)) docs ->
  exists out,
    Chunker.chunk_documents self docs = Ok out /\
    Forall (fun chunk => exists doc, In doc docs /\
              doc_metadata chunk !! "file_path"%string
              = doc_metadata doc !! "file_path"%string /\
              doc_metadata chunk !! "type"%string
              = doc_metadata doc !! "type"%string) out.
Proof.
  intros Hcs Hall. induction Hall as [|doc docs Hdoc _ IH].
  - exists []. split; [reflexivity|constructor].
  - rewrite chunk_documents_cons.
    pose proof (chunk_document_outcome self doc Hcs) as Hout.
    destruct Hdoc as [v Hv]. rewrite Hv in Hout. destruct Hout as [part Hpart].
    rewrite Hpart. cbn [mbind result_bind].
    destruct IH as (out & -> & Hout). cbn [mbind result_bind].
    eexists. split; [reflexivity|]. apply Forall_app. split.
    + apply Forall_lookup_2. intros i chunk Hi.
      destruct (chunk_document_stamped self doc part Hpart i chunk Hi)
        as (_ & _ & Hkeys).
      exists doc. split; [left; reflexivity|].
      split; apply Hkeys; intros H; discriminate H.
    + eapply Forall_impl; [exact Hout|].
      intros chunk (d & Hd & Hkeys). exists d. split; [right; exact Hd|exact Hkeys].
Qed.

(** The first three stages of indexing cannot fail, when the chunk size
    is not zero and [ast.parse] fails only with a syntax error: parsing a
    directory, enriching and chunking give chunks, and each chunk carries
    the path of a [.py] file of the walk outside the skipped directories
    with one of the types [class], [function] and [raw_text]. *)
Theorem indexing_prepares_chunks
    (read_file : str -> result str) (file_parse : str -> result AstParser.node)
    (stack_depth : nat) (unit_parse : str -> result MetadataExtractor.syntax)
    (chunker : Chunker.t) (files_parsed : Z) (walked : list (str * list str)) :
  Chunker.chunk_size chunker <> 0 ->
  (forall text e, unit_parse text = Raise e -> e = SyntaxError) ->
  exists chunked,
    CodePilot.chunked_documents read_file file_parse stack_depth unit_parse
      chunker files_parsed walked = Ok chunked /\
    Forall (fun chunk => exists path,
              In path (eligible_paths walked) /\ unit_from path chunk) chunked.
Proof.
  intros Hcs Hparse. unfold CodePilot.chunked_documents.
  unfold DirectoryScan.parse_directory. rewrite scan_directories_fold.
  cbn [DirectoryScan.documents app].
  pose proof (parsed_documents_units read_file file_parse stack_depth
                (eligible_paths walked))
    as Hunits.
  set (parsed := parsed_documents read_file file_parse stack_depth
                   (eligible_paths walked)) in *.
  assert (Forall (fun doc => is_Some (doc_metadata doc !! "type"%string)) parsed)
    as Htyped.
  { eapply Forall_impl; [exact Hunits|].
    intros doc (path & _ & _ & ty & Hty & _). rewrite Hty. eauto. }
  unfold MetadataExtractor.enrich_metadata.
  destruct (enrich_loop_returns unit_parse parsed Hparse Htyped []) as [enriched Hrun].
  rewrite Hrun. cbn [mbind result_bind].
  destruct (enrich_loop_keeps unit_parse parsed [] enriched Hrun)
    as (news & -> & Hnews).
  cbn [app] in *.
  assert (Forall (fun doc => exists path,
                    In path (eligible_paths walked) /\ unit_from path doc) news)
    as Hunits'.
  { clear Hrun Htyped. induction Hnews as [|doc doc' docs docs' Hdoc _ IH];
      [constructor|].
    apply Forall_cons in Hunits as [(path & Hpath & Hunit) Hrest].
    constructor; [|apply IH, Hrest].
    exists path. split; [exact Hpath|].
    destruct (enrich_document_keeps unit_parse doc doc' Hdoc) as ((_ & Hkeys) & _).
    apply (unit_from_same_keys path doc doc' Hunit);
      apply Hkeys; unfold extractor_keys; simpl;
      intros [H|[H|[H|[]]]]; discriminate H. }
  assert (Forall (fun doc => is_Some (doc_metadata doc !! "type"%string)) news)
    as Htyped'.
  { eapply Forall_impl; [exact Hunits'|].
    intros doc (path & _ & _ & ty & Hty & _). rewrite Hty. eauto. }
  destruct (chunk_documents_typed chunker news Hcs Htyped') as (chunked & -> & Hchunks).
  exists chunked. split; [reflexivity|].
  eapply Forall_impl; [exact Hchunks|].
  intros chunk (doc & Hdoc & Hp & Ht).
  rewrite Forall_forall in Hunits'.
  destruct (Hunits' doc) as (path & Hpath & Hunit); [apply list_elem_of_In, Hdoc|].
  exists path. split; [exact Hpath|].
  exact (unit_from_same_keys path doc chunk Hunit Hp Ht).
Qed.

Lemma indexing_prepares_chunks_witness :
  exists chunked,
    CodePilot.chunked_documents (fun _ => Ok sample_text) (fun _ => Ok sample_tree)
      1000 (fun _ => Ok nested_branches) (Chunker.__init__ None None) 0 sample_walk
    = Ok chunked /\
    Forall (fun chunk => exists path,
              In path (eligible_paths sample_walk) /\ unit_from path chunk) chunked.
Proof.
  apply (indexing_prepares_chunks (fun _ => Ok sample_text) (fun _ => Ok sample_tree)
           1000 (fun _ => Ok nested_branches) (Chunker.__init__ None None) 0 sample_walk).
  - vm_compute. intros H; discriminate H.
  - intros text e H. discriminate H.
Defined.




(** ** The model check of the Ollama client *)

Lemma all_strings_map (names : list str) :
  OllamaClient.all_strings (map Some names) = Some names.
Proof.
  induction names as [|name names IH]; [reflexivity|].
  simpl. rewrite IH. reflexivity.
Qed.

Lemma all_strings_Some (model_names : list (option str)) (names : list str) :
  OllamaClient.all_strings model_names = Some names -> model_names = map Some names.
Proof.
  revert names. induction model_names as [|[name|] rest IH]; intros names Hall.
  - injection Hall as <-. reflexivity.
  - simpl in Hall. destruct (OllamaClient.all_strings rest) as [names'|];
      [|discriminate Hall].
    injection Hall as <-. simpl. rewrite (IH names' eq_refl). reflexivity.
  - discriminate Hall.
Qed.

Lemma listed_spec (model_name : str) (names : list str) :
  existsb (fun name => bool_decide (name = Some model_name)) (map Some names) = true
  <-> In model_name names.
Proof.
  rewrite existsb_exists. split.
  - intros (x & Hx & Heq). apply bool_decide_eq_true_1 in Heq. subst x.
    apply in_map_iff in Hx as (name & [= ->] & Hin). exact Hin.
  - intros Hin. exists (Some model_name). split; [apply in_map, Hin|].
    apply bool_decide_eq_true_2. reflexivity.
Qed.

Lemma find_first {A} (f : A -> bool) (l : list A) (x : A) :
  find f l = Some x <->
  exists before after,
    l = before ++ x :: after /\ Forall (fun y => f y = false) before /\ f x = true.
Proof.
  split.
  - induction l as [|y l IH]; [discriminate|]. simpl.
    destruct (f y) eqn:Hy.
    + intros [= ->]. exists [], l. split; [reflexivity|]. split; [constructor|exact Hy].
    + intros Hfind. destruct (IH Hfind) as (before & after & -> & Hbefore & Hx).
      exists (y :: before), after. split; [reflexivity|].
      split; [constructor; assumption|exact Hx].
  - intros (before & after & -> & Hbefore & Hx).
    induction Hbefore as [|y before Hy _ IH]; simpl.
    + rewrite Hx. reflexivity.
    + rewrite Hy. exact IH.
Qed.

(** The model check changes the configured model in one case only: the
    request succeeded, every listed name is a string, the configured
    name is not listed, and the new name is the first listed name that
    contains the base name (the part before the first colon), and is not
    empty.  In that case it does change it. *)
Theorem model_check_changes_exactly (model_name chosen : str)
    (tags : result (list (option str))) :
  OllamaClient.check_ollama_availability model_name tags = chosen /\
  chosen <> model_name
  <->
  exists before after : list str,
    tags = Ok (map Some (before ++ chosen :: after)) /\
    ~ In model_name (before ++ chosen :: after) /\
    Forall (fun name =>
              OllamaClient.contains (OllamaClient.model_base_name model_name) name
              = false) before /\
    OllamaClient.contains (OllamaClient.model_base_name model_name) chosen = true /\
    chosen <> [].
Proof.
  unfold OllamaClient.check_ollama_availability. split.
  - intros [Hrun Hnew]. destruct tags as [model_names|e]; [|congruence].
    destruct (existsb _ model_names) eqn:Hlisted; [congruence|].
    destruct (OllamaClient.all_strings model_names) as [names|] eqn:Hall; [|congruence].
    apply all_strings_Some in Hall. subst model_names.
    destruct (find _ names) as [[|c m]|] eqn:Hfind; [congruence| |congruence].
    subst chosen. apply find_first in Hfind as (before & after & -> & Hbefore & Hx).
    exists before, after. split; [reflexivity|].
    split; [|split; [exact Hbefore|split; [exact Hx|discriminate]]].
    intros Hin. apply listed_spec in Hin. congruence.
  - intros (before & after & -> & Hnot & Hbefore & Hx & Hne).
    destruct (existsb _ _) eqn:Hlisted.
    { apply listed_spec in Hlisted. contradiction. }
    rewrite all_strings_map.
    assert (find (OllamaClient.contains (OllamaClient.model_base_name model_name))
                 (before ++ chosen :: after) = Some chosen) as ->.
    { apply find_first. exists before, after. auto. }
    destruct chosen as [|c m]; [contradiction|].
    split; [reflexivity|].
    intros Heq. apply Hnot. rewrite <- Heq. apply in_elt.
Qed.

(** Checking twice is checking once: on the same answer of the server,
    a second check keeps the model the first one settled on. *)
Theorem model_check_idempotent (model_name : str)
    (tags : result (list (option str))) :
  OllamaClient.check_ollama_availability
    (OllamaClient.check_ollama_availability model_name tags) tags
  = OllamaClient.check_ollama_availability model_name tags.
Proof.
  unfold OllamaClient.check_ollama_availability at 2 3.
  destruct tags as [model_names|e]; [|reflexivity].
  destruct (existsb _ model_names) eqn:Hlisted.
  { unfold OllamaClient.check_ollama_availability. rewrite Hlisted. reflexivity. }
  destruct (OllamaClient.all_strings model_names) as [names|] eqn:Hall.
  - destruct (find _ names) as [[|c m]|] eqn:Hfind.
    + unfold OllamaClient.check_ollama_availability.
      rewrite Hlisted, Hall, Hfind. reflexivity.
    + unfold OllamaClient.check_ollama_availability.
      apply all_strings_Some in Hall. subst model_names.
      apply find_some in Hfind as [Hin _].
      apply listed_spec in Hin. rewrite Hin. reflexivity.
    + unfold OllamaClient.check_ollama_availability.
      rewrite Hlisted, Hall, Hfind. reflexivity.
  - unfold OllamaClient.check_ollama_availability. rewrite Hlisted, Hall. reflexivity.
Qed.

(** With the default model [codellama:7b] and a server that lists
    [llama3:8b] and [codellama:13b], the check settles on
    [codellama:13b]. *)
Example model_check_sample :
  OllamaClient.check_ollama_availability (s2l "codellama:7b")
    (Ok [Some (s2l "llama3:8b"); Some (s2l "codellama:13b")])
  = s2l "codellama:13b".
Proof. vm_compute. reflexivity. Qed.

Lemma model_check_changes_exactly_witness :
  OllamaClient.check_ollama_availability (s2l "codellama:7b")
    (Ok (map Some ([s2l "llama3:8b"] ++ s2l "codellama:13b" :: [])))
  = s2l "codellama:13b".
Proof.
  apply (proj2 (model_check_changes_exactly (s2l "codellama:7b") (s2l "codellama:13b")
                  (Ok (map Some ([s2l "llama3:8b"] ++ s2l "codellama:13b" :: []))))).
  exists [s2l "llama3:8b"], []. split; [reflexivity|].
  split; [simpl; intros [H|[H|[]]]; discriminate H|].
  split; [constructor; [vm_compute; reflexivity|constructor]|].
  split; [vm_compute; reflexivity|discriminate].
Defined.
